(** * File difference checker: the tabular and document comparison engines

    A shallow embedding of [src/core/excel_diff.py] and of the progress
    protocol of [src/core/pdf_diff.py], with the properties the design
    document states about them.

    Conventions of the embedding.
    - A Python [str] is the list of its Unicode code points ([pystr]).
    - Python [int]s are [Z]; rows and columns are 1-based as in openpyxl.
    - Python [float]s are binary64 numbers, the kernel's primitive
      floats, with their rounding, their infinities and NaN: the weights,
      the threshold and the combined scores of the column matcher, and
      the numbers keys are read as. The two ratios that enter a score
      (a quotient of two set sizes, difflib's quotient of two lengths)
      are kept as exact rationals ([Qc]) up to the point where the code
      divides, and rounded there. Coordinates of words on a page are
      rationals.
    - [dict]s whose iteration order the code relies on are association
      lists in insertion order; the key index, which the code only ever
      turns into a [set], is a [gmap]; Python [set]s are [gset]s.
    - What belongs to the Python runtime and not to the repository is a
      parameter ([PyRuntime]): the Unicode tables outside ASCII, the
      text-to-float parser, difflib's similarity ratio, the iteration
      order of sets, and what [sorted] returns when the comparison it is
      given is not an order (as with a NaN among the keys), as far as
      all versions of CPython agree. *)

From Stdlib Require Import ZArith QArith Qcanon Lia Bool Ascii String Permutation Floats.
From stdpp Require Import gmap list sorting pretty.

Local Open Scope Z_scope.

(** ** Strings *)

Abbreviation pystr := (list N).

(** An ASCII literal as a Python string. *)
Definition py (s : string) : pystr :=
  map N_of_ascii (list_ascii_of_string s).

Definition SPACE : N := 32%N.

(** ** Sorting as [sorted] and [list.sort] do

    Python sorts stably and compares with [<] alone. Where [<] orders
    the elements consistently, the list a stable sort returns is the one
    insertion builds. *)

Fixpoint insert_sorted {A} (lt : A -> A -> bool) (x : A) (l : list A) : list A :=
  match l with
  | [] => [x]
  | y :: l' => if lt y x then y :: insert_sorted lt x l' else x :: l
  end.

Definition py_sorted {A} (lt : A -> A -> bool) (l : list A) : list A :=
  foldr (insert_sorted lt) [] l.

(** [a] may stand before [b] in a list sorted by [lt]. *)
Definition not_after {A} (lt : A -> A -> bool) (a b : A) : Prop := lt b a = false.

(** [lt] orders the elements of [l] consistently: it is asymmetric, and
    being not below is transitive (a strict weak order). With a NaN
    among floats it is not. *)
Definition consistent_on {A} (lt : A -> A -> bool) (l : list A) : Prop :=
  (∀ x y, x ∈ l -> y ∈ l -> lt x y = true -> lt y x = false)
  ∧ (∀ x y z, x ∈ l -> y ∈ l -> z ∈ l ->
       lt x y = false -> lt y z = false -> lt x z = false).

(** ** The Python runtime *)

Class PyRuntime := {
  (** [str.isalnum] on the code points from U+0080 on. *)
  uni_alnum : N -> bool;
  (** the lower-case mapping of the code points from U+0080 on. *)
  uni_lower : N -> list N;
  (** [float(x)]: [None] where it raises [ValueError], the number read
      otherwise, which may be an infinity or NaN. *)
  py_float : pystr -> option float;
  (** [difflib.SequenceMatcher(None, a, b).ratio()], as the quotient
      [2 * M / T] it rounds. *)
  seq_ratio : pystr -> pystr -> Qc;
  (** [list(s)] for a [set] of strings: the order in which the elements
      come out is the runtime's business. *)
  set_order : gset pystr -> list pystr;
  set_order_perm : ∀ s, set_order s ≡ₚ elements s;
  (** [sorted(l)] under the comparison [lt], for a comparison that may
      fail to be an order. CPython's merge sort always returns a
      rearrangement of the list; it leaves a list alone in which no
      element is below the one before it (the list is one run); and
      where [lt] orders the elements consistently it is the stable sort.
      What else it does with an inconsistent comparison differs from one
      version of CPython to the next and is left open. *)
  list_sort : ∀ {A : Type}, (A -> A -> bool) -> list A -> list A;
  list_sort_perm : ∀ A (lt : A -> A -> bool) (l : list A), list_sort lt l ≡ₚ l;
  list_sort_run : ∀ A (lt : A -> A -> bool) (l : list A),
    Sorted (not_after lt) l -> list_sort lt l = l;
  list_sort_stable : ∀ A (lt : A -> A -> bool) (l : list A),
    consistent_on lt l -> list_sort lt l = py_sorted lt l
}.

(** White space as [re]'s [\s] and [str.strip] see it
    ([Py_UNICODE_ISSPACE]); the list is complete for Unicode. *)
Definition is_space (c : N) : bool :=
  ((9 <=? c) && (c <=? 13) || (28 <=? c) && (c <=? 32)
   || (c =? 133) || (c =? 160) || (c =? 5760)
   || (8192 <=? c) && (c <=? 8202)
   || (c =? 8232) || (c =? 8233) || (c =? 8239) || (c =? 8287)
   || (c =? 12288))%N.
Arguments is_space : simpl never.

Definition ascii_upper (c : N) : bool := ((65 <=? c) && (c <=? 90))%N.
Definition ascii_lower (c : N) : bool := ((97 <=? c) && (c <=? 122))%N.
Definition ascii_digit (c : N) : bool := ((48 <=? c) && (c <=? 57))%N.

(** ** Cell values and sheets *)

(** What openpyxl hands out as a cell's [value]. A float or a date is
    carried by the text [str()] gives for it. *)
Inductive value :=
| VNone
| VStr (s : pystr)
| VInt (z : Z)
| VBool (b : bool)
| VOther (repr : pystr).

(** [str(v)] for a value that is not [None]. *)
Definition py_str (v : value) : pystr :=
  match v with
  | VNone => py "None"
  | VStr s => s
  | VInt z => py (pretty z)
  | VBool true => py "True"
  | VBool false => py "False"
  | VOther repr => repr
  end.

(** [v in (None, "")] *)
Definition is_empty (v : value) : bool :=
  match v with
  | VNone => true
  | VStr [] => true
  | _ => false
  end.

Record sheet := {
  cell : Z -> Z -> value;
  max_row : Z;
  max_column : Z
}.

(** [range(a, b)] *)
Definition range (a b : Z) : list Z := seqZ a (b - a).

(** ** The normalizer *)

Section Runtime.
Context {RT : PyRuntime}.

(** [re]'s [\w] on [str] patterns: alphanumeric or underscore. *)
Definition is_word (c : N) : bool :=
  if (c <? 128)%N
  then ascii_upper c || ascii_lower c || ascii_digit c || (c =? 95)%N
  else uni_alnum c.
Arguments is_word : simpl never.

(** The lower-case form of one code point. *)
Definition lower_cp (c : N) : list N :=
  if (c <? 128)%N
  then (if ascii_upper c then [(c + 32)%N] else [c])
  else uni_lower c.
Arguments lower_cp : simpl never.

(** [s.lower()], code point by code point. (CPython has one rule that
    looks at the neighbours, for the Greek capital sigma.) *)
Definition str_lower (s : pystr) : pystr := flat_map lower_cp s.

(** [re.sub(r"[^\w\s]", " ", s)] *)
Definition sub_nonword (s : pystr) : pystr :=
  map (fun c => if is_word c || is_space c then c else SPACE) s.

(** [re.sub(r"\s+", " ", s)]: [in_run] tells that the run of white space
    the scan is in has already been replaced. *)
Fixpoint collapse_ws (in_run : bool) (s : pystr) : pystr :=
  match s with
  | [] => []
  | c :: s' =>
      if is_space c
      then (if in_run then collapse_ws true s' else SPACE :: collapse_ws true s')
      else c :: collapse_ws false s'
  end.

Fixpoint lstrip (s : pystr) : pystr :=
  match s with
  | [] => []
  | c :: s' => if is_space c then lstrip s' else s
  end.

Fixpoint rstrip (s : pystr) : pystr :=
  match s with
  | [] => []
  | c :: s' =>
      match rstrip s' with
      | [] => if is_space c then [] else [c]
      | r => c :: r
      end
  end.

(** [s.strip()] *)
Definition strip (s : pystr) : pystr := rstrip (lstrip s).

(** [_normalize_header]: [None] stands for Python's [None]. *)
Definition _normalize_header (s : option pystr) : pystr :=
  match s with
  | None => []
  | Some s => str_lower (strip (collapse_ws false (sub_nonword s)))
  end.

(** [_normalize_key] *)
Definition _normalize_key (k : value) : pystr :=
  match k with
  | VNone => []
  | _ => strip (py_str k)
  end.

(** [_safe_eq] *)
Definition _safe_eq (a b : value) : bool :=
  if is_empty a && is_empty b then false
  else bool_decide (_normalize_key a = _normalize_key b).

(** ** Header locator *)

Inductive error :=
| TooFewFiles             (* "At least two files are required ..." *)
| HeaderNotFound (key : pystr)  (* "Key header '...' not found in sheet" *)
| NoHeadersFound          (* "No headers found in either file to compare." *)
| InvalidAlignmentMode    (* "compare_mode must be 'by_key' or 'by_row'" *)
| CallbackAbort.          (* a BaseException out of the progress callback *)

Inductive result (A : Type) :=
| Ok (a : A)
| Raise (e : error).
Arguments Ok {A} a.
Arguments Raise {A} e.

(** [v and isinstance(v, str) and _normalize_header(v) == key_header_norm] *)
Definition is_key_cell (key_header_norm : pystr) (v : value) : bool :=
  match v with
  | VStr (c :: s) => bool_decide (_normalize_header (Some (c :: s)) = key_header_norm)
  | _ => false
  end.

(** [vv and isinstance(vv, str) and vv.strip()] *)
Definition is_text_cell (vv : value) : bool :=
  match vv with
  | VStr (c :: s) => match strip (c :: s) with [] => false | _ => true end
  | _ => false
  end.

(** The inner counting loop of [locate_header_row]. *)
Definition text_count (sh : sheet) (r : Z) : Z :=
  Z.of_nat (length (List.filter (fun cc => is_text_cell (cell sh r cc))
                                (range 1 (max_column sh + 1)))).

(** The [candidates] list, in the order the two loops append to it. *)
Definition candidates (sh : sheet) (key_header_norm : pystr) : list (Z * Z * Z) :=
  flat_map (fun r =>
    flat_map (fun c =>
      if is_key_cell key_header_norm (cell sh r c)
      then [(r, c, text_count sh r)] else [])
      (range 1 (max_column sh + 1)))
    (range 1 (max_row sh + 1)).

(** The sort key [(-x[2], x[0], x[1])]. *)
Definition cand_key (x : Z * Z * Z) : Z * Z * Z :=
  let '(r, c, cnt) := x in (- cnt, r, c).

(** [<] on triples of integers. *)
Definition tuple3_lt (a b : Z * Z * Z) : bool :=
  let '(a1, a2, a3) := a in
  let '(b1, b2, b3) := b in
  if a1 =? b1 then (if a2 =? b2 then a3 <? b3 else a2 <? b2) else a1 <? b1.

Definition cand_lt (x y : Z * Z * Z) : bool := tuple3_lt (cand_key x) (cand_key y).

(** [l.sort(key=...); return (l[0][0], l[0][1])] on a list known to be
    non-empty: [c0] is its first element. *)
Definition best_candidate (c0 : Z * Z * Z) (rest : list (Z * Z * Z)) : Z * Z :=
  let '(r, c, _) := hd c0 (py_sorted cand_lt (c0 :: rest)) in (r, c).

Definition locate_header_row (sh : sheet) (key_header_norm : pystr)
    (top_rows_prefer : Z) : result (Z * Z) :=
  match candidates sh key_header_norm with
  | [] => Raise (HeaderNotFound key_header_norm)
  | c0 :: rest =>
      match List.filter (fun t => t.1.1 <=? top_rows_prefer) (c0 :: rest) with
      | t0 :: trest => Ok (best_candidate t0 trest)
      | [] => Ok (best_candidate c0 rest)
      end
  end.

(** ** Header extractor *)

(** Python [dict]s in insertion order. *)
Fixpoint dict_get {V} (k : pystr) (d : list (pystr * V)) : option V :=
  match d with
  | [] => None
  | (k', v) :: d' => if bool_decide (k' = k) then Some v else dict_get k d'
  end.

(** [d[k] = v] *)
Fixpoint dict_set {V} (k : pystr) (v : V) (d : list (pystr * V)) : list (pystr * V) :=
  match d with
  | [] => [(k, v)]
  | (k', v') :: d' =>
      if bool_decide (k' = k) then (k, v) :: d' else (k', v') :: dict_set k v d'
  end.

Definition dict_has {V} (k : pystr) (d : list (pystr * V)) : bool :=
  match dict_get k d with Some _ => true | None => false end.

Definition nonempty {A} (l : list A) : bool :=
  match l with [] => false | _ => true end.

Definition header_entry : Type := Z * Z * pystr.

(** The body of the loop of [headers_from_row] at column [c]. *)
Definition header_step (sh : sheet) (header_row : Z)
    (hdrs : list (pystr * header_entry)) (c : Z) : list (pystr * header_entry) :=
  let v := cell sh header_row c in
  match v with
  | VNone => hdrs
  | _ =>
      let display := strip (py_str v) in
      if nonempty display then
        let norm := _normalize_header (Some display) in
        if nonempty norm then
          (if dict_has norm hdrs then hdrs
           else dict_set norm (header_row, c, display) hdrs)
        else hdrs
      else hdrs
  end.

Definition headers_from_row (sh : sheet) (header_row : Z) : list (pystr * header_entry) :=
  fold_left (header_step sh header_row) (range 1 (max_column sh + 1)) [].

(** The deprecated [find_header_row_and_cols]: the first cell, row by
    row, of every text found anywhere in the sheet. *)
Definition find_header_row_and_cols (sh : sheet) : list (pystr * (Z * Z)) :=
  fold_left (fun headers r =>
    fold_left (fun headers c =>
      match cell sh r c with
      | VStr (x :: s) =>
          if nonempty (strip (x :: s)) then
            let key := str_lower (strip (x :: s)) in
            if dict_has key headers then headers else dict_set key (r, c) headers
          else headers
      | _ => headers
      end)
      (range 1 (max_column sh + 1)) headers)
    (range 1 (max_row sh + 1)) [].

(** ** Row key index *)

Definition build_row_dict (sh : sheet) (header_row key_col : Z) : gmap pystr Z :=
  fold_left (fun row_dict r =>
    let key := cell sh r key_col in
    if is_empty key then row_dict
    else <[ _normalize_header (Some (py_str key)) := r ]> row_dict)
    (range (header_row + 1) (max_row sh + 1)) ∅.

(** ** Key ordering *)

(** [<] on [str]: lexicographic on code points. *)
Fixpoint str_ltb (a b : pystr) : bool :=
  match a, b with
  | _, [] => false
  | [], _ :: _ => true
  | x :: a', y :: b' => if (x =? y)%N then str_ltb a' b' else (x <? y)%N
  end.

(** The sort key of [_sort_keys]: [(0, float(x))] or [(1, x)]. *)
Inductive sort_key :=
| KNum (f : float)
| KStr (x : pystr).

Definition keyfn (x : pystr) : sort_key :=
  match py_float x with
  | Some f => KNum f
  | None => KStr x
  end.

Definition sort_key_lt (a b : sort_key) : bool :=
  match a, b with
  | KNum f, KNum g => (f <? g)%float
  | KNum _, KStr _ => true
  | KStr _, KNum _ => false
  | KStr x, KStr y => str_ltb x y
  end.

Definition _sort_keys (keys : list pystr) : list pystr :=
  list_sort (fun x y => sort_key_lt (keyfn x) (keyfn y)) keys.

(** ** Column matcher *)

(** The loop of [_sample_column_values] over the rows still to scan. *)
Fixpoint sample_loop (sh : sheet) (col max_samples : Z) (rows : list Z)
    (vals : list pystr) : list pystr :=
  match rows with
  | [] => vals
  | r :: rows' =>
      let v := cell sh r col in
      if is_empty v then sample_loop sh col max_samples rows' vals
      else
        let vals' := vals ++ [_normalize_key v] in
        if max_samples <=? Z.of_nat (length vals') then vals'
        else sample_loop sh col max_samples rows' vals'
  end.

Definition _sample_column_values (sh : sheet) (header_row col max_samples : Z)
    : list pystr :=
  sample_loop sh col max_samples
    (range (header_row + 1)
           (Z.min (max_row sh + 1) (header_row + 1 + max_samples * 5))) [].

Definition _jaccard (a b : list pystr) : Qc :=
  let sa : gset pystr := list_to_set a in
  let sb : gset pystr := list_to_set b in
  if bool_decide (sa = ∅) && bool_decide (sb = ∅) then 1%Qc
  else if bool_decide (sa = ∅) || bool_decide (sb = ∅) then 0%Qc
  else (Qc_of_Z (Z.of_nat (size (sa ∩ sb))) / Qc_of_Z (Z.of_nat (size (sa ∪ sb))))%Qc.

Definition _name_ratio (a b : pystr) : Qc :=
  if negb (nonempty a) || negb (nonempty b) then 0%Qc
  else seq_ratio (str_lower a) (str_lower b).

(** The double nearest to an integer. *)
Definition Z2F (z : Z) : float := SF2Prim (binary_normalize prec emax z 0 false).

(** The double a quotient rounds to when the code divides: [len(inter) /
    len(union)] in [_jaccard], [2.0 * M / T] in [ratio()]. The two
    integers are sizes and lengths, which are doubles exactly, and the
    division rounds their quotient once. *)
Definition Q2F (q : Qc) : float := (Z2F (Qnum q) / Z2F (Z.pos (Qden q)))%float.

(** One entry of [scores]: [(score, h1, h2, name_s, data_s)]. *)
Definition score_entry : Type := float * pystr * pystr * Qc * Qc.

Definition entry_score (e : score_entry) : float := e.1.1.1.1.

(** The greedy pass over the sorted scores, with its early exit. *)
Fixpoint greedy_accept (min_score : float) (scores : list score_entry)
    (mapped1 mapped2 : gset pystr) (mapping : list (pystr * pystr))
    : list (pystr * pystr) :=
  match scores with
  | [] => mapping
  | (score, h1, h2, _, _) :: rest =>
      if (score <? min_score)%float then mapping
      else if bool_decide (h1 ∈ mapped1) || bool_decide (h2 ∈ mapped2)
      then greedy_accept min_score rest mapped1 mapped2 mapping
      else greedy_accept min_score rest ({[h1]} ∪ mapped1) ({[h2]} ∪ mapped2)
             (dict_set h1 h2 mapping)
  end.

(** One step of the dict comprehension that samples every header's column. *)
Definition sample_step (sh : sheet) (header_row sample_size : Z)
    (d : list (pystr * list pystr)) (x : pystr * header_entry)
    : list (pystr * list pystr) :=
  let '(h, (_, c, _)) := x in
  dict_set h (_sample_column_values sh header_row c sample_size) d.

Definition sample_dict (headers_row : list (pystr * header_entry)) (sh : sheet)
    (header_row sample_size : Z) : list (pystr * list pystr) :=
  fold_left (sample_step sh header_row sample_size) headers_row [].

(** [samples.get(h, [])] *)
Definition samples_get (h : pystr) (samples : list (pystr * list pystr)) : list pystr :=
  default [] (dict_get h samples).

Definition column_scores (headers1_row headers2_row : list (pystr * header_entry))
    (sheet1 sheet2 : sheet) (header_row1 header_row2 : Z)
    (weight_name weight_data : float) (sample_size : Z) : list score_entry :=
  let samples1 := sample_dict headers1_row sheet1 header_row1 sample_size in
  let samples2 := sample_dict headers2_row sheet2 header_row2 sample_size in
  flat_map (fun '(h1, (_, _, d1)) =>
    map (fun '(h2, (_, _, d2)) =>
      let name_s := _name_ratio d1 d2 in
      let data_s := _jaccard (samples_get h1 samples1) (samples_get h2 samples2) in
      ((weight_name * Q2F name_s + weight_data * Q2F data_s)%float,
       h1, h2, name_s, data_s))
      headers2_row) headers1_row.

Definition match_columns_by_data (headers1_row headers2_row : list (pystr * header_entry))
    (sheet1 sheet2 : sheet) (header_row1 header_row2 : Z)
    (weight_name weight_data min_score : float) (sample_size : Z)
    : list (pystr * pystr) :=
  let scores :=
    column_scores headers1_row headers2_row sheet1 sheet2 header_row1 header_row2
                  weight_name weight_data sample_size in
  (* scores.sort(reverse=True, key=lambda x: x[0]): the list is reversed,
     sorted by its scores and reversed again *)
  let scores :=
    reverse (list_sort (fun x y => (entry_score x <? entry_score y)%float)
                       (reverse scores)) in
  greedy_accept min_score scores ∅ ∅ [].

(** ** Progress reporting and failure

    A run threads the list of percentages handed to the progress callback
    so far, and either yields a value or raises. *)

(** What one call of the caller's callback does. *)
Inductive cb_outcome :=
| CbReturns
| CbRaisesException       (* an instance of [Exception] *)
| CbRaisesBaseException.  (* e.g. [KeyboardInterrupt]: not an [Exception] *)

(** A callback sees the percentages of its earlier calls and the new one. *)
Definition callback : Type := list Z -> Z -> cb_outcome.

Definition run (A : Type) : Type := list Z -> result A * list Z.

#[export] Instance run_ret : MRet run := fun A a tr => (Ok a, tr).

#[export] Instance run_bind : MBind run := fun A B k m tr =>
  match m tr with
  | (Ok a, tr') => k a tr'
  | (Raise e, tr') => (Raise e, tr')
  end.

Definition raise {A} (e : error) : run A := fun tr => (Raise e, tr).

Definition lift {A} (r : result A) : run A := fun tr => (r, tr).

(** [_progress], the same closure in both engines: [progress_cb] is [None]
    when the option is absent or not callable. *)
Definition _progress (progress_cb : option callback) (p : Z) : run unit :=
  fun tr =>
    match progress_cb with
    | None => (Ok (), tr)
    | Some cb =>
        match cb tr p with
        | CbReturns => (Ok (), tr ++ [p])
        | CbRaisesException => (Ok (), tr ++ [p])      (* except Exception: pass *)
        | CbRaisesBaseException => (Raise CallbackAbort, tr ++ [p])
        end
    end.

(** [for x in l: body(x)], collecting what the bodies produce. *)
Fixpoint for_each {A B} (body : A -> run B) (l : list A) : run (list B) :=
  match l with
  | [] => mret []
  | x :: l' => b ← body x; bs ← for_each body l'; mret (b :: bs)
  end.

(** ** Cell differ *)

Inductive fill :=
| NoFill
| AltFill     (* the grey banding of every other row *)
| MatchFill
| DelFill
| AddFill.

(** The classification of one pair of values by the inner loop of
    [compare_excel_files]: the fills it assigns to the two output cells,
    [None] where it assigns none. *)
Definition cell_verdict (val1 val2 : value) : option fill * option fill :=
  if is_empty val1 && is_empty val2 then (None, None)
  else if _safe_eq val1 val2 then (Some MatchFill, Some MatchFill)
  else (if negb (is_empty val1) then Some DelFill else None,
        if negb (is_empty val2) then Some AddFill else None).

(** ** Row aligner *)

(** Truth value of an [Optional[int]]. *)
Definition truthy (r : option Z) : bool :=
  match r with
  | Some z => negb (z =? 0)
  | None => false
  end.

(** The text of the key cell shown in a row label. *)
Definition key_display (sh : sheet) (r : option Z) (key_col : Z) : pystr :=
  match r with
  | Some z =>
      if negb (z =? 0) then
        let raw := cell sh z key_col in
        if is_empty raw then [] else py_str raw
      else []
  | None => []
  end.

(** [disp or (r or '')] inside the f-string. *)
Definition label_part (disp : pystr) (r : option Z) : pystr :=
  if nonempty disp then disp
  else match r with
       | Some z => if z =? 0 then [] else py (pretty z)
       | None => []
       end.

(** [f"{disp1 or (r1 or '')}/{disp2 or (r2 or '')}"] *)
Definition row_label (disp1 : pystr) (r1 : option Z) (disp2 : pystr) (r2 : option Z)
    : pystr :=
  label_part disp1 r1 ++ py "/" ++ label_part disp2 r2.

Definition aligned_row : Type := option Z * option Z * pystr.

(** The by-key branch, from the list the union of the key sets is turned
    into. *)
Definition rows_by_key_from (all_keys : list pystr) (sheet1 sheet2 : sheet)
    (row_dict1 row_dict2 : gmap pystr Z) (key_col1 key_col2 : Z) : list aligned_row :=
  map (fun key_norm =>
         let r1 := row_dict1 !! key_norm in
         let r2 := row_dict2 !! key_norm in
         let disp1 := key_display sheet1 r1 key_col1 in
         let disp2 := key_display sheet2 r2 key_col2 in
         (r1, r2, row_label disp1 r1 disp2 r2))
      all_keys.

(** [_sort_keys(list(set(row_dict1.keys()) | set(row_dict2.keys())))] *)
Definition all_keys_of (row_dict1 row_dict2 : gmap pystr Z) : list pystr :=
  _sort_keys (set_order (dom row_dict1 ∪ dom row_dict2)).

Definition rows_by_key (sheet1 sheet2 : sheet) (row_dict1 row_dict2 : gmap pystr Z)
    (key_col1 key_col2 : Z) : list aligned_row :=
  rows_by_key_from (all_keys_of row_dict1 row_dict2) sheet1 sheet2
                   row_dict1 row_dict2 key_col1 key_col2.

(** The by-row branch. *)
Definition rows_by_row (sheet1 sheet2 : sheet) (key_row1 key_col1 key_row2 key_col2 : Z)
    : list aligned_row :=
  let max_after := Z.max (max_row sheet1 - key_row1) (max_row sheet2 - key_row2) in
  map (fun offset =>
         let r1 := if key_row1 + offset <=? max_row sheet1
                   then Some (key_row1 + offset) else None in
         let r2 := if key_row2 + offset <=? max_row sheet2
                   then Some (key_row2 + offset) else None in
         let disp1 := if negb (key_col1 =? 0) then key_display sheet1 r1 key_col1 else [] in
         let disp2 := if negb (key_col2 =? 0) then key_display sheet2 r2 key_col2 else [] in
         (r1, r2, row_label disp1 r1 disp2 r2))
      (range 1 (max_after + 1)).

(** ** Tabular comparison orchestrator *)

Record options := {
  key_header : pystr;
  compare_mode : pystr;
  weight_name : float;
  weight_data : float;
  min_score : float;
  sample_size : Z;
  top_rows_prefer : Z;
  progress_cb : option callback;
  return_meta : bool
}.

(** The defaults [compare_excel_files] gives to absent options. *)
Definition default_options : options := {|
  key_header := py "S.no";
  compare_mode := py "by_key";
  weight_name := 0.25%float;
  weight_data := 0.75%float;
  min_score := 0x1.999999999999ap-3%float;   (* 0.20 *)
  sample_size := 40;
  top_rows_prefer := 20;
  progress_cb := None;
  return_meta := false
|}.

Definition _ordered_norms_from_map (hmap : list (pystr * header_entry)) : list pystr :=
  let items := map (fun '(norm, t) => (norm, t.1.2)) hmap in
  map fst (py_sorted (fun x y : pystr * Z => x.2 <? y.2) items).

(** The unified header list: key header first, file 1 left to right, then
    the file-2 headers no file-1 header was matched to. *)
Definition unified_headers (key_header_norm : pystr)
    (headers1_row headers2_row : list (pystr * header_entry))
    (col_match : list (pystr * pystr)) : list pystr :=
  let header_list : list pystr :=
    if dict_has key_header_norm headers1_row || dict_has key_header_norm headers2_row
    then [key_header_norm] else [] in
  let used_in_file2 : gset pystr := ∅ in
  let '(header_list, used_in_file2) :=
    fold_left (fun '(hl, used) h =>
      if bool_decide (h = key_header_norm) then (hl, used)
      else
        let hl' := if bool_decide (h ∈ hl) then hl else hl ++ [h] in
        match dict_get h col_match with
        | Some (c :: partner) => (hl', {[c :: partner]} ∪ used)
        | _ => (hl', used)
        end)
      (_ordered_norms_from_map headers1_row) (header_list, used_in_file2) in
  fold_left (fun hl h =>
      if bool_decide (h = key_header_norm) then hl
      else if bool_decide (h ∈ hl) || bool_decide (h ∈ used_in_file2) then hl
      else hl ++ [h])
    (_ordered_norms_from_map headers2_row) header_list.

(** One entry of [header_map]. *)
Record header_cols := {
  hc_norm : pystr;
  hc_out1 : Z;
  hc_out2 : Z;
  hc_col1 : option Z;
  hc_col2 : option Z;
  hc_disp1 : pystr;
  hc_disp2 : pystr
}.

(** The first file-1 header [col_match] sends to [hnorm]. *)
Fixpoint reverse_match (hnorm : pystr) (col_match : list (pystr * pystr)) : option pystr :=
  match col_match with
  | [] => None
  | (k, v) :: rest => if bool_decide (v = hnorm) then Some k else reverse_match hnorm rest
  end.

Definition resolve_header (headers1_row headers2_row : list (pystr * header_entry))
    (col_match : list (pystr * pystr)) (hnorm : pystr) (header_out_col : Z) : header_cols :=
  let r1c := dict_get hnorm headers1_row in
  let r2c :=
    if dict_has hnorm headers1_row && dict_has hnorm col_match
    then partner_key ← dict_get hnorm col_match; dict_get partner_key headers2_row
    else dict_get hnorm headers2_row in
  let r1c :=
    match r1c, r2c with
    | None, Some _ =>
        match reverse_match hnorm col_match with
        | Some (c :: rev) => dict_get (c :: rev) headers1_row
        | _ => None
        end
    | _, _ => r1c
    end in
  {| hc_norm := hnorm;
     hc_out1 := header_out_col;
     hc_out2 := header_out_col + 1;
     hc_col1 := (fun t : header_entry => t.1.2) <$> r1c;
     hc_col2 := (fun t : header_entry => t.1.2) <$> r2c;
     hc_disp1 := match r1c, r2c with
                 | Some t, _ => t.2
                 | None, Some t => t.2
                 | None, None => hnorm
                 end;
     hc_disp2 := match r2c, r1c with
                 | Some t, _ => t.2
                 | None, Some t => t.2
                 | None, None => hnorm
                 end |}.

(** [header_map], with [header_out_col] running from 2 in steps of 2. *)
Definition build_header_map (headers1_row headers2_row : list (pystr * header_entry))
    (col_match : list (pystr * pystr)) (header_list : list pystr) : list header_cols :=
  imap (fun i hnorm =>
          resolve_header headers1_row headers2_row col_match hnorm (2 + 2 * Z.of_nat i))
       header_list.

(** An output cell: the value written and the fill it ends up with. *)
Record out_cell := { out_value : value; out_fill : fill }.

(** The value fetched for one side: [sheet.cell(r, col).value if (r and col)
    else None]. *)
Definition fetch (sh : sheet) (r col : option Z) : value :=
  if truthy r && truthy col
  then cell sh (default 0 r) (default 0 col) else VNone.

(** The two output cells of one header on output row [7 + i]. *)
Definition diff_cells (sheet1 sheet2 : sheet) (i : Z) (r1 r2 : option Z)
    (hc : header_cols) : out_cell * out_cell :=
  let band := if i mod 2 =? 1 then AltFill else NoFill in
  let val1 := fetch sheet1 r1 (hc_col1 hc) in
  let val2 := fetch sheet2 r2 (hc_col2 hc) in
  let '(f1, f2) := cell_verdict val1 val2 in
  ({| out_value := val1; out_fill := default band f1 |},
   {| out_value := val2; out_fill := default band f2 |}).

(** The percentage reported after output row [i]:
    [30 + int(60 * (i / total))], the quotient taken exactly. *)
Definition row_percent (i total : Z) : Z := 30 + (60 * i) / total.

Definition out_row : Type := pystr * list (out_cell * out_cell).

(** The body of the loop that writes the comparison rows. *)
Definition write_row (cb : option callback) (sheet1 sheet2 : sheet)
    (header_map : list header_cols) (total : Z) (ir : Z * aligned_row) : run out_row :=
  let '(i, (r1, r2, label)) := ir in
  let cells := map (diff_cells sheet1 sheet2 i r1 r2) header_map in
  (if i mod 20 =? 0 then _progress cb (row_percent i total) else mret ());;
  mret (label, cells).

Record workbook := {
  wb_header : list (pystr * pystr);   (* row 6, from column 2 on *)
  wb_rows : list out_row              (* rows 7, 8, ... *)
}.

Record meta := {
  rows_compared : Z;
  meta_key_header : pystr;
  meta_compare_mode : pystr
}.

Definition compare_excel_files (file_list : list sheet) (opts : options)
    : run (workbook * option meta) :=
  let cb := progress_cb opts in
  match file_list with
  | sheet1 :: sheet2 :: _ =>
      _progress cb 1;;
      let key_header_norm := _normalize_header (Some (key_header opts)) in
      '(key_row1, key_col1) ←
        lift (locate_header_row sheet1 key_header_norm (top_rows_prefer opts));
      '(key_row2, key_col2) ←
        lift (locate_header_row sheet2 key_header_norm (top_rows_prefer opts));
      _progress cb 5;;
      let row_dict1 := build_row_dict sheet1 key_row1 key_col1 in
      let row_dict2 := build_row_dict sheet2 key_row2 key_col2 in
      let headers1_row := headers_from_row sheet1 key_row1 in
      let headers2_row := headers_from_row sheet2 key_row2 in
      let col_match :=
        match_columns_by_data headers1_row headers2_row sheet1 sheet2 key_row1 key_row2
          (weight_name opts) (weight_data opts) (min_score opts) (sample_size opts) in
      let header_list :=
        unified_headers key_header_norm headers1_row headers2_row col_match in
      if negb (nonempty header_list) then raise NoHeadersFound else
      _progress cb 15;;
      let header_map := build_header_map headers1_row headers2_row col_match header_list in
      _progress cb 30;;
      rows_to_compare ←
        (if bool_decide (compare_mode opts = py "by_key")
         then mret (rows_by_key sheet1 sheet2 row_dict1 row_dict2 key_col1 key_col2)
         else if bool_decide (compare_mode opts = py "by_row")
         then mret (rows_by_row sheet1 sheet2 key_row1 key_col1 key_row2 key_col2)
         else raise InvalidAlignmentMode);
      let total := Z.max 1 (Z.of_nat (length rows_to_compare)) in
      rows ← for_each (write_row cb sheet1 sheet2 header_map total)
                      (zip (seqZ 0 (Z.of_nat (length rows_to_compare))) rows_to_compare);
      _progress cb 95;;
      _progress cb 100;;
      let result := {|
        wb_header := map (fun hc => (hc_disp1 hc ++ py " (File 1)",
                                     hc_disp2 hc ++ py " (File 2)")) header_map;
        wb_rows := rows |} in
      let meta := {|
        rows_compared := Z.of_nat (length rows_to_compare);
        meta_key_header := key_header opts;
        meta_compare_mode := compare_mode opts |} in
      mret (result, if return_meta opts then Some meta else None)
  | _ => raise TooFewFiles
  end.

(** ** Document comparison: the progress protocol of [pdf_diff.py] *)

(** A document, as far as the progress protocol goes: the text of each of
    its pages. *)
Definition pdf : Type := list pystr.

(** The two milestones [save_side_by_side_pdf] reports for page [i]:
    [base + int(20 * (i / max(1, num_pages)))], the quotient taken exactly. *)
Definition page_percent (base i num_pages : Z) : Z :=
  base + (20 * i) / Z.max 1 num_pages.

Definition save_side_by_side_pdf (cb : option callback) (num_pages : Z) : run unit :=
  for_each (fun i =>
              _progress cb (page_percent 30 i num_pages);;
              (* visual highlights of page i, both directions *)
              _progress cb (page_percent 50 i num_pages)
              (* text highlights of page i, then the page is drawn *))
           (range 0 num_pages);;
  mret ().

Definition compare_pdfs (file_list : list pdf) (cb : option callback) : run Z :=
  match file_list with
  | file1 :: file2 :: _ =>
      _progress cb 1;;
      let images1 := Z.of_nat (length file1) in
      let images2 := Z.of_nat (length file2) in
      _progress cb 20;;
      _progress cb 30;;
      save_side_by_side_pdf cb (Z.min images1 images2);;
      _progress cb 95;;
      _progress cb 100;;
      mret (Z.min images1 images2)
  | _ => raise TooFewFiles
  end.

(** ** Text page differ ([pdf_diff.py])

    What [highlight_text_differences] draws, given the words PyMuPDF
    finds on the page and the full text of the other page. Reading the
    PDF and compositing the overlay are the collaborators' work. *)

(** [s.split()]: the maximal runs of characters that are not white
    space; [cur] is the run being read. *)
Fixpoint split_from (cur : pystr) (s : pystr) : list pystr :=
  match s with
  | [] => if nonempty cur then [cur] else []
  | c :: s' =>
      if is_space c
      then (if nonempty cur then cur :: split_from [] s' else split_from [] s')
      else split_from (cur ++ [c]) s'
  end.

Definition str_split (s : pystr) : list pystr := split_from [] s.

(** One entry of [page.get_text("words")]: the corners of the box, in
    points, and the word. *)
Record page_word := {
  w_x0 : Qc;
  w_y0 : Qc;
  w_x1 : Qc;
  w_y1 : Qc;
  w_text : pystr
}.

(** [int(x)] for a float: truncation toward zero. *)
Definition int_of_float (x : Qc) : Z := Z.quot (Qnum x) (Z.pos (Qden x)).

(** The rectangles [highlight_text_differences] fills, in drawing order. *)
Definition highlight_text_differences (words : list page_word) (other_text : pystr)
    : list (Z * Z * Z * Z) :=
  let page_words := map w_text words in
  let set_page_words : gset pystr := list_to_set page_words in
  let set_other : gset pystr := list_to_set (str_split other_text) in
  (* set_page_words.symmetric_difference(set_other) *)
  let diff_words := (set_page_words ∖ set_other) ∪ (set_other ∖ set_page_words) in
  flat_map (fun w =>
              if bool_decide (w_text w ∈ diff_words)
              then [(int_of_float (w_x0 w), int_of_float (w_y0 w),
                     int_of_float (w_x1 w), int_of_float (w_y1 w))]
              else [])
           words.

(** The rectangle drawn for a word: its corners truncated to integers. *)
Definition word_box (w : page_word) : Z * Z * Z * Z :=
  (int_of_float (w_x0 w), int_of_float (w_y0 w),
   int_of_float (w_x1 w), int_of_float (w_y1 w)).

(** Nothing stands after, or else white space does. *)
Definition ends_word (post : pystr) : Prop :=
  post = [] ∨ ∃ c q, post = c :: q ∧ is_space c = true.

(** Nothing stands before, or else white space does. *)
Definition starts_word (pre : pystr) : Prop :=
  pre = [] ∨ ∃ p c, pre = p ++ [c] ∧ is_space c = true.

(** [t] is a word of [s]: a run of characters that are not white space,
    as long as can be. *)
Definition is_token (t s : pystr) : Prop :=
  t ≠ [] ∧ Forall (fun c => is_space c = false) t
  ∧ ∃ pre post, s = pre ++ t ++ post ∧ starts_word pre ∧ ends_word post.

(** ** Notions the statements below are about *)

(** An ASCII capital replaced by its small letter. *)
Definition ascii_fold (c : N) : N := if ascii_upper c then (c + 32)%N else c.

(** A lower-case word character. *)
Definition fixed_char (d : N) : bool :=
  is_word d && negb (is_space d) && bool_decide (lower_cp d = [d]).

(** Lower-casing [c], if it is a word character, yields word characters
    that are lower-case already. *)
Definition lower_stable (c : N) : bool :=
  negb (is_word c) || is_space c
  || nonempty (lower_cp c) && forallb fixed_char (lower_cp c).

(** Word characters separated by single spaces: [after_space] tells that
    the character before [s] was a space. *)
Fixpoint spaced (G : N -> bool) (after_space : bool) (s : pystr) : Prop :=
  match s with
  | [] => True
  | c :: s' =>
      if is_space c then c = SPACE ∧ after_space = false ∧ spaced G true s'
      else G c = true ∧ spaced G false s'
  end.

Definition token_char (c : N) : bool :=
  is_word c && nonempty (lower_cp c) && forallb fixed_char (lower_cp c).

(** The normalized key of row [r], if its key cell is not empty. *)
Definition key_at (sh : sheet) (key_col r : Z) : option pystr :=
  let key := cell sh r key_col in
  if is_empty key then None else Some (_normalize_header (Some (py_str key))).

Definition index_step (sh : sheet) (key_col : Z) (row_dict : gmap pystr Z) (r : Z)
    : gmap pystr Z :=
  match key_at sh key_col r with
  | Some k => <[k := r]> row_dict
  | None => row_dict
  end.

(** The non-empty values of column [col] on the given rows, each as
    [_normalize_key] renders it. *)
Definition column_texts (sh : sheet) (col : Z) (rows : list Z) : list pystr :=
  map _normalize_key
      (List.filter (fun v => negb (is_empty v)) (map (fun r => cell sh r col) rows)).

(** A candidate: a cell of the grid holding a non-empty string whose
    normalized text is the target. *)
Definition is_candidate (sh : sheet) (key : pystr) (r c : Z) : Prop :=
  1 ≤ r ≤ max_row sh ∧ 1 ≤ c ≤ max_column sh
  ∧ is_key_cell key (cell sh r c) = true.

(** [(r, c)] wins against [(r', c')]: more textual cells in its row, or
    as many and an earlier row, or the same row and an earlier column. *)
Definition wins_over (sh : sheet) (r c r' c' : Z) : Prop :=
  text_count sh r' < text_count sh r
  ∨ (text_count sh r' = text_count sh r ∧ (r < r' ∨ (r = r' ∧ c ≤ c'))).

(** The sheet with every value that is not a string blanked out. *)
Definition strings_only (sh : sheet) : sheet := {|
  cell := fun r c => match cell sh r c with VStr s => VStr s | _ => VNone end;
  max_row := max_row sh;
  max_column := max_column sh
|}.

(** [a] may stand before [b] in the aligned rows: numbers first and in
    increasing order, then the other keys in lexicographic order. *)
Definition key_order (a b : pystr) : Prop :=
  match py_float a, py_float b with
  | Some f, Some g => (f <=? g)%float = true
  | Some _, None => True
  | None, Some _ => False
  | None, None => str_ltb b a = false
  end.

(** A callback that never raises anything but an [Exception]. *)
Definition calm (cb : callback) : Prop := ∀ tr p, cb tr p ≠ CbRaisesBaseException.

Definition with_callback (opts : options) (cb : option callback) : options := {|
  key_header := key_header opts;
  compare_mode := compare_mode opts;
  weight_name := weight_name opts;
  weight_data := weight_data opts;
  min_score := min_score opts;
  sample_size := sample_size opts;
  top_rows_prefer := top_rows_prefer opts;
  progress_cb := cb;
  return_meta := return_meta opts
|}.

(** Two runs that end alike, whatever was reported before and during. *)
Definition same_result {A} (m1 m2 : run A) : Prop :=
  ∀ tr1 tr2, (m1 tr1).1 = (m2 tr2).1.

(** A run that adds to the trace an increasing list of percentages
    between [a] and [b]. *)
Definition upto {A} (a b : Z) (m : run A) : Prop :=
  a ≤ b ∧ ∀ tr, ∃ ext, (m tr).2 = tr ++ ext
                       ∧ StronglySorted Z.le ext ∧ Forall (fun p => a ≤ p ≤ b) ext.

(** What column [c] of the header row contributes to the header map:
    the normalized header and its entry. *)
Definition header_at (sh : sheet) (header_row c : Z) : option (pystr * header_entry) :=
  let v := cell sh header_row c in
  match v with
  | VNone => None
  | _ =>
      let display := strip (py_str v) in
      if nonempty display && nonempty (_normalize_header (Some display))
      then Some (_normalize_header (Some display), (header_row, c, display))
      else None
  end.

(** The first element of [l] that carries the key [k]. *)
Fixpoint first_match {X V} (keyof : X -> option (pystr * V)) (k : pystr) (l : list X)
    : option V :=
  match l with
  | [] => None
  | x :: l' =>
      match keyof x with
      | Some (k', v) => if bool_decide (k' = k) then Some v else first_match keyof k l'
      | None => first_match keyof k l'
      end
  end.

(** A loop body that records a key the first time it meets it. *)
Definition first_step {X V} (keyof : X -> option (pystr * V))
    (d : list (pystr * V)) (x : X) : list (pystr * V) :=
  match keyof x with
  | Some (k, v) => if dict_has k d then d else dict_set k v d
  | None => d
  end.

(** A run that can raise nothing but the errors [P] allows. *)
Definition raises_only {A} (P : error -> Prop) (m : run A) : Prop :=
  ∀ tr e tr', m tr = (Raise e, tr') -> P e.

(** The callback, if there is one, never raises anything but an
    [Exception]. *)
Definition calm_or_absent (cb : option callback) : Prop :=
  match cb with
  | Some c => calm c
  | None => True
  end.

(** The combined score of two header entries, as [match_columns_by_data]
    computes it. *)
Definition combined_score (sheet1 sheet2 : sheet) (header_row1 header_row2 : Z)
    (weight_name weight_data : float) (sample_size : Z) (e1 e2 : header_entry) : float :=
  (weight_name * Q2F (_name_ratio e1.2 e2.2)
   + weight_data
     * Q2F (_jaccard (_sample_column_values sheet1 header_row1 e1.1.2 sample_size)
                     (_sample_column_values sheet2 header_row2 e2.1.2 sample_size)))%float.

(** The key [find_header_row_and_cols] files the cell at [(r, c)] under. *)
Definition text_key (sh : sheet) (r c : Z) : option pystr :=
  match cell sh r c with
  | VStr (x :: s) =>
      if nonempty (strip (x :: s)) then Some (str_lower (strip (x :: s))) else None
  | _ => None
  end.

(** The cells of the grid, row by row. *)
Definition grid_cells (sh : sheet) : list (Z * Z) :=
  flat_map (fun r => map (pair r) (range 1 (max_column sh + 1))) (range 1 (max_row sh + 1)).

(** [a] is met before [b] when the sheet is read row by row. *)
Definition reading_order (a b : Z * Z) : Prop :=
  a.1 < b.1 ∨ (a.1 = b.1 ∧ a.2 < b.2).

(** What must hold for [compare_excel_files] to raise [e]. *)
Definition tabular_error_cause (file_list : list sheet) (opts : options) (e : error)
    : Prop :=
  let key := _normalize_header (Some (key_header opts)) in
  match e with
  | TooFewFiles => (length file_list < 2)%nat
  | HeaderNotFound k =>
      k = key ∧ ∃ sh, sh ∈ take 2 file_list ∧ ∀ r c, ¬ is_candidate sh key r c
  | NoHeadersFound => key = []
  | InvalidAlignmentMode =>
      compare_mode opts ≠ py "by_key" ∧ compare_mode opts ≠ py "by_row"
  | CallbackAbort => ¬ calm_or_absent (progress_cb opts)
  end.

(** The percentages reported while [n] comparison rows are written: one
    for every twentieth row. *)
Definition row_milestones (n : Z) : list Z :=
  map (fun i => row_percent i (Z.max 1 n))
      (List.filter (fun i => i mod 20 =? 0) (seqZ 0 n)).

(** Two entries of the score list in the order of the descending sort:
    the first is not below the second. *)
Definition descending (a b : score_entry) : Prop :=
  (entry_score a <? entry_score b)%float = false.

(** No key of the list reads as NaN. *)
Definition no_nan_key (keys : list pystr) : Prop :=
  ∀ k f, k ∈ keys -> py_float k = Some f -> is_nan f = false.

(** Two characters with the same lower-case form that are both word
    characters, or both white space, or neither: they differ in case at
    most. Two texts differ in the case of letters only when their
    characters are such, one by one. *)
Definition same_letter (c d : N) : Prop :=
  lower_cp c = lower_cp d ∧ is_word c = is_word d ∧ is_space c = is_space d.

(** Two entries of a header map in the order of their columns. *)
Definition by_column (x y : pystr * header_entry) : Prop := x.2.1.2 < y.2.1.2.

(** The bodies of the two loops that build the unified header list. *)
Definition file1_step (key_header_norm : pystr) (col_match : list (pystr * pystr))
    : list pystr * gset pystr -> pystr -> list pystr * gset pystr :=
  fun '(hl, used) h =>
    if bool_decide (h = key_header_norm) then (hl, used)
    else
      let hl' := if bool_decide (h ∈ hl) then hl else hl ++ [h] in
      match dict_get h col_match with
      | Some (c :: partner) => (hl', {[c :: partner]} ∪ used)
      | _ => (hl', used)
      end.

Definition file2_step (key_header_norm : pystr) (used_in_file2 : gset pystr)
    (hl : list pystr) (h : pystr) : list pystr :=
  if bool_decide (h = key_header_norm) then hl
  else if bool_decide (h ∈ hl) || bool_decide (h ∈ used_in_file2) then hl
  else hl ++ [h].

(** A file-2 header some file-1 header other than the key was matched to. *)
Definition taken_by_file1 (key_header_norm : pystr)
    (headers1_row : list (pystr * header_entry)) (col_match : list (pystr * pystr))
    (h : pystr) : Prop :=
  ∃ g, g ∈ headers1_row.*1 ∧ g ≠ key_header_norm ∧ dict_get g col_match = Some h ∧ h ≠ [].

End Runtime.

Arguments Ok {A} a.
Arguments Raise {A} e.
Arguments is_word {RT} c : simpl never.
Arguments lower_cp {RT} c : simpl never.

(** ** A fragment of CPython's runtime tables

    The closed examples run on this instance. It follows CPython 3 on the
    code points U+0080..U+00FF, on U+0130 (capital I with dot above) and
    on U+0307 (combining dot above); it reads plain decimal numerals as
    floats; and it gives the similarity ratio of equal texts (1) and of
    texts that share no character (0). The examples stay inside these
    bounds. *)

Definition latin1_alnum (c : N) : bool :=
  ((c =? 170) || (c =? 178) || (c =? 179) || (c =? 181) || (c =? 185) || (c =? 186)
   || (188 <=? c) && (c <=? 190)
   || (192 <=? c) && (c <=? 214)
   || (216 <=? c) && (c <=? 246)
   || (248 <=? c) && (c <=? 255))%N.

Definition fragment_alnum (c : N) : bool :=
  latin1_alnum c || (c =? 304)%N.

Definition fragment_lower (c : N) : list N :=
  if ((192 <=? c) && (c <=? 222) && negb (c =? 215))%N then [(c + 32)%N]
  else if (c =? 304)%N then [105%N; 775%N]
  else [c].

(** The value of a decimal numeral, most significant digit first. *)
Fixpoint digits_value (acc : Z) (s : pystr) : option Z :=
  match s with
  | [] => Some acc
  | c :: s' =>
      if ascii_digit c then digits_value (10 * acc + Z.of_N (c - 48)) s' else None
  end.

(** The place of a number on the line: its class, then exponent and
    mantissa. NaN has none. *)
Definition sf_rank (x : spec_float) : option (Z * Z * Z) :=
  match x with
  | S754_nan => None
  | S754_infinity true => Some (-2, 0, 0)
  | S754_infinity false => Some (2, 0, 0)
  | S754_zero _ => Some (0, 0, 0)
  | S754_finite true m e => Some (-1, - e, - Z.pos m)
  | S754_finite false m e => Some (1, e, Z.pos m)
  end.

Definition rank_lt (a b : Z * Z * Z) : Prop :=
  a.1.1 < b.1.1 ∨ (a.1.1 = b.1.1 ∧ (a.1.2 < b.1.2 ∨ (a.1.2 = b.1.2 ∧ a.2 < b.2))).

(** [float(x)] on a fragment of the texts it reads: ASCII decimal
    digits, "nan", "inf" and "infinity" (a normalized key is in lower
    case and has neither sign nor point). Exponents, underscores and the
    digits of other scripts are left out. *)
Definition fragment_float (x : pystr) : option float :=
  if bool_decide (x = py "nan") then Some nan
  else if bool_decide (x = py "inf") || bool_decide (x = py "infinity") then Some infinity
  else match x with
       | [] => None
       | _ => Z2F <$> digits_value 0 x
       end.

Definition fragment_ratio (a b : pystr) : Qc :=
  if bool_decide (a = b) then 1%Qc else 0%Qc.

(** The fragment sorts by insertion, which obeys the three laws. *)
Definition cpython_fragment : PyRuntime.
Proof.
  refine {|
    uni_alnum := fragment_alnum;
    uni_lower := fragment_lower;
    py_float := fragment_float;
    seq_ratio := fragment_ratio;
    set_order := elements;
    set_order_perm := fun s => reflexivity (elements s);
    list_sort := fun A => py_sorted;
    list_sort_perm := _;
    list_sort_run := _;
    list_sort_stable := fun A lt l _ => eq_refl
  |}.
  - intros A lt l. induction l as [|x l IH]; [done|].
    change (py_sorted lt (x :: l)) with (insert_sorted lt x (py_sorted lt l)).
    rewrite <- IH at 2. generalize (py_sorted lt l). intros s.
    induction s as [|y s IHs]; cbn [insert_sorted]; [done|].
    destruct (lt y x); [|done]. rewrite IHs. apply Permutation_swap.
  - intros A lt l. induction 1 as [|x l Hl IH Hhd]; [done|].
    change (py_sorted lt (x :: l)) with (insert_sorted lt x (py_sorted lt l)).
    rewrite IH. destruct Hhd as [|y l Hxy]; [done|]. cbn [insert_sorted].
    unfold not_after in Hxy. by rewrite Hxy.
Defined.

(** A sheet given by its rows, for the examples. *)
Definition sheet_of_rows (rows : list (list value)) : sheet := {|
  cell := fun r c =>
    if (1 <=? r) && (1 <=? c)
    then default VNone (rows !! Z.to_nat (r - 1) ≫= fun row => row !! Z.to_nat (c - 1))
    else VNone;
  max_row := Z.max 1 (Z.of_nat (length rows));
  max_column := Z.max 1 (Z.of_nat (foldr (fun row m => Nat.max (length row) m) 0%nat rows))
|}.

(** The percentages [save_side_by_side_pdf] reports for [n] pages. *)
Definition pdf_milestones (n : Z) : list Z :=
  flat_map (fun i => [page_percent 30 i n; page_percent 50 i n]) (range 0 n).

(** ** Data of the examples *)

Definition layout_sheet : sheet :=
  sheet_of_rows [[VStr (py "report")];
                 [VStr (py "ID"); VStr (py "Name")];
                 [VStr (py "id"); VInt 3]].

(** The header "S. No" on row 3, and the same text as data on row 50. *)
Definition header_and_data : sheet := {|
  cell := fun r c =>
    if (r =? 3) && (c =? 1) then VStr (py "S. No")
    else if (r =? 3) && (c =? 2) then VStr (py "Name")
    else if (r =? 50) && (c =? 1) then VStr (py "s no")
    else if (r =? 50) && (c =? 2) then VStr (py "x")
    else VNone;
  max_row := 50;
  max_column := 2
|}.

(** The example of the design document: keys 1, 2, 3 in file 1 and
    2, 3, 4 in file 2. *)
Definition keys_123 : sheet :=
  sheet_of_rows [[VStr (py "ID")]; [VInt 1]; [VInt 2]; [VInt 3]].

Definition keys_234 : sheet :=
  sheet_of_rows [[VStr (py "ID")]; [VInt 2]; [VInt 3]; [VInt 4]].

(** Keys 7, NaN and 1, in this order down the key column. *)
Definition keys_7_nan_1 : sheet :=
  sheet_of_rows [[VStr (py "ID")]; [VInt 7]; [VStr (py "NaN")]; [VInt 1]].

(** A callback that raises an [Exception] at every milestone. *)
Definition always_failing : callback := fun _ _ => CbRaisesException.

(** A callback that returns normally at every milestone. *)
Definition quiet : callback := fun _ _ => CbReturns.

Definition two_pages : pdf := [py "page one"; py "page two"].

(** The two small grids of the end-to-end example, and its options. *)
Definition grid_a : sheet :=
  sheet_of_rows [[VStr (py "ID"); VStr (py "Name")];
                 [VInt 1; VStr (py "A")];
                 [VInt 2; VStr (py "B")]].

Definition grid_b : sheet :=
  sheet_of_rows [[VStr (py "ID"); VStr (py "Name")];
                 [VInt 1; VStr (py "A")];
                 [VInt 2; VStr (py "C")]].

Definition by_id : options := {|
  key_header := py "ID";
  compare_mode := py "by_key";
  weight_name := weight_name default_options;
  weight_data := weight_data default_options;
  min_score := min_score default_options;
  sample_size := sample_size default_options;
  top_rows_prefer := top_rows_prefer default_options;
  progress_cb := Some quiet;
  return_meta := false
|}.

(** * Properties *)

(** ** The shape of a normal form *)

Section Normalizer.
Context {RT : PyRuntime}.

Lemma is_space_spec c :
  is_space c = true ↔
  (9 ≤ c ≤ 13 ∨ 28 ≤ c ≤ 32 ∨ c = 133 ∨ c = 160 ∨ c = 5760 ∨ 8192 ≤ c ≤ 8202
   ∨ c = 8232 ∨ c = 8233 ∨ c = 8239 ∨ c = 8287 ∨ c = 12288)%N.
Proof.
  unfold is_space.
  rewrite !orb_true_iff, !andb_true_iff, !N.leb_le, !N.eqb_eq. tauto.
Qed.

Lemma is_space_SPACE : is_space SPACE = true.
Proof. reflexivity. Qed.

Lemma spaced_weaken G p s : spaced G p s -> spaced G false s.
Proof.
  destruct s as [|c s]; simpl; [done|].
  destruct (is_space c); [|done]. intros (-> & _ & H). done.
Qed.

Lemma spaced_collapse_sub p x :
  forallb lower_stable x = true ->
  spaced token_char p (collapse_ws p (sub_nonword x)).
Proof.
  revert p. induction x as [|c x IH]; intros p Hx; simpl in *; [done|].
  apply andb_true_iff in Hx as [Hc Hx].
  assert (Hsp : ∀ q, spaced token_char q
                  (if q then collapse_ws true (sub_nonword x)
                   else SPACE :: collapse_ws true (sub_nonword x))).
  { intros [|]; simpl; auto. }
  destruct (is_word c) eqn:Hw; rewrite ?orb_true_l, ?orb_false_l.
  - destruct (is_space c) eqn:Hs; [apply Hsp|].
    cbn [spaced]. rewrite Hs. split; [|auto].
    unfold lower_stable in Hc. rewrite Hw, Hs in Hc.
    unfold token_char. by rewrite Hw.
  - destruct (is_space c) eqn:Hs; [rewrite Hs|rewrite is_space_SPACE]; apply Hsp.
Qed.

Lemma spaced_lstrip G p s : spaced G p s -> spaced G false (lstrip s).
Proof.
  revert p. induction s as [|c s IH]; intros p; simpl; [done|].
  destruct (is_space c) eqn:Hs.
  - intros (_ & _ & H). eauto.
  - intros H. simpl. by rewrite Hs.
Qed.

Lemma lstrip_head s : match lstrip s with [] => True | c :: _ => is_space c = false end.
Proof.
  induction s as [|c s IH]; simpl; [done|].
  destruct (is_space c) eqn:Hs; [done|]. done.
Qed.

Lemma lstrip_fixpoint s :
  match s with [] => True | c :: _ => is_space c = false end -> lstrip s = s.
Proof. destruct s as [|c s]; simpl; [done|]. by intros ->. Qed.

Lemma lstrip_idem s : lstrip (lstrip s) = lstrip s.
Proof. apply lstrip_fixpoint, lstrip_head. Qed.

Lemma rstrip_cons c s :
  rstrip (c :: s) = if nonempty (rstrip s) then c :: rstrip s
                    else if is_space c then [] else [c].
Proof. simpl. by destruct (rstrip s). Qed.

Lemma rstrip_idem s : rstrip (rstrip s) = rstrip s.
Proof.
  induction s as [|c s IH]; [done|].
  rewrite rstrip_cons. destruct (rstrip s) as [|d r] eqn:Hr; simpl.
  - destruct (is_space c) eqn:Hs; simpl; [done|]. by rewrite Hs.
  - simpl in IH. destruct (match rstrip r with [] => _ | _ => _ end) eqn:E;
      [discriminate|]. by rewrite IH.
Qed.

Lemma spaced_rstrip G p s : spaced G p s -> spaced G p (rstrip s).
Proof.
  revert p. induction s as [|c s IH]; intros p; [done|].
  rewrite rstrip_cons. simpl.
  destruct (rstrip s) as [|d r] eqn:Hr; simpl.
  - destruct (is_space c) eqn:Hs; simpl; [done|]. rewrite Hs. tauto.
  - destruct (is_space c) eqn:Hs.
    + intros (? & ? & H). specialize (IH true H). done.
    + intros (? & H). specialize (IH false H). done.
Qed.

Lemma rstrip_lstrip_head s :
  match rstrip (lstrip s) with [] => True | c :: _ => is_space c = false end.
Proof.
  pose proof (lstrip_head s) as H. destruct (lstrip s) as [|c l]; [done|].
  rewrite rstrip_cons. destruct (nonempty (rstrip l)); [done|].
  by rewrite H.
Qed.

Lemma rstrip_nonspace l :
  Forall (fun d => is_space d = false) l -> rstrip l = l.
Proof.
  induction 1 as [|d l Hd Hl IH]; [done|].
  rewrite rstrip_cons, IH. destruct l; simpl; [by rewrite Hd|done].
Qed.

Lemma rstrip_app a b : rstrip b ≠ [] -> rstrip (a ++ b) = a ++ rstrip b.
Proof.
  intros Hb. induction a as [|c a IH]; [done|].
  rewrite <- app_comm_cons, rstrip_cons, IH.
  destruct a, (rstrip b); simpl; done.
Qed.

Lemma lower_space : lower_cp SPACE = [SPACE].
Proof. reflexivity. Qed.

Lemma token_char_lower c :
  token_char c = true ->
  lower_cp c ≠ [] ∧ Forall (fun d => fixed_char d = true) (lower_cp c).
Proof.
  unfold token_char. rewrite !andb_true_iff. intros [[_ Hn] Hf]. split.
  - by destruct (lower_cp c).
  - rewrite forallb_forall in Hf.
    apply Forall_forall. intros d Hd%list_elem_of_In. by apply Hf.
Qed.

Lemma fixed_char_nonspace d : fixed_char d = true -> is_space d = false.
Proof.
  unfold fixed_char. rewrite !andb_true_iff, negb_true_iff. tauto.
Qed.

Lemma spaced_fixed_app p l s :
  l ≠ [] -> Forall (fun d => fixed_char d = true) l ->
  spaced fixed_char false s -> spaced fixed_char p (l ++ s).
Proof.
  intros Hne Hl Hs. revert p. induction Hl as [|d l Hd Hl IH]; intros p; [done|].
  simpl. rewrite (fixed_char_nonspace d Hd). split; [done|].
  destruct l; [done|]. by apply IH.
Qed.

Lemma spaced_lower p w :
  spaced token_char p w -> spaced fixed_char p (str_lower w).
Proof.
  revert p. induction w as [|c w IH]; intros p; simpl; [done|].
  destruct (is_space c) eqn:Hs.
  - intros (-> & -> & H). rewrite lower_space. simpl. auto.
  - intros [Hc H]. apply token_char_lower in Hc as [Hne Hf].
    apply spaced_fixed_app; [done..|]. eapply spaced_weaken. eauto.
Qed.

Lemma lower_nonempty p w :
  spaced token_char p w -> w ≠ [] -> str_lower w ≠ [].
Proof.
  destruct w as [|c w]; [done|]. simpl. intros H _.
  destruct (is_space c) eqn:Hs.
  - destruct H as (-> & _). by rewrite lower_space.
  - destruct H as [Hc _]. apply token_char_lower in Hc as [Hne _].
    by destruct (lower_cp c).
Qed.

Lemma lower_lstrip p w :
  spaced token_char p w -> lstrip w = w -> lstrip (str_lower w) = str_lower w.
Proof.
  intros H Hl. apply lstrip_fixpoint.
  destruct w as [|c w]; [done|]. simpl in *.
  destruct (is_space c) eqn:Hs.
  - exfalso. pose proof (lstrip_head w) as Hh. rewrite Hl in Hh. congruence.
  - destruct H as [Hc _]. apply token_char_lower in Hc as [Hne Hf].
    destruct Hf as [|d l Hd _]; [done|]. simpl. by apply fixed_char_nonspace.
Qed.

Lemma lower_rstrip p w :
  spaced token_char p w -> rstrip w = w -> rstrip (str_lower w) = str_lower w.
Proof.
  revert p. induction w as [|c w IH]; intros p H Hr; [done|].
  rewrite rstrip_cons in Hr. simpl in H |- *.
  destruct (rstrip w) as [|d r] eqn:Hw; simpl in Hr.
  - destruct (is_space c) eqn:Hs; [done|]. injection Hr as <-.
    destruct H as [Hc _]. apply token_char_lower in Hc as [_ Hf].
    rewrite app_nil_r. apply rstrip_nonspace.
    eapply Forall_impl; [done|]. apply fixed_char_nonspace.
  - injection Hr as Hr. subst w.
    assert (Hrest : ∃ q, spaced token_char q (d :: r)).
    { destruct (is_space c); [exists true|exists false]; tauto. }
    destruct Hrest as [q Hq].
    rewrite rstrip_app; rewrite (IH q Hq eq_refl); [done|].
    by apply (lower_nonempty q).
Qed.

Lemma spaced_sub_id G p z :
  (∀ d, G d = true -> is_word d = true) ->
  spaced G p z -> sub_nonword z = z.
Proof.
  intros HG. revert p. induction z as [|c z IH]; intros p; simpl; [done|].
  destruct (is_space c) eqn:Hs.
  - intros (_ & _ & H). rewrite orb_true_r. f_equal. eauto.
  - intros [Hc H]. rewrite (HG c Hc). simpl. f_equal. eauto.
Qed.

Lemma spaced_collapse_id G p z : spaced G p z -> collapse_ws p z = z.
Proof.
  revert p. induction z as [|c z IH]; intros p; simpl; [done|].
  destruct (is_space c) eqn:Hs.
  - intros (-> & -> & H). f_equal. eauto.
  - intros [_ H]. f_equal. eauto.
Qed.

Lemma spaced_lower_id p z : spaced fixed_char p z -> str_lower z = z.
Proof.
  revert p. induction z as [|c z IH]; intros p; simpl; [done|].
  destruct (is_space c) eqn:Hs.
  - intros (-> & _ & H). rewrite lower_space. simpl. f_equal. eauto.
  - intros [Hc H]. unfold fixed_char in Hc.
    rewrite !andb_true_iff, bool_decide_eq_true in Hc. destruct Hc as [_ ->].
    simpl. f_equal. eauto.
Qed.

Lemma fixed_char_word d : fixed_char d = true -> is_word d = true.
Proof. unfold fixed_char. rewrite !andb_true_iff. tauto. Qed.

(** The normal form is a fixed point of the normalizer as soon as
    lower-casing has not brought in anything the first pass would have
    removed. *)
Lemma normalize_stable_fixpoint x :
  forallb lower_stable x = true ->
  _normalize_header (Some (_normalize_header (Some x))) = _normalize_header (Some x).
Proof.
  intros Hx. simpl.
  set (y := collapse_ws false (sub_nonword x)).
  assert (Hy : spaced token_char false y) by by apply spaced_collapse_sub.
  set (w := strip y).
  assert (Hw : spaced token_char false w).
  { apply spaced_rstrip. eapply spaced_lstrip. done. }
  assert (Hwl : lstrip w = w).
  { apply lstrip_fixpoint, rstrip_lstrip_head. }
  assert (Hwr : rstrip w = w) by apply rstrip_idem.
  set (z := str_lower w).
  assert (Hz : spaced fixed_char false z) by by apply spaced_lower.
  rewrite (spaced_sub_id fixed_char false z fixed_char_word Hz).
  rewrite (spaced_collapse_id _ _ _ Hz).
  unfold strip. subst z.
  rewrite (lower_lstrip false w Hw Hwl), (lower_rstrip false w Hw Hwr).
  by apply (spaced_lower_id false).
Qed.

(** Every ASCII character is stable. *)
Lemma ascii_lower_stable c : (c < 128)%N -> lower_stable c = true.
Proof.
  intros Hc. unfold lower_stable, fixed_char, is_word, lower_cp.
  assert (Hlt : (c <? 128)%N = true) by by apply N.ltb_lt.
  rewrite Hlt.
  destruct (ascii_upper c) eqn:Hu.
  - unfold ascii_upper in Hu. apply andb_true_iff in Hu as [H1 H2].
    apply N.leb_le in H1, H2.
    assert (H3 : (c + 32 <? 128)%N = true) by (apply N.ltb_lt; lia).
    assert (H4 : ascii_lower (c + 32) = true).
    { unfold ascii_lower. apply andb_true_iff. split; apply N.leb_le; lia. }
    assert (H5 : ascii_upper (c + 32) = false).
    { unfold ascii_upper. apply andb_false_iff. right. apply N.leb_gt. lia. }
    assert (H6 : is_space (c + 32) = false).
    { apply not_true_is_false. rewrite is_space_spec. lia. }
    simpl. rewrite H3, H4, H5, H6. simpl.
    rewrite bool_decide_eq_true_2 by done. simpl. by rewrite orb_true_r.
  - simpl. rewrite Hlt, Hu. rewrite bool_decide_eq_true_2 by done.
    destruct (ascii_lower c || ascii_digit c || (c =? 95)%N) eqn:Hw; [|done].
    simpl in Hw |- *. rewrite Hw. by destruct (is_space c).
Qed.

End Normalizer.

(** ** Normalizer (C9) *)

Section NormalizerClaims.
Context {RT : PyRuntime}.

Lemma ascii_forall_stable x :
  Forall (fun c => (c < 128)%N) x -> forallb lower_stable x = true.
Proof.
  induction 1 as [|c x Hc _ IH]; simpl; [done|].
  by rewrite ascii_lower_stable.
Qed.

(** On ASCII text the normalizer is idempotent whatever the runtime's
    tables say elsewhere. *)
Lemma normalize_idempotent_ascii x :
  Forall (fun c => (c < 128)%N) x ->
  _normalize_header (Some (_normalize_header (Some x))) = _normalize_header (Some x).
Proof. intros Hx. by apply normalize_stable_fixpoint, ascii_forall_stable. Qed.

(** *** What the normalizer does not see *)

Lemma ascii_upper_range c : ascii_upper c = true ↔ (65 ≤ c ≤ 90)%N.
Proof. unfold ascii_upper. rewrite andb_true_iff, !N.leb_le. tauto. Qed.

Lemma ascii_fold_space c : is_space (ascii_fold c) = is_space c.
Proof.
  unfold ascii_fold. destruct (ascii_upper c) eqn:Hu; [|done].
  apply ascii_upper_range in Hu.
  transitivity false; [|symmetry]; apply not_true_is_false;
    rewrite is_space_spec; lia.
Qed.

Lemma ascii_fold_word c : is_word (ascii_fold c) = is_word c.
Proof.
  unfold ascii_fold. destruct (ascii_upper c) eqn:Hu; [|done].
  pose proof Hu as Hr. apply ascii_upper_range in Hr. unfold is_word.
  replace (c + 32 <? 128)%N with true by (symmetry; apply N.ltb_lt; lia).
  replace (c <? 128)%N with true by (symmetry; apply N.ltb_lt; lia).
  rewrite Hu. simpl.
  replace (ascii_lower (c + 32)) with true; [by rewrite orb_true_r|].
  symmetry. unfold ascii_lower. apply andb_true_iff. split; apply N.leb_le; lia.
Qed.

Lemma ascii_fold_lower c : lower_cp (ascii_fold c) = lower_cp c.
Proof.
  unfold ascii_fold. destruct (ascii_upper c) eqn:Hu; [|done].
  pose proof Hu as Hr. apply ascii_upper_range in Hr. unfold lower_cp.
  replace (c + 32 <? 128)%N with true by (symmetry; apply N.ltb_lt; lia).
  replace (c <? 128)%N with true by (symmetry; apply N.ltb_lt; lia).
  rewrite Hu.
  replace (ascii_upper (c + 32)) with false; [done|].
  symmetry. unfold ascii_upper. apply andb_false_iff. right. apply N.leb_gt. lia.
Qed.

Lemma sub_nonword_fold x : sub_nonword (map ascii_fold x) = map ascii_fold (sub_nonword x).
Proof.
  unfold sub_nonword. rewrite !map_map. apply map_ext. intros c.
  rewrite ascii_fold_word, ascii_fold_space. by destruct (is_word c || is_space c).
Qed.

Lemma collapse_ws_fold p y : collapse_ws p (map ascii_fold y) = map ascii_fold (collapse_ws p y).
Proof.
  revert p. induction y as [|c y IH]; intros p; simpl; [done|].
  rewrite ascii_fold_space. destruct (is_space c); [destruct p|]; simpl; by rewrite IH.
Qed.

Lemma lstrip_fold y : lstrip (map ascii_fold y) = map ascii_fold (lstrip y).
Proof.
  induction y as [|c y IH]; simpl; [done|].
  rewrite ascii_fold_space. by destruct (is_space c).
Qed.

Lemma rstrip_fold y : rstrip (map ascii_fold y) = map ascii_fold (rstrip y).
Proof.
  induction y as [|c y IH]; [done|].
  rewrite map_cons, !rstrip_cons, IH, ascii_fold_space.
  destruct (rstrip y); simpl; [|done]. by destruct (is_space c).
Qed.

Lemma str_lower_fold y : str_lower (map ascii_fold y) = str_lower y.
Proof.
  unfold str_lower. induction y as [|c y IH]; simpl; [done|].
  by rewrite ascii_fold_lower, IH.
Qed.

(** The case of ASCII letters is not seen. *)
Lemma normalize_ignores_ascii_case x :
  _normalize_header (Some (map ascii_fold x)) = _normalize_header (Some x).
Proof.
  simpl. unfold strip.
  by rewrite sub_nonword_fold, collapse_ws_fold, lstrip_fold, rstrip_fold, str_lower_fold.
Qed.

(** *** Case, character by character *)

Lemma same_letter_refl c : same_letter c c.
Proof. by repeat split. Qed.

Lemma sub_nonword_same x y :
  Forall2 same_letter x y -> Forall2 same_letter (sub_nonword x) (sub_nonword y).
Proof.
  induction 1 as [|c d x y Hcd _ IH]; [constructor|].
  unfold sub_nonword. cbn [map]. pose proof Hcd as (Hl & Hw & Hs). rewrite Hw, Hs.
  destruct (is_word d || is_space d); constructor;
    first [exact IH|exact Hcd|apply same_letter_refl].
Qed.

Lemma collapse_ws_same p x y :
  Forall2 same_letter x y -> Forall2 same_letter (collapse_ws p x) (collapse_ws p y).
Proof.
  intros H. revert p. induction H as [|c d x y Hcd _ IH]; intros p; [constructor|].
  cbn [collapse_ws]. pose proof Hcd as (Hl & Hw & Hs). rewrite Hs.
  destruct (is_space d); [destruct p|]; try apply IH;
    constructor; first [apply IH|exact Hcd|apply same_letter_refl].
Qed.

Lemma lstrip_same x y :
  Forall2 same_letter x y -> Forall2 same_letter (lstrip x) (lstrip y).
Proof.
  induction 1 as [|c d x y Hcd Hxy IH]; [constructor|].
  cbn [lstrip]. pose proof Hcd as (Hl & Hw & Hs). rewrite Hs.
  destruct (is_space d); [done|by constructor].
Qed.

Lemma rstrip_same x y :
  Forall2 same_letter x y -> Forall2 same_letter (rstrip x) (rstrip y).
Proof.
  induction 1 as [|c d x y Hcd Hxy IH]; [constructor|].
  rewrite !rstrip_cons. pose proof Hcd as (Hl & Hw & Hs). rewrite Hs.
  destruct IH as [|c' d' x' y' Hcd' Hxy'].
  - destruct (is_space d); [constructor|]. constructor; [exact Hcd|constructor].
  - constructor; [exact Hcd|]. by constructor.
Qed.

Lemma str_lower_same x y : Forall2 same_letter x y -> str_lower x = str_lower y.
Proof.
  induction 1 as [|c d x y (Hl & _) _ IH]; [done|].
  unfold str_lower in *. cbn [flat_map]. by rewrite Hl, IH.
Qed.

(** Two texts that are, character by character, the same but for the
    case of letters have the same normal form. *)
Lemma normalize_ignores_case x y :
  Forall2 same_letter x y -> _normalize_header (Some x) = _normalize_header (Some y).
Proof.
  intros H. cbn [_normalize_header]. unfold strip.
  by apply str_lower_same, rstrip_same, lstrip_same, collapse_ws_same, sub_nonword_same.
Qed.

Lemma collapse_ws_space_run p a s b :
  is_space s = true ->
  collapse_ws p (a ++ s :: b) = collapse_ws p (a ++ s :: SPACE :: b).
Proof.
  intros Hs. revert p. induction a as [|c a IH]; intros p; simpl.
  - by rewrite ?is_space_SPACE, Hs.
  - destruct (is_space c); [destruct p|]; by rewrite IH.
Qed.

Lemma collapse_ws_any_space p a s b :
  is_space s = true ->
  collapse_ws p (a ++ s :: b) = collapse_ws p (a ++ SPACE :: b).
Proof.
  intros Hs. revert p. induction a as [|c a IH]; intros p; simpl.
  - by rewrite ?is_space_SPACE, Hs.
  - destruct (is_space c); [destruct p|]; by rewrite IH.
Qed.

Lemma sub_nonword_app a b : sub_nonword (a ++ b) = sub_nonword a ++ sub_nonword b.
Proof. apply map_app. Qed.

(** A character that is neither a word character nor white space counts
    as a space. *)
Lemma normalize_punctuation_is_space a c b :
  is_word c = false ->
  _normalize_header (Some (a ++ c :: b)) = _normalize_header (Some (a ++ SPACE :: b)).
Proof.
  intros Hw. simpl. do 2 f_equal.
  rewrite !sub_nonword_app. cbn [sub_nonword map].
  rewrite Hw, is_space_SPACE, orb_true_r, orb_false_l.
  destruct (is_space c) eqn:Hs; [|done].
  by apply collapse_ws_any_space.
Qed.

(** The amount of white space between two words is not seen. *)
Lemma normalize_ignores_space_runs a s b :
  is_space s = true ->
  _normalize_header (Some (a ++ s :: SPACE :: b)) = _normalize_header (Some (a ++ s :: b)).
Proof.
  intros Hs. simpl. do 2 f_equal.
  rewrite !sub_nonword_app. cbn [sub_nonword map].
  rewrite Hs, is_space_SPACE, !orb_true_r.
  symmetry. by apply collapse_ws_space_run.
Qed.

(** C9, as amended: for every input string [x] whose word characters
    lower-case to lower-case word characters (every ASCII string is one),
    normalize(normalize(x)) = normalize(x); [None] and the empty string
    normalize to the empty string; the normalizer does not see the case
    of ASCII letters, nor, in a text without the capital sigma U+03A3
    (which [lower()] treats by its neighbours), the case of any letter
    that stands for one character with the same lower-case form and is a
    word character like it; it takes a punctuation mark for a space (not
    for nothing) and does not see the amount of white space, so that
    "S. No", "s no" and "S  NO" have the same normal form. *)
Theorem normalize_idempotent_on_stable_text (x : pystr) :
  forallb lower_stable x = true ->
  _normalize_header (Some (_normalize_header (Some x))) = _normalize_header (Some x)
  ∧ _normalize_header None = []
  ∧ _normalize_header (Some []) = []
  ∧ (∀ y, _normalize_header (Some (map ascii_fold y)) = _normalize_header (Some y))
  ∧ (∀ y z, Forall2 same_letter y z -> 931%N ∉ y -> 931%N ∉ z ->
       _normalize_header (Some y) = _normalize_header (Some z))
  ∧ (∀ a c b, is_word c = false ->
       _normalize_header (Some (a ++ c :: b)) = _normalize_header (Some (a ++ SPACE :: b)))
  ∧ (∀ a s b, is_space s = true ->
       _normalize_header (Some (a ++ s :: SPACE :: b)) = _normalize_header (Some (a ++ s :: b)))
  ∧ _normalize_header (Some (py "S. No")) = _normalize_header (Some (py "s no"))
  ∧ _normalize_header (Some (py "s no")) = _normalize_header (Some (py "S  NO")).
Proof.
  intros Hx. split; [by apply normalize_stable_fixpoint|].
  split; [reflexivity|]. split; [reflexivity|].
  split; [apply normalize_ignores_ascii_case|].
  split; [intros y z Hyz _ _; by apply normalize_ignores_case|].
  split; [apply normalize_punctuation_is_space|].
  split; [apply normalize_ignores_space_runs|].
  split; reflexivity.
Qed.

End NormalizerClaims.

Lemma normalize_idempotent_on_stable_text_witness :
  forallb (lower_stable (RT := cpython_fragment)) (py "S. No") = true
  ∧ _normalize_header (RT := cpython_fragment)
      (Some (_normalize_header (RT := cpython_fragment) (Some (py "S. No"))))
    = py "s no".
Proof.
  split; [reflexivity|].
  destruct (normalize_idempotent_on_stable_text (RT := cpython_fragment)
              (py "S. No") eq_refl) as [-> _].
  reflexivity.
Defined.

(** Every code point of the Latin-1 range is stable under the tables above. *)
Lemma latin1_lower_stable c :
  (c < 256)%N -> lower_stable (RT := cpython_fragment) c = true.
Proof.
  intros Hc.
  assert (Hall : forallb (lower_stable (RT := cpython_fragment))
                   (map N.of_nat (seq 0 256)) = true) by (vm_compute; reflexivity).
  rewrite forallb_forall in Hall. apply Hall.
  apply in_map_iff. exists (N.to_nat c). split; [lia|].
  apply in_seq. lia.
Qed.

(** The case of the letters of Latin-1 is not seen, for one. *)
Lemma normalize_ignores_latin1_case_example :
  Forall2 (same_letter (RT := cpython_fragment))
    [201%N; 116%N; 233%N] [233%N; 84%N; 201%N]
  ∧ _normalize_header (RT := cpython_fragment) (Some [201%N; 116%N; 233%N])
    = _normalize_header (RT := cpython_fragment) (Some [233%N; 84%N; 201%N]).
Proof. split; [repeat constructor|reflexivity]. Qed.

(** Every capital of Latin-1 (U+00C0 to U+00DE, the sign U+00D7 apart)
    and its small letter are the same letter. *)
Lemma latin1_case_pairs c :
  (192 ≤ c ≤ 222)%N -> c ≠ 215%N -> same_letter (RT := cpython_fragment) c (c + 32).
Proof.
  intros Hc Hne.
  assert (Hall : forallb
            (fun c => bool_decide (c = 215%N)
                      || bool_decide (lower_cp (RT := cpython_fragment) c
                                      = lower_cp (RT := cpython_fragment) (c + 32))
                         && Bool.eqb (is_word (RT := cpython_fragment) c)
                                     (is_word (RT := cpython_fragment) (c + 32))
                         && Bool.eqb (is_space c) (is_space (c + 32)))
            (map N.of_nat (seq 192 31)) = true) by (vm_compute; reflexivity).
  rewrite forallb_forall in Hall. specialize (Hall c).
  rewrite orb_true_iff, !andb_true_iff, !bool_decide_eq_true, !eqb_true_iff in Hall.
  destruct Hall as [?|[[? ?] ?]]; [|done|done].
  apply in_map_iff. exists (N.to_nat c). split; [lia|]. apply in_seq. lia.
Qed.

(** C9 as stated fails on U+0130: its lower-case form is "i" followed by
    the combining dot U+0307, which a second pass takes for punctuation.
    Normalizing twice is not normalizing once, and the text and its
    lower-case form, which differ only in case, have different normal
    forms. Nor are two texts identified of which one has a punctuation
    mark that the other has not: the mark counts as a space. *)
Lemma normalize_not_idempotent_dotted_I :
  _normalize_header (RT := cpython_fragment) (Some [304%N]) = [105%N; 775%N]
  ∧ _normalize_header (RT := cpython_fragment)
      (Some (_normalize_header (RT := cpython_fragment) (Some [304%N]))) = [105%N]
  ∧ _normalize_header (RT := cpython_fragment)
      (Some (_normalize_header (RT := cpython_fragment) (Some [304%N])))
    ≠ _normalize_header (RT := cpython_fragment) (Some [304%N])
  ∧ str_lower (RT := cpython_fragment) [304%N] = [105%N; 775%N]
  ∧ _normalize_header (RT := cpython_fragment)
      (Some (str_lower (RT := cpython_fragment) [304%N]))
    ≠ _normalize_header (RT := cpython_fragment) (Some [304%N])
  ∧ _normalize_header (RT := cpython_fragment) (Some (py "a.b"))
    ≠ _normalize_header (RT := cpython_fragment) (Some (py "ab")).
Proof.
  split; [reflexivity|]. split; [reflexivity|].
  split; [vm_compute; discriminate|]. split; [reflexivity|].
  split; vm_compute; discriminate.
Qed.

(** ** Cell differ (C1) *)

Section CellDiffer.
Context {RT : PyRuntime}.

Lemma normalize_key_str s : _normalize_key (VStr s) = strip s.
Proof. reflexivity. Qed.

(** The fills that reach the output cells are the verdict's, over the
    banding of the row. *)
Lemma diff_cells_fills sheet1 sheet2 i r1 r2 hc :
  let val1 := fetch sheet1 r1 (hc_col1 hc) in
  let val2 := fetch sheet2 r2 (hc_col2 hc) in
  let band := if i mod 2 =? 1 then AltFill else NoFill in
  diff_cells sheet1 sheet2 i r1 r2 hc =
    ({| out_value := val1; out_fill := default band (cell_verdict val1 val2).1 |},
     {| out_value := val2; out_fill := default band (cell_verdict val1 val2).2 |}).
Proof. simpl. unfold diff_cells. by destruct (cell_verdict _ _). Qed.

Lemma bind_inv_ok {A B} (m : run A) (k : A -> run B) tr b tr' :
  (m ≫= k) tr = (Ok b, tr') -> ∃ a tr1, m tr = (Ok a, tr1) ∧ k a tr1 = (Ok b, tr').
Proof.
  unfold mbind, run_bind. destruct (m tr) as [[a|e] tr1]; [eauto|discriminate].
Qed.

(** A completed pass over the aligned rows has written, on every row, the
    cells [diff_cells] computes. *)
Lemma write_rows_ok cb sheet1 sheet2 header_map total l tr rows tr' :
  for_each (write_row cb sheet1 sheet2 header_map total) l tr = (Ok rows, tr') ->
  rows = map (fun ir : Z * aligned_row =>
                (ir.2.2, map (diff_cells sheet1 sheet2 ir.1 ir.2.1.1 ir.2.1.2) header_map))
             l.
Proof.
  revert tr rows tr'. induction l as [|[i [[r1 r2] label]] l IH]; intros tr rows tr' Hrun.
  - by injection Hrun as <- _.
  - cbn [for_each] in Hrun.
    apply bind_inv_ok in Hrun as (row & tr1 & Hrow & Hrun).
    apply bind_inv_ok in Hrun as (rest & tr2 & Hrest & Hrun).
    injection Hrun as <- _. apply IH in Hrest as ->.
    unfold write_row in Hrow.
    apply bind_inv_ok in Hrow as (u & tr3 & _ & Hrow).
    by injection Hrow as <- _.
Qed.

(** In a completed comparison every pair of output cells carries the
    verdict of its two values, over the banding of its row. *)
Lemma output_cells_carry_verdict file_list opts tr wb m tr' :
  compare_excel_files file_list opts tr = (Ok (wb, m), tr') ->
  ∀ row c1 c2, row ∈ wb_rows wb -> (c1, c2) ∈ row.2 ->
    ∃ band, (band = NoFill ∨ band = AltFill)
      ∧ out_fill c1 = default band (cell_verdict (out_value c1) (out_value c2)).1
      ∧ out_fill c2 = default band (cell_verdict (out_value c1) (out_value c2)).2.
Proof.
  unfold compare_excel_files.
  destruct file_list as [|sheet1 [|sheet2 rest]]; [discriminate..|].
  intros Hrun.
  repeat match type of Hrun with
         | (_ ≫= _) _ = _ =>
             let x := fresh "x" in let t := fresh "t" in let H := fresh "H" in
             apply bind_inv_ok in Hrun as (x & t & H & Hrun)
         | (let '(_, _) := ?p in _) _ = _ => destruct p
         | (if ?b then _ else _) _ = _ => destruct b; [discriminate|]
         end.
  injection Hrun as <- _. cbn [wb_rows].
  match goal with H : for_each _ _ _ = _ |- _ => apply write_rows_ok in H as -> end.
  intros row c1 c2 Hrow Hc.
  apply list_elem_of_fmap in Hrow as ([i [[r1 r2] label]] & -> & _).
  cbn [fst snd] in Hc. apply list_elem_of_fmap in Hc as (hc & Hc & _).
  rewrite diff_cells_fills in Hc. injection Hc as -> ->. cbn [out_value out_fill].
  exists (if i mod 2 =? 1 then AltFill else NoFill).
  split; [destruct (i mod 2 =? 1); auto|done].
Qed.

(** C1, as amended: both sides empty or absent gives no highlight;
    otherwise the pair is a Match on both sides when the two values have
    the same text once [str()] is applied and leading and trailing white
    space is stripped ([_normalize_key], not the Normalizer); otherwise
    each non-empty side is marked, Removed on the left and Added on the
    right. Case, punctuation and inner white space do count: "ABC"
    against "abc" is Removed / Added. In a completed comparison every
    pair of output cells carries this verdict of its two values. *)
Theorem cell_verdict_by_stripped_text (val1 val2 : value) :
  (is_empty val1 = true -> is_empty val2 = true ->
     cell_verdict val1 val2 = (None, None))
  ∧ (is_empty val1 && is_empty val2 = false ->
     _normalize_key val1 = _normalize_key val2 ->
     cell_verdict val1 val2 = (Some MatchFill, Some MatchFill))
  ∧ (is_empty val1 && is_empty val2 = false ->
     _normalize_key val1 ≠ _normalize_key val2 ->
     cell_verdict val1 val2 =
       (if is_empty val1 then None else Some DelFill,
        if is_empty val2 then None else Some AddFill))
  ∧ cell_verdict (VStr (py "ABC")) (VStr (py "abc")) = (Some DelFill, Some AddFill)
  ∧ (∀ file_list opts tr wb m tr',
       compare_excel_files file_list opts tr = (Ok (wb, m), tr') ->
       ∀ row c1 c2, row ∈ wb_rows wb -> (c1, c2) ∈ row.2 ->
         ∃ band, (band = NoFill ∨ band = AltFill)
           ∧ out_fill c1 = default band (cell_verdict (out_value c1) (out_value c2)).1
           ∧ out_fill c2 = default band (cell_verdict (out_value c1) (out_value c2)).2).
Proof.
  split; [|split; [|split; [|split]]].
  - unfold cell_verdict. by intros -> ->.
  - unfold cell_verdict, _safe_eq. intros -> Heq. by rewrite bool_decide_eq_true_2.
  - unfold cell_verdict, _safe_eq. intros -> Hne.
    rewrite bool_decide_eq_false_2 by done.
    by destruct (is_empty val1), (is_empty val2).
  - reflexivity.
  - apply output_cells_carry_verdict.
Qed.

End CellDiffer.

Lemma cell_verdict_by_stripped_text_witness :
  is_empty (VStr (py " 7 ")) && is_empty (VInt 7) = false
  ∧ _normalize_key (VStr (py " 7 ")) = _normalize_key (VInt 7)
  ∧ cell_verdict (VStr (py " 7 ")) (VInt 7) = (Some MatchFill, Some MatchFill).
Proof.
  split; [reflexivity|]. split; [reflexivity|].
  destruct (cell_verdict_by_stripped_text (RT := cpython_fragment)
              (VStr (py " 7 ")) (VInt 7)) as (_ & H & _).
  apply H; reflexivity.
Defined.

(** C1 as stated fails: the Normalizer identifies "ABC" and "abc", the
    cell differ marks them as a difference. *)
Lemma cell_differ_is_case_sensitive :
  _normalize_header (RT := cpython_fragment) (Some (py "ABC"))
  = _normalize_header (RT := cpython_fragment) (Some (py "abc"))
  ∧ cell_verdict (VStr (py "ABC")) (VStr (py "abc"))
    ≠ (Some MatchFill, Some MatchFill).
Proof. split; [reflexivity|]. vm_compute. discriminate. Qed.

(** ** Row key index (C2) *)

Section RowKeyIndex.
Context {RT : PyRuntime}.

Lemma build_row_dict_fold sh header_row key_col :
  build_row_dict sh header_row key_col =
  fold_left (index_step sh key_col) (range (header_row + 1) (max_row sh + 1)) ∅.
Proof.
  unfold build_row_dict. generalize (∅ : gmap pystr Z).
  induction (range _ _) as [|r l IH]; intros d; simpl; [done|].
  rewrite IH. f_equal. unfold index_step, key_at. by destruct (is_empty _).
Qed.

(** The index after the first [n] rows below [lo - 1]. *)
Lemma index_prefix_lookup sh key_col lo (n : nat) k r :
  fold_left (index_step sh key_col) (seqZ lo (Z.of_nat n)) ∅ !! k = Some r ↔
  lo ≤ r < lo + Z.of_nat n ∧ key_at sh key_col r = Some k
  ∧ ∀ r', r < r' < lo + Z.of_nat n -> key_at sh key_col r' ≠ Some k.
Proof.
  revert r. induction n as [|n IH]; intros r.
  - simpl. rewrite lookup_empty. split; [done|]. lia.
  - rewrite seqZ_S, fold_left_app. simpl.
    set (d := fold_left _ _ _) in *. unfold index_step at 1.
    destruct (key_at sh key_col (lo + Z.of_nat n)) as [k'|] eqn:Hk.
    + destruct (decide (k' = k)) as [->|Hne].
      * rewrite lookup_insert_eq. split.
        -- intros [= <-]. split; [lia|]. split; [done|]. lia.
        -- intros (Hr & Hkr & Hlast). f_equal.
           destruct (decide (r = lo + Z.of_nat n)) as [->|Hr']; [done|].
           exfalso. apply (Hlast (lo + Z.of_nat n)); [lia|done].
      * rewrite lookup_insert_ne by done. rewrite IH. split.
        -- intros (Hr & Hkr & Hlast). split; [lia|]. split; [done|].
           intros r' Hr'. destruct (decide (r' = lo + Z.of_nat n)) as [->|?].
           ++ rewrite Hk. congruence.
           ++ apply Hlast. lia.
        -- intros (Hr & Hkr & Hlast).
           assert (r ≠ lo + Z.of_nat n) by (intros ->; congruence).
           split; [lia|]. split; [done|]. intros r' Hr'. apply Hlast. lia.
    + rewrite IH. split.
      * intros (Hr & Hkr & Hlast). split; [lia|]. split; [done|].
        intros r' Hr'. destruct (decide (r' = lo + Z.of_nat n)) as [->|?].
        -- rewrite Hk. congruence.
        -- apply Hlast. lia.
      * intros (Hr & Hkr & Hlast).
        assert (r ≠ lo + Z.of_nat n) by (intros ->; congruence).
        split; [lia|]. split; [done|]. intros r' Hr'. apply Hlast. lia.
Qed.

(** What the index holds for a key: the LAST data row that carries it. *)
Lemma build_row_dict_lookup sh header_row key_col k r :
  build_row_dict sh header_row key_col !! k = Some r ↔
  header_row < r ≤ max_row sh ∧ key_at sh key_col r = Some k
  ∧ ∀ r', r < r' ≤ max_row sh -> key_at sh key_col r' ≠ Some k.
Proof.
  rewrite build_row_dict_fold. unfold range.
  destruct (decide (header_row < max_row sh)) as [Hlt|Hge].
  - replace (max_row sh + 1 - (header_row + 1))
      with (Z.of_nat (Z.to_nat (max_row sh - header_row))) by lia.
    rewrite index_prefix_lookup. split.
    + intros (Hr & Hk & Hl). split; [lia|]. split; [done|].
      intros r' Hr'. apply Hl. lia.
    + intros (Hr & Hk & Hl). split; [lia|]. split; [done|].
      intros r' Hr'. apply Hl. lia.
  - rewrite seqZ_nil by lia. simpl. rewrite lookup_empty. split; [done|]. lia.
Qed.

Lemma index_prefix_is_Some sh key_col lo (n : nat) k :
  is_Some (fold_left (index_step sh key_col) (seqZ lo (Z.of_nat n)) ∅ !! k) ↔
  ∃ r, lo ≤ r < lo + Z.of_nat n ∧ key_at sh key_col r = Some k.
Proof.
  induction n as [|n IH].
  - simpl. rewrite lookup_empty. split; [by intros [? ?]|]. intros (r & ? & _). lia.
  - rewrite seqZ_S, fold_left_app. simpl.
    set (d := fold_left _ _ _) in *. unfold index_step at 1.
    destruct (key_at sh key_col (lo + Z.of_nat n)) as [k'|] eqn:Hk.
    + destruct (decide (k' = k)) as [->|Hne].
      * rewrite lookup_insert_eq. split; [|by eauto].
        intros _. exists (lo + Z.of_nat n). split; [lia|done].
      * rewrite lookup_insert_ne by done. rewrite IH. split.
        -- intros (r & Hr & Hkr). exists r. split; [lia|done].
        -- intros (r & Hr & Hkr). exists r. split; [|done].
           assert (r ≠ lo + Z.of_nat n) by (intros ->; congruence). lia.
    + rewrite IH. split.
      * intros (r & Hr & Hkr). exists r. split; [lia|done].
      * intros (r & Hr & Hkr). exists r. split; [|done].
        assert (r ≠ lo + Z.of_nat n) by (intros ->; congruence). lia.
Qed.

(** The keys of the index are the normalized key values of the data rows. *)
Lemma build_row_dict_dom sh header_row key_col k :
  k ∈ dom (build_row_dict sh header_row key_col) ↔
  ∃ r, header_row < r ≤ max_row sh ∧ key_at sh key_col r = Some k.
Proof.
  rewrite elem_of_dom, build_row_dict_fold. unfold range.
  destruct (decide (header_row < max_row sh)) as [Hlt|Hge].
  - replace (max_row sh + 1 - (header_row + 1))
      with (Z.of_nat (Z.to_nat (max_row sh - header_row))) by lia.
    rewrite index_prefix_is_Some. split.
    + intros (r & Hr & Hk). exists r. split; [lia|done].
    + intros (r & Hr & Hk). exists r. split; [lia|done].
  - rewrite seqZ_nil by lia. simpl. rewrite lookup_empty.
    split; [by intros [? ?]|]. intros (r & ? & _). lia.
Qed.

End RowKeyIndex.

(** C2 fails on the code: with the key "a" on rows 2 and 3 below the
    header row 1, the index maps "a" to row 3, the later of the two. *)
Lemma build_row_dict_keeps_last_row :
  build_row_dict (RT := cpython_fragment)
    (sheet_of_rows [[VStr (py "id")]; [VStr (py "a")]; [VStr (py "a")]]) 1 1
  !! py "a" = Some 3.
Proof. vm_compute. reflexivity. Qed.

(** ** Column sampling (C3) *)

Section Sampling.
Context {RT : PyRuntime}.

Lemma sample_loop_take sh col max_samples rows vals :
  (length vals < Z.to_nat max_samples)%nat ->
  sample_loop sh col max_samples rows vals =
  take (Z.to_nat max_samples) (vals ++ column_texts sh col rows).
Proof.
  revert vals. induction rows as [|r rows IH]; intros vals Hlen; simpl.
  - unfold column_texts. simpl. rewrite app_nil_r. by rewrite take_ge by lia.
  - unfold column_texts in *. simpl.
    destruct (is_empty (cell sh r col)) eqn:He; simpl; [by apply IH|].
    rewrite length_app. simpl.
    destruct (Z.leb_spec max_samples (Z.of_nat (length vals + 1))) as [Hfull|Hmore].
    + match goal with
      | |- _ = take _ (vals ++ ?x :: ?rest) =>
          replace (vals ++ x :: rest) with ((vals ++ [x]) ++ rest)
            by (by rewrite <- app_assoc)
      end.
      rewrite take_app_le by (rewrite length_app; simpl; lia).
      rewrite take_ge by (rewrite length_app; simpl; lia). done.
    + rewrite IH by (rewrite length_app; simpl; lia).
      by rewrite <- app_assoc.
Qed.

(** The loop with its early exit is a [take]. *)
Lemma sample_values_take (sh : sheet) (header_row col sample_size : Z) :
  _sample_column_values sh header_row col sample_size =
  take (Z.to_nat sample_size)
       (column_texts sh col
          (range (header_row + 1)
                 (Z.min (max_row sh + 1) (header_row + 1 + sample_size * 5)))).
Proof.
  unfold _sample_column_values.
  destruct (decide (0 < sample_size)) as [Hpos|Hneg].
  - rewrite sample_loop_take by (simpl; lia). done.
  - unfold range. rewrite seqZ_nil by lia. simpl.
    replace (Z.to_nat sample_size) with 0%nat by lia. done.
Qed.

(** C3, as amended: the sample of a column is made of the first
    [sample_size] non-empty values found on the rows below the header,
    no further down than [sample_size * 5] rows and the end of the sheet,
    each rendered by [_normalize_key]: its text with leading and trailing
    white space stripped, with case, punctuation and inner white space
    left as they are. *)
Theorem sample_is_stripped_text (sh : sheet) (header_row col sample_size : Z) :
  _sample_column_values sh header_row col sample_size =
  take (Z.to_nat sample_size)
       (column_texts sh col
          (range (header_row + 1)
                 (Z.min (max_row sh + 1) (header_row + 1 + sample_size * 5)))).
Proof. apply sample_values_take. Qed.

Lemma sample_length sh header_row col sample_size :
  Z.of_nat (length (_sample_column_values sh header_row col sample_size))
  ≤ Z.max 0 sample_size.
Proof. rewrite sample_values_take, length_take. lia. Qed.

End Sampling.

(** C3 as stated fails: the value "A.B" is sampled as it is, where the
    Normalizer would give "a b". *)
Lemma sample_keeps_case_and_punctuation :
  _sample_column_values
    (sheet_of_rows [[VStr (py "Code")]; [VStr (py "A.B")]]) 1 1 40 = [py "A.B"]
  ∧ _normalize_header (RT := cpython_fragment) (Some (py "A.B")) = py "a b"
  ∧ _sample_column_values
      (sheet_of_rows [[VStr (py "Code")]; [VStr (py "A.B")]]) 1 1 40
    ≠ [_normalize_header (RT := cpython_fragment) (Some (py "A.B"))].
Proof. repeat split; try reflexivity. vm_compute. discriminate. Qed.

(** ** Facts about Python's sort *)

Section SortFacts.
Context {A : Type} (lt : A -> A -> bool).

Lemma insert_sorted_perm x l : insert_sorted lt x l ≡ₚ x :: l.
Proof.
  induction l as [|y l IH]; simpl; [done|].
  destruct (lt y x); [|done]. rewrite IH. apply Permutation_swap.
Qed.

Lemma py_sorted_perm l : py_sorted lt l ≡ₚ l.
Proof.
  induction l as [|x l IH]; simpl; [done|].
  rewrite insert_sorted_perm. by constructor.
Qed.

Lemma py_sorted_elem_of x l : x ∈ py_sorted lt l ↔ x ∈ l.
Proof. by rewrite py_sorted_perm. Qed.

Hypothesis lt_asym : ∀ x y, lt x y = true -> lt y x = false.
Hypothesis lt_negtrans : ∀ x y z, lt x y = false -> lt y z = false -> lt x z = false.

Lemma insert_sorted_Sorted x l :
  Sorted (not_after lt) l -> Sorted (not_after lt) (insert_sorted lt x l).
Proof.
  induction 1 as [|y l Hl IH Hhd]; simpl; [by repeat constructor|].
  destruct (lt y x) eqn:Hyx.
  - constructor; [done|].
    destruct Hhd as [|z l Hyz]; simpl.
    + constructor. by apply lt_asym.
    + destruct (lt z x); constructor; [done|]. by apply lt_asym.
  - constructor; [by constructor|]. by constructor.
Qed.

Lemma py_sorted_Sorted l : Sorted (not_after lt) (py_sorted lt l).
Proof.
  induction l as [|x l IH]; simpl; [constructor|]. by apply insert_sorted_Sorted.
Qed.

Lemma not_after_trans a b c :
  not_after lt a b -> not_after lt b c -> not_after lt a c.
Proof. unfold not_after. intros Hab Hbc. by apply (lt_negtrans c b a). Qed.

Lemma py_sorted_StronglySorted l : StronglySorted (not_after lt) (py_sorted lt l).
Proof.
  apply Sorted_StronglySorted; [|apply py_sorted_Sorted].
  intros a b c. apply not_after_trans.
Qed.

(** The first element of the sorted list is below every element. *)
Lemma py_sorted_hd_min d l y :
  y ∈ l -> lt y (hd d (py_sorted lt l)) = false.
Proof.
  intros Hy. apply py_sorted_elem_of in Hy.
  pose proof (py_sorted_StronglySorted l) as Hs.
  destruct (py_sorted lt l) as [|h t]; [by apply elem_of_nil in Hy|].
  simpl. apply StronglySorted_inv in Hs as [_ Hall].
  apply elem_of_cons in Hy as [->|Hy].
  - destruct (lt h h) eqn:E; [|done]. by rewrite (lt_asym h h E) in E.
  - rewrite Forall_forall in Hall. by apply Hall.
Qed.

Lemma py_sorted_hd_elem_of d l : l ≠ [] -> hd d (py_sorted lt l) ∈ l.
Proof.
  intros Hl. apply py_sorted_elem_of.
  pose proof (py_sorted_perm l) as Hp.
  destruct (py_sorted lt l) as [|h t]; simpl.
  - apply Permutation_nil_l in Hp. congruence.
  - by left.
Qed.

End SortFacts.

(** ** Sorting by a comparison that is an order on the list only *)

Section SortOn.
Context {A : Type}.

Lemma Sorted_StronglySorted_on (R : relation A) (l : list A) :
  (∀ a b c, a ∈ l -> b ∈ l -> c ∈ l -> R a b -> R b c -> R a c) ->
  Sorted R l -> StronglySorted R l.
Proof.
  induction l as [|x l IH]; intros Htrans Hs; [constructor|].
  apply Sorted_inv in Hs as [Hs Hhd]. constructor.
  - apply IH; [|done]. intros a b c Ha Hb Hc. apply Htrans; by right.
  - assert (Hl : StronglySorted R l).
    { apply IH; [|done]. intros a b c Ha Hb Hc. apply Htrans; by right. }
    destruct Hhd as [|z l Hxz]; [constructor|].
    apply StronglySorted_cons in Hl as [Hz _]. constructor; [done|].
    rewrite Forall_forall in Hz |- *. intros y Hy.
    apply (Htrans x z y); [by left|right; by left|right; by right|done|by apply Hz].
Qed.

Lemma StronglySorted_reverse (R : relation A) (l : list A) :
  StronglySorted R l -> StronglySorted (flip R) (reverse l).
Proof.
  induction 1 as [|x l Hl IH Hx]; [constructor|].
  rewrite reverse_cons. apply StronglySorted_app_2; [|done|repeat constructor].
  intros y z Hy ->%list_elem_of_singleton. rewrite Forall_forall in Hx.
  apply Hx. by apply elem_of_reverse.
Qed.

Lemma py_sorted_Sorted_asym (lt : A -> A -> bool) (l : list A) :
  (∀ x y, lt x y = true -> lt y x = false) -> Sorted (not_after lt) (py_sorted lt l).
Proof. intros Hasym. by apply py_sorted_Sorted. Qed.

End SortOn.

(** ** The order of floats *)

Ltac rank_yes :=
  split; [intros _; eexists _, _; split; [reflexivity|split; [reflexivity|cbn; lia]]|done].
Ltac rank_no :=
  split; [discriminate
         |let a := fresh in let b := fresh in let Ha := fresh in
          let Hb := fresh in let H := fresh in
          intros (a & b & Ha & Hb & H); simplify_eq; cbn in H; lia].
Ltac rank_cases e e' m m' :=
  destruct (Z.compare_spec e e') as [->| |];
    [rewrite Pos.compare_cont_spec; cbn [Pos.switch_Eq];
     destruct (Pos.compare_spec m m') as [->| |]; cbn [CompOpp]|..];
    first [rank_yes|rank_no].

Section FloatOrder.

Lemma SFltb_rank x y :
  SFltb x y = true ↔ ∃ a b, sf_rank x = Some a ∧ sf_rank y = Some b ∧ rank_lt a b.
Proof.
  unfold SFltb, SFcompare, rank_lt.
  destruct x as [[]|[]| |[] m e], y as [[]|[]| |[] m' e']; cbn [sf_rank];
    first [rank_yes|rank_no|rank_cases e e' m m'].
Qed.

Lemma is_nan_rank x : is_nan x = true ↔ sf_rank (Prim2SF x) = None.
Proof.
  unfold is_nan. rewrite FloatAxioms.eqb_spec. unfold SFeqb, SFcompare.
  destruct (Prim2SF x) as [[]|[]| |[] m e]; cbn [sf_rank negb]; try done;
    by rewrite Z.compare_refl, Pos.compare_cont_spec, Pos.compare_refl.
Qed.

Lemma ltb_rank x y :
  (x <? y)%float = true ↔
  ∃ a b, sf_rank (Prim2SF x) = Some a ∧ sf_rank (Prim2SF y) = Some b ∧ rank_lt a b.
Proof. rewrite FloatAxioms.ltb_spec. apply SFltb_rank. Qed.

Lemma leb_rank x y :
  (x <=? y)%float = true ↔
  ∃ a b, sf_rank (Prim2SF x) = Some a ∧ sf_rank (Prim2SF y) = Some b ∧ ¬ rank_lt b a.
Proof.
  rewrite FloatAxioms.leb_spec. unfold SFleb, SFcompare, rank_lt.
  destruct (Prim2SF x) as [[]|[]| |[] m e], (Prim2SF y) as [[]|[]| |[] m' e'];
    cbn [sf_rank]; first [rank_yes|rank_no|rank_cases e e' m m'].
Qed.

Lemma not_nan_rank x : is_nan x = false -> ∃ a, sf_rank (Prim2SF x) = Some a.
Proof.
  intros H. destruct (sf_rank (Prim2SF x)) eqn:E; [by eexists|].
  apply is_nan_rank in E. congruence.
Qed.

(** [<] on floats is asymmetric; *)
Lemma ltb_asym x y : (x <? y)%float = true -> (y <? x)%float = false.
Proof.
  intros (a & b & Ha & Hb & H)%ltb_rank. apply not_true_is_false.
  intros (b' & a' & Hb' & Ha' & H')%ltb_rank. simplify_eq. unfold rank_lt in *. lia.
Qed.

(** nothing is below NaN and NaN is below nothing; *)
Lemma ltb_nan_l x y : is_nan x = true -> (x <? y)%float = false.
Proof.
  intros Hx%is_nan_rank. apply not_true_is_false.
  intros (a & b & Ha & _)%ltb_rank. congruence.
Qed.

Lemma ltb_nan_r x y : is_nan y = true -> (x <? y)%float = false.
Proof.
  intros Hx%is_nan_rank. apply not_true_is_false.
  intros (a & b & _ & Hb & _)%ltb_rank. congruence.
Qed.

Lemma leb_nan_l x y : is_nan x = true -> (x <=? y)%float = false.
Proof.
  intros Hx%is_nan_rank. apply not_true_is_false.
  intros (a & b & Ha & _)%leb_rank. congruence.
Qed.

(** being not below is transitive across a number. *)
Lemma ltb_negtrans x y z :
  is_nan y = false ->
  (x <? y)%float = false -> (y <? z)%float = false -> (x <? z)%float = false.
Proof.
  intros [b Hb]%not_nan_rank Hxy Hyz. apply not_true_is_false.
  intros (a & c & Ha & Hc & H)%ltb_rank.
  apply not_true_iff_false in Hxy, Hyz.
  destruct (decide (rank_lt a b)) as [Hab|Hab].
  { apply Hxy, ltb_rank. by exists a, b. }
  apply Hyz, ltb_rank. exists b, c. split; [done|]. split; [done|].
  unfold rank_lt in *. lia.
Qed.

(** Between two numbers, not below is at least. *)
Lemma not_ltb_leb x y :
  is_nan x = false -> is_nan y = false -> (x <? y)%float = false -> (y <=? x)%float = true.
Proof.
  intros [a Ha]%not_nan_rank [b Hb]%not_nan_rank H. apply leb_rank.
  exists b, a. split; [done|]. split; [done|]. intros Hlt.
  apply not_true_iff_false in H. apply H, ltb_rank. by exists a, b.
Qed.

End FloatOrder.

(** ** Header locator (C7, C10) *)

Section HeaderLocator.
Context {RT : PyRuntime}.

Lemma cand_lt_spec r c n r' c' n' :
  cand_lt (r, c, n) (r', c', n') = true ↔
  n' < n ∨ (n' = n ∧ (r < r' ∨ (r = r' ∧ c < c'))).
Proof.
  unfold cand_lt, cand_key, tuple3_lt.
  destruct (Z.eqb_spec (- n) (- n')), (Z.eqb_spec r r');
    rewrite Z.ltb_lt; lia.
Qed.

Lemma cand_lt_asym x y : cand_lt x y = true -> cand_lt y x = false.
Proof.
  destruct x as [[r c] n], y as [[r' c'] n']. intros H%cand_lt_spec.
  apply not_true_is_false. rewrite cand_lt_spec. lia.
Qed.

Lemma cand_lt_negtrans x y z :
  cand_lt x y = false -> cand_lt y z = false -> cand_lt x z = false.
Proof.
  destruct x as [[r c] n], y as [[r' c'] n'], z as [[r'' c''] n''].
  intros H1%not_true_iff_false H2%not_true_iff_false.
  apply not_true_is_false. rewrite cand_lt_spec in *. lia.
Qed.

Lemma elem_of_candidates sh key r c n :
  (r, c, n) ∈ candidates sh key ↔ is_candidate sh key r c ∧ n = text_count sh r.
Proof.
  unfold candidates, is_candidate, range.
  rewrite list_elem_of_In, in_flat_map. split.
  - intros (r0 & Hr0 & Hin). apply in_flat_map in Hin as (c0 & Hc0 & Hin).
    apply list_elem_of_In, elem_of_seqZ in Hr0, Hc0.
    destruct (is_key_cell key (cell sh r0 c0)) eqn:Hk; [|done].
    destruct Hin as [[= <- <- <-]|[]]. repeat split; (lia || done).
  - intros ((Hr & Hc & Hk) & ->). exists r. split.
    + apply list_elem_of_In, elem_of_seqZ. lia.
    + apply in_flat_map. exists c. split.
      * apply list_elem_of_In, elem_of_seqZ. lia.
      * rewrite Hk. by left.
Qed.

Lemma best_candidate_spec sh key c0 rest r c :
  (∀ x, x ∈ c0 :: rest -> x ∈ candidates sh key) ->
  best_candidate c0 rest = (r, c) ->
  (r, c, text_count sh r) ∈ c0 :: rest
  ∧ ∀ r' c', (r', c', text_count sh r') ∈ c0 :: rest -> wins_over sh r c r' c'.
Proof.
  intros Hsub. unfold best_candidate.
  pose proof (py_sorted_hd_elem_of cand_lt c0 (c0 :: rest)) as Hin.
  pose proof (py_sorted_hd_min cand_lt cand_lt_asym cand_lt_negtrans c0 (c0 :: rest))
    as Hmin.
  destruct (hd c0 (py_sorted cand_lt (c0 :: rest))) as [[r0 cc0] n0].
  intros [= -> ->]. specialize (Hin ltac:(done)).
  assert (n0 = text_count sh r) as ->.
  { apply Hsub, elem_of_candidates in Hin. tauto. }
  split; [done|]. intros r' c' Hy. specialize (Hmin _ Hy).
  apply not_true_iff_false in Hmin. rewrite cand_lt_spec in Hmin.
  unfold wins_over. lia.
Qed.

(** What the locator returns, and when it fails. *)
Lemma locate_header_row_spec (sh : sheet) (key : pystr) (top : Z) :
  match locate_header_row sh key top with
  | Raise e =>
      e = HeaderNotFound key ∧ ∀ r c, ¬ is_candidate sh key r c
  | Ok (r, c) =>
      is_candidate sh key r c
      ∧ ((r ≤ top
          ∧ ∀ r' c', is_candidate sh key r' c' -> r' ≤ top -> wins_over sh r c r' c')
         ∨ ((∀ r' c', is_candidate sh key r' c' -> top < r')
            ∧ ∀ r' c', is_candidate sh key r' c' -> wins_over sh r c r' c'))
  end.
Proof.
  unfold locate_header_row.
  destruct (candidates sh key) as [|c0 rest] eqn:Hc.
  - split; [done|]. intros r c Hcand.
    assert (H : (r, c, text_count sh r) ∈ candidates sh key)
      by by apply elem_of_candidates.
    rewrite Hc in H. by apply elem_of_nil in H.
  - rewrite <- Hc.
    set (tops := List.filter (fun t : Z * Z * Z => t.1.1 <=? top) (candidates sh key)).
    assert (Htops : ∀ r c n, (r, c, n) ∈ tops ↔
              (is_candidate sh key r c ∧ n = text_count sh r) ∧ r ≤ top).
    { intros r c n. unfold tops. rewrite list_elem_of_In, filter_In.
      rewrite <- list_elem_of_In, elem_of_candidates. simpl.
      by rewrite Z.leb_le. }
    destruct tops as [|t0 trest] eqn:Ht.
    + destruct (best_candidate c0 rest) as [r c] eqn:Hb.
      apply (best_candidate_spec sh key) in Hb as [Hin Hmin];
        [|by intros x; rewrite Hc].
      rewrite <- Hc in Hin, Hmin.
      apply elem_of_candidates in Hin as [Hin _]. split; [done|]. right.
      assert (Hnone : ∀ r' c', is_candidate sh key r' c' -> top < r').
      { intros r' c' Hcand. destruct (decide (r' ≤ top)) as [Hle|]; [|lia].
        assert (H : (r', c', text_count sh r') ∈ @nil (Z * Z * Z))
          by by apply Htops.
        by apply elem_of_nil in H. }
      split; [done|]. intros r' c' Hcand. apply Hmin.
      by apply elem_of_candidates.
    + destruct (best_candidate t0 trest) as [r c] eqn:Hb.
      apply (best_candidate_spec sh key) in Hb as [Hin Hmin].
      * apply Htops in Hin as [[Hin _] Hle]. split; [done|]. left.
        split; [done|]. intros r' c' Hcand Hle'. apply Hmin. by apply Htops.
      * intros [[r' c'] n'] Hx. apply Htops in Hx. apply elem_of_candidates. tauto.
Qed.

(** C7: the locator fails with HeaderNotFound exactly when the grid has
    no candidate; otherwise it returns a candidate that wins over every
    candidate of its pool, the pool being the candidates on rows up to
    [top_rows_prefer] if there is one, and all candidates if not. *)
Theorem locate_header_row_selects_best (sh : sheet) (key : pystr) (top : Z) :
  match locate_header_row sh key top with
  | Raise e =>
      e = HeaderNotFound key ∧ ∀ r c, ¬ is_candidate sh key r c
  | Ok (r, c) =>
      is_candidate sh key r c
      ∧ ((r ≤ top
          ∧ ∀ r' c', is_candidate sh key r' c' -> r' ≤ top -> wins_over sh r c r' c')
         ∨ ((∀ r' c', is_candidate sh key r' c' -> top < r')
            ∧ ∀ r' c', is_candidate sh key r' c' -> wins_over sh r c r' c'))
  end.
Proof. apply locate_header_row_spec. Qed.

End HeaderLocator.

(** ** Only strings count for the locator (C10) *)

Section LocatorStrings.
Context {RT : PyRuntime}.

Lemma is_key_cell_inv key v :
  is_key_cell key v = true ->
  ∃ s, v = VStr s ∧ s ≠ [] ∧ _normalize_header (Some s) = key.
Proof.
  destruct v as [|[|c s]|z|b|t]; try done. simpl.
  intros H%bool_decide_eq_true. by exists (c :: s).
Qed.

Lemma text_count_strings_only sh r : text_count (strings_only sh) r = text_count sh r.
Proof.
  unfold text_count. simpl. do 2 f_equal.
  apply filter_ext. intros cc. by destruct (cell sh r cc).
Qed.

Lemma candidates_strings_only sh key :
  candidates (strings_only sh) key = candidates sh key.
Proof.
  unfold candidates. simpl.
  apply flat_map_ext. intros r. apply flat_map_ext. intros c.
  rewrite text_count_strings_only. by destruct (cell sh r c).
Qed.

(** C10: what the locator returns is a cell holding a non-empty string
    whose normalized text is the target; when no string cell has that
    normalized text the locator fails with HeaderNotFound, whatever the
    other cells hold; and blanking every non-string cell changes neither
    the textual-cell count of a row nor the locator's answer. *)
Theorem locator_sees_strings_only (sh : sheet) (key : pystr) (top : Z) :
  (∀ r c, locate_header_row sh key top = Ok (r, c) ->
     ∃ s, cell sh r c = VStr s ∧ s ≠ [] ∧ _normalize_header (Some s) = key)
  ∧ ((∀ r c s, cell sh r c = VStr s -> _normalize_header (Some s) ≠ key) ->
     locate_header_row sh key top = Raise (HeaderNotFound key))
  ∧ (∀ r, text_count (strings_only sh) r = text_count sh r)
  ∧ locate_header_row (strings_only sh) key top = locate_header_row sh key top.
Proof.
  pose proof (locate_header_row_spec sh key top) as Hspec.
  split; [|split; [|split]].
  - intros r c Hloc. rewrite Hloc in Hspec. destruct Hspec as [(_ & _ & Hk) _].
    by apply is_key_cell_inv.
  - intros Hnone. destruct (locate_header_row sh key top) as [[r c]|e].
    + destruct Hspec as [(_ & _ & Hk) _].
      apply is_key_cell_inv in Hk as (s & Hs & _ & Hn). by destruct (Hnone r c s).
    + by destruct Hspec as [-> _].
  - apply text_count_strings_only.
  - unfold locate_header_row. by rewrite candidates_strings_only.
Qed.

End LocatorStrings.

(** The key header "1" stored as the number 1 is not found, although the
    text of the number normalizes to the target. *)
Lemma numeric_key_header_not_found :
  _normalize_header (RT := cpython_fragment) (Some (py_str (VInt 1))) = py "1"
  ∧ locate_header_row (RT := cpython_fragment)
      (sheet_of_rows [[VInt 1; VStr (py "Name")]; [VInt 7; VStr (py "x")]])
      (py "1") 20
    = Raise (HeaderNotFound (py "1")).
Proof. split; vm_compute; reflexivity. Qed.

Lemma locator_sees_strings_only_witness :
  locate_header_row (RT := cpython_fragment)
    (sheet_of_rows [[VStr (py "S.No"); VInt 1]]) (py "s no") 20 = Ok (1, 1)
  ∧ ∃ s, cell (sheet_of_rows [[VStr (py "S.No"); VInt 1]]) 1 1 = VStr s ∧ s ≠ []
         ∧ _normalize_header (RT := cpython_fragment) (Some s) = py "s no".
Proof.
  assert (H : locate_header_row (RT := cpython_fragment)
                (sheet_of_rows [[VStr (py "S.No"); VInt 1]]) (py "s no") 20 = Ok (1, 1))
    by (vm_compute; reflexivity).
  split; [exact H|].
  exact (proj1 (locator_sees_strings_only (RT := cpython_fragment)
                  (sheet_of_rows [[VStr (py "S.No"); VInt 1]]) (py "s no") 20) 1 1 H).
Defined.

(** The header on row 3 is preferred to the same text on row 50. *)
Lemma header_in_top_rows_example :
  locate_header_row (RT := cpython_fragment) header_and_data (py "s no") 20 = Ok (3, 1)
  ∧ locate_header_row (RT := cpython_fragment) header_and_data (py "s no") 2 = Ok (3, 1)
  ∧ locate_header_row (RT := cpython_fragment) header_and_data (py "name") 2 = Ok (3, 2)
  ∧ locate_header_row (RT := cpython_fragment) header_and_data (py "total") 20
    = Raise (HeaderNotFound (py "total")).
Proof. repeat split; vm_compute; reflexivity. Qed.

Lemma locate_header_row_selects_best_witness :
  locate_header_row (RT := cpython_fragment) layout_sheet (py "id") 20 = Ok (2, 1)
  ∧ is_candidate (RT := cpython_fragment) layout_sheet (py "id") 2 1.
Proof.
  assert (H : locate_header_row (RT := cpython_fragment) layout_sheet (py "id") 20
              = Ok (2, 1)) by (vm_compute; reflexivity).
  split; [exact H|].
  pose proof (locate_header_row_selects_best (RT := cpython_fragment)
                layout_sheet (py "id") 20) as Hspec.
  rewrite H in Hspec. exact (proj1 Hspec).
Defined.

(** ** Dictionaries in insertion order *)

Section Dicts.
Context {V : Type}.
Implicit Types (d : list (pystr * V)) (k : pystr) (v : V).

Lemma dict_get_None d k : dict_get k d = None ↔ k ∉ d.*1.
Proof.
  induction d as [|[k' v'] d IH]; simpl.
  - split; [intros _; apply not_elem_of_nil|done].
  - rewrite not_elem_of_cons. case_bool_decide as Hk.
    + split; [done|]. intros [? _]. congruence.
    + rewrite IH. split; [|tauto]. intros Hd. split; [congruence|done].
Qed.

Lemma dict_get_Some_elem d k v : dict_get k d = Some v -> (k, v) ∈ d.
Proof.
  induction d as [|[k' v'] d IH]; simpl; [done|].
  case_bool_decide as Hk.
  - intros [= ->]. subst. by left.
  - intros H. right. auto.
Qed.

Lemma dict_get_elem_of d k v : NoDup d.*1 -> (k, v) ∈ d -> dict_get k d = Some v.
Proof.
  induction d as [|[k' v'] d IH]; simpl.
  - intros _ H. by apply elem_of_nil in H.
  - intros [Hk' Hd]%NoDup_cons [[= -> ->]|Hin]%elem_of_cons.
    + by rewrite bool_decide_eq_true_2.
    + rewrite bool_decide_eq_false_2; [auto|].
      intros ->. apply Hk'. apply list_elem_of_fmap. by exists (k, v).
Qed.

Lemma dict_get_set_eq d k v : dict_get k (dict_set k v d) = Some v.
Proof.
  induction d as [|[k' v'] d IH]; simpl.
  - by rewrite bool_decide_eq_true_2.
  - case_bool_decide as Hk; simpl.
    + by rewrite bool_decide_eq_true_2.
    + by rewrite bool_decide_eq_false_2.
Qed.

Lemma dict_get_set_ne d k k0 v : k0 ≠ k -> dict_get k (dict_set k0 v d) = dict_get k d.
Proof.
  intros Hne. induction d as [|[k' v'] d IH]; simpl.
  - by rewrite bool_decide_eq_false_2.
  - case_bool_decide as Hk; simpl.
    + subst k'. by rewrite !bool_decide_eq_false_2.
    + by rewrite IH.
Qed.

Lemma dict_set_fresh d k v : k ∉ d.*1 -> dict_set k v d = d ++ [(k, v)].
Proof.
  induction d as [|[k' v'] d IH]; simpl; [done|].
  intros [Hne Hd]%not_elem_of_cons.
  rewrite bool_decide_eq_false_2 by done. by rewrite IH.
Qed.

Lemma dict_set_keys d k v :
  (dict_set k v d).*1 = if bool_decide (k ∈ d.*1) then d.*1 else d.*1 ++ [k].
Proof.
  induction d as [|[k' v'] d IH]; [reflexivity|].
  cbn [dict_set]. rewrite (fmap_cons fst (k', v') d). cbn [fst].
  destruct (decide (k' = k)) as [->|Hk].
  - rewrite bool_decide_eq_true_2 by done. rewrite fmap_cons. cbn [fst].
    rewrite bool_decide_eq_true_2; [done|by left].
  - rewrite bool_decide_eq_false_2 by done. rewrite fmap_cons, IH. cbn [fst].
    destruct (decide (k ∈ d.*1)) as [Hin|Hin].
    + rewrite (bool_decide_eq_true_2 _ Hin).
      rewrite bool_decide_eq_true_2; [done|by right].
    + rewrite (bool_decide_eq_false_2 _ Hin).
      rewrite bool_decide_eq_false_2; [done|].
      rewrite not_elem_of_cons. split; [congruence|done].
Qed.

Lemma dict_set_NoDup d k v : NoDup d.*1 -> NoDup (dict_set k v d).*1.
Proof.
  intros Hd. rewrite dict_set_keys. case_bool_decide; [done|].
  apply NoDup_app. split; [done|]. split.
  - intros x Hx [->|[]%elem_of_nil]%elem_of_cons. done.
  - apply NoDup_singleton.
Qed.

End Dicts.

(** ** Column matcher (C6) *)

Section ColumnMatcher.
Context {RT : PyRuntime}.

Lemma header_step_NoDup sh header_row hdrs c :
  NoDup hdrs.*1 -> NoDup (header_step sh header_row hdrs c).*1.
Proof.
  intros Hh. unfold header_step.
  destruct (cell sh header_row c); try done;
    repeat (match goal with |- context [if ?b then _ else _] => destruct b end);
    try done; by apply dict_set_NoDup.
Qed.

Lemma headers_from_row_NoDup sh header_row : NoDup (headers_from_row sh header_row).*1.
Proof.
  unfold headers_from_row.
  assert (Hgen : ∀ l hdrs, NoDup hdrs.*1 ->
            NoDup (fold_left (header_step sh header_row) l hdrs).*1).
  { induction l as [|c l IH]; intros hdrs Hh; simpl; [done|].
    by apply IH, header_step_NoDup. }
  apply Hgen. constructor.
Qed.

Lemma sample_fold_other sh header_row sample_size l d h :
  h ∉ l.*1 ->
  dict_get h (fold_left (sample_step sh header_row sample_size) l d) = dict_get h d.
Proof.
  revert d. induction l as [|[h' [[r' c'] disp']] l IH]; intros d Hh; simpl; [done|].
  rewrite fmap_cons in Hh. apply not_elem_of_cons in Hh as [Hne Hh].
  rewrite IH by done. by apply dict_get_set_ne.
Qed.

(** What the samples dictionary holds for the header of column [c]. *)
Lemma sample_dict_get headers_row sh header_row sample_size h r c disp :
  NoDup headers_row.*1 ->
  (h, (r, c, disp)) ∈ headers_row ->
  samples_get h (sample_dict headers_row sh header_row sample_size)
  = _sample_column_values sh header_row c sample_size.
Proof.
  unfold samples_get, sample_dict.
  assert (Hgen : ∀ l d0, NoDup l.*1 -> (h, (r, c, disp)) ∈ l ->
            dict_get h (fold_left (sample_step sh header_row sample_size) l d0)
            = Some (_sample_column_values sh header_row c sample_size)).
  { induction l as [|[h' [[r' c'] disp']] l IH]; intros d0 Hnd Hin.
    - by apply elem_of_nil in Hin.
    - rewrite fmap_cons in Hnd. apply NoDup_cons in Hnd as [Hh' Hnd]. simpl.
      apply elem_of_cons in Hin as [[= <- <- <- <-]|Hin]; [|by apply IH].
      rewrite sample_fold_other by done. apply dict_get_set_eq. }
  intros Hnd Hin. by rewrite (Hgen headers_row [] Hnd Hin).
Qed.

(** An entry of [scores] comes from a header of each file and carries
    their combined score. *)
Lemma elem_of_column_scores hs1 hs2 sheet1 sheet2 hr1 hr2 wn wd n sc h1 h2 ns ds :
  (sc, h1, h2, ns, ds) ∈ column_scores hs1 hs2 sheet1 sheet2 hr1 hr2 wn wd n ->
  ∃ r1 c1 d1 r2 c2 d2,
    (h1, (r1, c1, d1)) ∈ hs1 ∧ (h2, (r2, c2, d2)) ∈ hs2
    ∧ sc = (wn * Q2F (_name_ratio d1 d2)
            + wd * Q2F (_jaccard (samples_get h1 (sample_dict hs1 sheet1 hr1 n))
                                 (samples_get h2 (sample_dict hs2 sheet2 hr2 n))))%float.
Proof.
  unfold column_scores. rewrite list_elem_of_In, in_flat_map.
  intros ([h1' [[r1 c1] d1]] & Hin1 & Hin).
  apply in_map_iff in Hin as ([h2' [[r2 c2] d2]] & Heq & Hin2).
  injection Heq as <- <- <- _ _.
  exists r1, c1, d1, r2, c2, d2. by rewrite !list_elem_of_In.
Qed.

(** The greedy pass keeps the mapping one-to-one and takes its pairs from
    entries not below [min_score]. *)
Lemma greedy_accept_inv min_score scores mapped1 mapped2 mapping :
  NoDup mapping.*1 -> NoDup mapping.*2 ->
  (∀ k, k ∈ mapping.*1 ↔ k ∈ mapped1) ->
  (∀ v, v ∈ mapping.*2 ↔ v ∈ mapped2) ->
  let res := greedy_accept min_score scores mapped1 mapped2 mapping in
  NoDup res.*1 ∧ NoDup res.*2
  ∧ ∀ h1 h2, (h1, h2) ∈ res ->
      (h1, h2) ∈ mapping
      ∨ ∃ sc ns ds, (sc, h1, h2, ns, ds) ∈ scores ∧ (sc <? min_score)%float = false.
Proof.
  revert mapped1 mapped2 mapping.
  induction scores as [|[[[[sc h1] h2] ns] ds] rest IH];
    intros mapped1 mapped2 mapping Hn1 Hn2 Hm1 Hm2; simpl.
  - split; [done|]. split; [done|]. by left.
  - destruct (sc <? min_score)%float eqn:Hlt; [split; [done|]; split; [done|]; by left|].
    destruct (bool_decide (h1 ∈ mapped1) || bool_decide (h2 ∈ mapped2)) eqn:Hused.
    + destruct (IH mapped1 mapped2 mapping Hn1 Hn2 Hm1 Hm2) as (H1 & H2 & H3).
      split; [done|]. split; [done|].
      intros k v Hkv. destruct (H3 k v Hkv) as [?|(sc' & ns' & ds' & Hin & Hle)];
        [by left|right]. exists sc', ns', ds'. split; [by right|done].
    + apply orb_false_iff in Hused as [Hu1 Hu2].
      apply bool_decide_eq_false in Hu1, Hu2.
      assert (Hfresh : h1 ∉ mapping.*1) by by rewrite Hm1.
      rewrite (dict_set_fresh mapping h1 h2 Hfresh).
      destruct (IH ({[h1]} ∪ mapped1) ({[h2]} ∪ mapped2) (mapping ++ [(h1, h2)]))
        as (H1 & H2 & H3).
      * rewrite fmap_app. apply NoDup_app. split; [done|]. split.
        -- intros x Hx [->|[]%elem_of_nil]%elem_of_cons. done.
        -- apply NoDup_singleton.
      * rewrite fmap_app. apply NoDup_app. split; [done|]. split.
        -- intros x Hx [->|[]%elem_of_nil]%elem_of_cons. by apply Hu2, Hm2.
        -- apply NoDup_singleton.
      * intros k. rewrite fmap_app, elem_of_app, Hm1. simpl.
        rewrite list_elem_of_singleton, elem_of_union, elem_of_singleton. tauto.
      * intros v. rewrite fmap_app, elem_of_app, Hm2. simpl.
        rewrite list_elem_of_singleton, elem_of_union, elem_of_singleton. tauto.
      * split; [done|]. split; [done|].
        intros k v Hkv. destruct (H3 k v Hkv) as [Hold|(sc' & ns' & ds' & Hin & Hle)].
        -- apply elem_of_app in Hold as [?|[= -> ->]%list_elem_of_singleton];
             [by left|right].
           exists sc, ns, ds. split; [by left|done].
        -- right. exists sc', ns', ds'. split; [by right|done].
Qed.

Lemma sorted_scores_perm (scores : list score_entry) :
  reverse (list_sort (fun x y => (entry_score x <? entry_score y)%float) (reverse scores))
  ≡ₚ scores.
Proof. by rewrite reverse_Permutation, list_sort_perm, reverse_Permutation. Qed.

(** C6, as amended: the column match is one-to-one (no file-1 header is a
    key twice, no file-2 header is a value twice), and every pair in it
    has a combined score, [weight_name * nameScore + weight_data *
    dataScore] as the code computes it in double precision, that is not
    below [min_score]: the test [score < min_score] failed for it. That
    is [score >= min_score] whenever neither of the two is NaN. *)
Theorem match_columns_one_to_one
    (headers1_row headers2_row : list (pystr * header_entry))
    (sheet1 sheet2 : sheet) (header_row1 header_row2 : Z)
    (weight_name weight_data min_score : float) (sample_size : Z) :
  NoDup headers1_row.*1 -> NoDup headers2_row.*1 ->
  let col_match :=
    match_columns_by_data headers1_row headers2_row sheet1 sheet2
      header_row1 header_row2 weight_name weight_data min_score sample_size in
  NoDup col_match.*1 ∧ NoDup col_match.*2
  ∧ ∀ h1 h2, (h1, h2) ∈ col_match ->
      ∃ r1 c1 d1 r2 c2 d2,
        dict_get h1 headers1_row = Some (r1, c1, d1)
        ∧ dict_get h2 headers2_row = Some (r2, c2, d2)
        ∧ let score :=
            combined_score sheet1 sheet2 header_row1 header_row2
              weight_name weight_data sample_size (r1, c1, d1) (r2, c2, d2) in
          (score <? min_score)%float = false
          ∧ (is_nan score = false -> is_nan min_score = false ->
             (min_score <=? score)%float = true).
Proof.
  intros Hnd1 Hnd2 col_match. subst col_match. unfold match_columns_by_data.
  set (scores := column_scores _ _ _ _ _ _ _ _ _).
  set (sorted := reverse (list_sort _ (reverse scores))).
  destruct (greedy_accept_inv min_score sorted ∅ ∅ []) as (H1 & H2 & H3);
    [constructor|constructor|set_solver|set_solver|].
  split; [done|]. split; [done|].
  intros h1 h2 Hin. destruct (H3 h1 h2 Hin) as [Hnil|(sc & ns & ds & Hsc & Hle)].
  { by apply elem_of_nil in Hnil. }
  subst sorted. rewrite sorted_scores_perm in Hsc.
  apply elem_of_column_scores in Hsc
    as (r1 & c1 & d1 & r2 & c2 & d2 & Hh1 & Hh2 & ->).
  exists r1, c1, d1, r2, c2, d2.
  rewrite (sample_dict_get _ _ _ _ _ _ _ _ Hnd1 Hh1) in Hle.
  rewrite (sample_dict_get _ _ _ _ _ _ _ _ Hnd2 Hh2) in Hle.
  split; [by apply dict_get_elem_of|]. split; [by apply dict_get_elem_of|].
  cbn zeta. unfold combined_score. cbn [fst snd]. split; [done|].
  intros Hs Hm. by apply not_ltb_leb.
Qed.

End ColumnMatcher.

Lemma match_columns_one_to_one_witness :
  let hs1 := headers_from_row (RT := cpython_fragment) grid_a 1 in
  let hs2 := headers_from_row (RT := cpython_fragment) grid_b 1 in
  let col_match :=
    match_columns_by_data (RT := cpython_fragment) hs1 hs2 grid_a grid_b 1 1
      (weight_name by_id) (weight_data by_id) (min_score by_id) 40 in
  NoDup hs1.*1 ∧ NoDup hs2.*1 ∧ NoDup col_match.*1 ∧ NoDup col_match.*2.
Proof.
  intros hs1 hs2 col_match.
  assert (H1 : NoDup hs1.*1) by (apply (bool_decide_unpack _); vm_compute; exact I).
  assert (H2 : NoDup hs2.*1) by (apply (bool_decide_unpack _); vm_compute; exact I).
  split; [exact H1|]. split; [exact H2|].
  destruct (match_columns_one_to_one (RT := cpython_fragment) hs1 hs2 grid_a grid_b 1 1
              (weight_name by_id) (weight_data by_id) (min_score by_id) 40 H1 H2)
    as (Hk & Hv & _).
  split; [exact Hk|exact Hv].
Defined.

(** C6 as stated fails: with NaN for [min_score] the test
    [score < min_score] never holds, the loop never breaks, and the pair
    of the two "ID" columns is accepted with a score that is not at
    least [min_score]. *)
Lemma nan_threshold_accepts_any_score :
  (py "id", py "id")
    ∈ match_columns_by_data (RT := cpython_fragment)
        (headers_from_row (RT := cpython_fragment) grid_a 1)
        (headers_from_row (RT := cpython_fragment) grid_b 1) grid_a grid_b 1 1
        (weight_name by_id) (weight_data by_id) nan 40
  ∧ (nan <=? combined_score (RT := cpython_fragment) grid_a grid_b 1 1
               (weight_name by_id) (weight_data by_id) 40
               (1%Z, 1%Z, py "ID") (1%Z, 1%Z, py "ID"))%float = false.
Proof.
  split; [|vm_compute; reflexivity].
  apply (bool_decide_unpack _). vm_compute. exact I.
Qed.

(** The combined score is the rounded one: with the default weights, a
    name score of 2/15 and a data score of 2/9, whose exact combination
    is 1/5, the score is below the default threshold of 0.20. *)
Lemma combined_score_is_rounded :
  (weight_name default_options * Q2F (Qc_of_Z 2 / Qc_of_Z 15)
   + weight_data default_options * Q2F (Qc_of_Z 2 / Qc_of_Z 9)
   <? min_score default_options)%float = true.
Proof. vm_compute. reflexivity. Qed.

(** Likewise a weight of 0.7 on a data score of 1/10 gives a score below
    0.07. *)
Lemma weighted_tenth_is_rounded :
  (0x1.6666666666666p-1 * Q2F (Qc_of_Z 1 / Qc_of_Z 10) <? 0x1.1eb851eb851ecp-4)%float = true.
Proof. vm_compute. reflexivity. Qed.

(** On the two grids of the end-to-end example both headers are matched
    to their namesakes. *)
Lemma match_columns_example :
  match_columns_by_data (RT := cpython_fragment)
    (headers_from_row (RT := cpython_fragment) grid_a 1)
    (headers_from_row (RT := cpython_fragment) grid_b 1) grid_a grid_b 1 1
    (weight_name by_id) (weight_data by_id) (min_score by_id) 40
  = [(py "id", py "id"); (py "name", py "name")].
Proof. vm_compute. reflexivity. Qed.

(** ** Row alignment by key (C8) *)

Section KeyOrder.
Context {RT : PyRuntime}.

Lemma str_ltb_asym a b : str_ltb a b = true -> str_ltb b a = false.
Proof.
  revert b. induction a as [|x a IH]; intros [|y b]; cbn [str_ltb]; try done.
  destruct (N.eqb_spec x y) as [->|Hne].
  - rewrite N.eqb_refl. apply IH.
  - destruct (N.eqb_spec y x) as [->|_]; [done|].
    rewrite N.ltb_lt, N.ltb_ge. lia.
Qed.

Lemma str_ltb_negtrans a b c :
  str_ltb a b = false -> str_ltb b c = false -> str_ltb a c = false.
Proof.
  revert b c. induction a as [|x a IH]; intros [|y b] [|z c]; cbn [str_ltb]; try done.
  destruct (N.eqb_spec x y) as [->|Hxy], (N.eqb_spec y z) as [->|Hyz].
  - apply IH.
  - auto.
  - destruct (N.eqb_spec x z); [done|]. auto.
  - rewrite !N.ltb_ge. intros H1 H2.
    destruct (N.eqb_spec x z) as [->|Hxz]; [lia|]. apply N.ltb_ge. lia.
Qed.

Lemma sort_key_lt_asym a b : sort_key_lt a b = true -> sort_key_lt b a = false.
Proof.
  destruct a as [f|x], b as [g|y]; simpl; try done.
  - apply ltb_asym.
  - apply str_ltb_asym.
Qed.

(** Across a key that is not NaN, standing not before is transitive. *)
Lemma sort_key_lt_negtrans a b c :
  (∀ f, b = KNum f -> is_nan f = false) ->
  sort_key_lt a b = false -> sort_key_lt b c = false -> sort_key_lt a c = false.
Proof.
  intros Hb. destruct a as [f|x], b as [g|y], c as [h|z]; simpl; try done.
  - apply ltb_negtrans. by apply Hb.
  - apply str_ltb_negtrans.
Qed.

Lemma keyfn_no_nan keys k :
  no_nan_key keys -> k ∈ keys -> ∀ f, keyfn k = KNum f -> is_nan f = false.
Proof.
  intros Hn Hk f. unfold keyfn. destruct (py_float k) as [g|] eqn:E; [|done].
  intros [= <-]. by apply (Hn k).
Qed.

Lemma key_lt_consistent keys :
  no_nan_key keys -> consistent_on (fun x y => sort_key_lt (keyfn x) (keyfn y)) keys.
Proof.
  intros Hn. split.
  - intros x y _ _. apply sort_key_lt_asym.
  - intros x y z _ Hy _. apply sort_key_lt_negtrans. by apply (keyfn_no_nan keys).
Qed.

Lemma not_after_key_order keys a b :
  no_nan_key keys -> a ∈ keys -> b ∈ keys ->
  not_after (fun x y => sort_key_lt (keyfn x) (keyfn y)) a b -> key_order a b.
Proof.
  intros Hn Ha Hb. unfold not_after, key_order, keyfn.
  destruct (py_float a) as [f|] eqn:Ea, (py_float b) as [g|] eqn:Eb; simpl; try done.
  intros H. apply not_ltb_leb; [by apply (Hn b)|by apply (Hn a)|done].
Qed.

Lemma _sort_keys_perm keys : _sort_keys keys ≡ₚ keys.
Proof. apply list_sort_perm. Qed.

Lemma StronglySorted_weaken_on {A} (R S : relation A) l :
  (∀ a b, a ∈ l -> b ∈ l -> R a b -> S a b) -> StronglySorted R l -> StronglySorted S l.
Proof.
  intros HRS Hl. induction Hl as [|a l Hl IH Ha]; constructor.
  - apply IH. intros x y Hx Hy. apply HRS; by right.
  - rewrite Forall_forall in Ha |- *. intros y Hy.
    apply HRS; [by left|by right|by apply Ha].
Qed.

(** A list of keys none of which stands after its successor is one run,
    and is returned as it is. *)
Lemma _sort_keys_run keys :
  Sorted (not_after (fun x y => sort_key_lt (keyfn x) (keyfn y))) keys ->
  _sort_keys keys = keys.
Proof. apply list_sort_run. Qed.

(** When no key reads as NaN the keys come out in order. *)
Lemma _sort_keys_sorted keys :
  no_nan_key keys -> StronglySorted key_order (_sort_keys keys).
Proof.
  intros Hn. unfold _sort_keys. rewrite list_sort_stable by by apply key_lt_consistent.
  assert (Hin : ∀ k,
    k ∈ py_sorted (fun x y => sort_key_lt (keyfn x) (keyfn y)) keys -> k ∈ keys).
  { intros k. by rewrite py_sorted_perm. }
  eapply (StronglySorted_weaken_on
            (not_after (fun x y => sort_key_lt (keyfn x) (keyfn y)))).
  - intros a b Ha Hb. apply (not_after_key_order keys); auto.
  - apply Sorted_StronglySorted_on;
      [|apply py_sorted_Sorted_asym; intros x y; apply sort_key_lt_asym].
    intros a b c Ha Hb Hc. unfold not_after. intros H1 H2.
    eapply sort_key_lt_negtrans; [|exact H2|exact H1].
    apply (keyfn_no_nan keys); auto.
Qed.

(** In by-key mode the aligned keys are, without repetition, exactly the
    normalized key values of the data rows of the two files, and the row
    aligned on a key carries, on each side, the row the file's index
    holds for the key, absent exactly when the file has no such key.
    When no key reads as NaN, numeric keys come first in increasing
    numeric order and the others follow in lexicographic order. *)
Lemma by_key_rows_sorted_union_without_nan
    (sheet1 sheet2 : sheet) (key_row1 key_col1 key_row2 key_col2 : Z) :
  let row_dict1 := build_row_dict sheet1 key_row1 key_col1 in
  let row_dict2 := build_row_dict sheet2 key_row2 key_col2 in
  let keys := all_keys_of row_dict1 row_dict2 in
  let rows := rows_by_key sheet1 sheet2 row_dict1 row_dict2 key_col1 key_col2 in
  NoDup keys
  ∧ (∀ k, k ∈ keys ↔
       (∃ r, key_row1 < r ≤ max_row sheet1 ∧ key_at sheet1 key_col1 r = Some k)
       ∨ (∃ r, key_row2 < r ≤ max_row sheet2 ∧ key_at sheet2 key_col2 r = Some k))
  ∧ (no_nan_key keys -> StronglySorted key_order keys)
  ∧ map (fun row : aligned_row => (row.1.1, row.1.2)) rows
    = map (fun k => (row_dict1 !! k, row_dict2 !! k)) keys
  ∧ (∀ k, row_dict1 !! k = None ↔
       ¬ ∃ r, key_row1 < r ≤ max_row sheet1 ∧ key_at sheet1 key_col1 r = Some k)
  ∧ (∀ k, row_dict2 !! k = None ↔
       ¬ ∃ r, key_row2 < r ≤ max_row sheet2 ∧ key_at sheet2 key_col2 r = Some k).
Proof.
  intros row_dict1 row_dict2 keys rows. subst keys rows. unfold all_keys_of.
  split; [|split; [|split; [|split; [|split]]]].
  - rewrite _sort_keys_perm, set_order_perm. apply NoDup_elements.
  - intros k. rewrite _sort_keys_perm, set_order_perm, elem_of_elements, elem_of_union.
    subst row_dict1 row_dict2. by rewrite !build_row_dict_dom.
  - intros Hn. apply _sort_keys_sorted. intros k f Hk. apply Hn.
    by rewrite _sort_keys_perm.
  - unfold rows_by_key, rows_by_key_from, all_keys_of. by rewrite map_map.
  - intros k. subst row_dict1.
    by rewrite <- build_row_dict_dom, not_elem_of_dom.
  - intros k. subst row_dict2.
    by rewrite <- build_row_dict_dom, not_elem_of_dom.
Qed.

(** C8 fails on the code at a key that reads as NaN: the key texts "7",
    "nan" and "1", met in this order, are all numeric for [float], no
    test [(0, float(b)) < (0, float(a))] on two neighbours holds, so the
    list is one run and [_sort_keys] returns it as it is, with 7 before
    1: the numeric keys are not sorted by numeric value. *)
Theorem nan_key_breaks_numeric_order :
  py_float (py "7") = Some 7%float ->
  py_float (py "nan") = Some nan ->
  py_float (py "1") = Some 1%float ->
  _sort_keys [py "7"; py "nan"; py "1"] = [py "7"; py "nan"; py "1"]
  ∧ ¬ key_order (py "7") (py "1")
  ∧ ¬ StronglySorted key_order (_sort_keys [py "7"; py "nan"; py "1"]).
Proof.
  intros H7 Hnan H1.
  assert (Hrun : _sort_keys [py "7"; py "nan"; py "1"] = [py "7"; py "nan"; py "1"]).
  { apply _sort_keys_run.
    repeat constructor; unfold not_after, keyfn; rewrite ?H7, ?Hnan, ?H1; reflexivity. }
  assert (Hord : ¬ key_order (py "7") (py "1")).
  { unfold key_order. rewrite H7, H1. vm_compute. discriminate. }
  split; [done|]. split; [done|]. rewrite Hrun.
  intros [_ [_ [H _]%Forall_cons]%Forall_cons]%StronglySorted_inv. done.
Qed.

End KeyOrder.

Lemma nan_key_breaks_numeric_order_witness :
  _sort_keys (RT := cpython_fragment) [py "7"; py "nan"; py "1"]
  = [py "7"; py "nan"; py "1"]
  ∧ ¬ key_order (RT := cpython_fragment) (py "7") (py "1")
  ∧ ¬ StronglySorted (key_order (RT := cpython_fragment))
        (_sort_keys (RT := cpython_fragment) [py "7"; py "nan"; py "1"]).
Proof.
  apply (nan_key_breaks_numeric_order (RT := cpython_fragment)); reflexivity.
Defined.

(** The same through the by-key branch: a key column holding 7, "NaN"
    and 1, whose key set the fragment iterates as "7", "nan", "1", is
    aligned with the row of key 7 before the row of key 1. *)
Lemma nan_key_example :
  set_order (PyRuntime := cpython_fragment)
    (dom (build_row_dict (RT := cpython_fragment) keys_7_nan_1 1 1))
  = [py "7"; py "nan"; py "1"]
  ∧ rows_by_key (RT := cpython_fragment) keys_7_nan_1 keys_7_nan_1
      (build_row_dict (RT := cpython_fragment) keys_7_nan_1 1 1)
      (build_row_dict (RT := cpython_fragment) keys_7_nan_1 1 1) 1 1
    = [(Some 2, Some 2, py "7/7");
       (Some 3, Some 3, py "NaN/NaN");
       (Some 4, Some 4, py "1/1")].
Proof. split; vm_compute; reflexivity. Qed.

Lemma by_key_example :
  rows_by_key (RT := cpython_fragment) keys_123 keys_234
    (build_row_dict (RT := cpython_fragment) keys_123 1 1)
    (build_row_dict (RT := cpython_fragment) keys_234 1 1) 1 1
  = [(Some 2, None, py "1/");
     (Some 3, Some 2, py "2/2");
     (Some 4, Some 3, py "3/3");
     (None, Some 4, py "/4")].
Proof. vm_compute. reflexivity. Qed.

(** ** Progress callbacks (C4, C5) *)

Section Progress.
Context {RT : PyRuntime}.

Lemma same_pure {A} (r : result A) : same_result (lift r) (lift r).
Proof. by intros tr1 tr2. Qed.

Lemma same_ret {A} (a : A) : same_result (mret a) (mret a).
Proof. by intros tr1 tr2. Qed.

Lemma same_raise {A} e : same_result (@raise A e) (@raise A e).
Proof. by intros tr1 tr2. Qed.

Lemma same_bind {A B} (m1 m2 : run A) (k1 k2 : A -> run B) :
  same_result m1 m2 -> (∀ a, same_result (k1 a) (k2 a)) ->
  same_result (m1 ≫= k1) (m2 ≫= k2).
Proof.
  intros Hm Hk tr1 tr2. unfold mbind, run_bind.
  specialize (Hm tr1 tr2).
  destruct (m1 tr1) as [[a1|e1] t1], (m2 tr2) as [[a2|e2] t2]; simpl in *;
    try congruence.
  injection Hm as ->. apply Hk.
Qed.

Lemma progress_calm cb p tr :
  calm cb -> _progress (Some cb) p tr = (Ok (), tr ++ [p]).
Proof.
  intros Hcalm. unfold _progress. specialize (Hcalm tr p). by destruct (cb tr p).
Qed.

Lemma same_progress cb p : calm cb -> same_result (_progress (Some cb) p) (_progress None p).
Proof. intros Hcalm tr1 tr2. by rewrite progress_calm. Qed.

Lemma same_for_each {A B} (body1 body2 : A -> run B) l :
  (∀ x, same_result (body1 x) (body2 x)) ->
  same_result (for_each body1 l) (for_each body2 l).
Proof.
  intros Hbody. induction l as [|x l IH]; simpl; [apply same_ret|].
  apply same_bind; [done|]. intros b.
  apply same_bind; [done|]. intros bs. apply same_ret.
Qed.

Lemma same_write_row cb sheet1 sheet2 header_map total ir :
  calm cb ->
  same_result (write_row (Some cb) sheet1 sheet2 header_map total ir)
              (write_row None sheet1 sheet2 header_map total ir).
Proof.
  intros Hcalm. destruct ir as [i [[r1 r2] label]]. unfold write_row.
  apply same_bind; [|intros ?; apply same_ret].
  destruct (i mod 20 =? 0); [by apply same_progress|apply same_ret].
Qed.

(** Walks two runs that differ in their callback only. *)
Ltac same_walk :=
  repeat first
    [ apply same_ret | apply same_raise | apply same_pure
    | apply same_progress; assumption
    | apply same_write_row; assumption
    | apply same_for_each; intros ?
    | apply same_bind; [|intros ?]
    | match goal with
      | x : (_ * _)%type |- _ => destruct x
      | |- same_result (if ?b then _ else _) (if ?b then _ else _) => destruct b
      end ].

Lemma same_compare_excel_files file_list opts cb :
  calm cb ->
  same_result (compare_excel_files file_list (with_callback opts (Some cb)))
              (compare_excel_files file_list (with_callback opts None)).
Proof.
  intros Hcalm. unfold compare_excel_files.
  destruct file_list as [|sheet1 [|sheet2 rest]]; [apply same_raise..|].
  cbn [with_callback progress_cb key_header compare_mode weight_name weight_data
       min_score sample_size top_rows_prefer return_meta].
  same_walk.
Qed.

Lemma same_compare_pdfs file_list cb :
  calm cb -> same_result (compare_pdfs file_list (Some cb)) (compare_pdfs file_list None).
Proof.
  intros Hcalm. unfold compare_pdfs, save_side_by_side_pdf.
  destruct file_list as [|file1 [|file2 rest]]; [apply same_raise..|].
  same_walk.
Qed.

(** C4, as amended: an [Exception] raised by the progress callback is
    swallowed by [_progress]. Whatever the callback does at a milestone,
    short of raising something that is not an [Exception], the run goes
    on and ends exactly as the run without a callback does, and every
    milestone is still reported. *)
Theorem callback_exceptions_are_swallowed
    (file_list : list sheet) (opts : options) (pdfs : list pdf) (cb : callback) :
  calm cb ->
  (∀ tr, (compare_excel_files file_list (with_callback opts (Some cb)) tr).1
         = (compare_excel_files file_list (with_callback opts None) []).1)
  ∧ (∀ tr, (compare_pdfs pdfs (Some cb) tr).1 = (compare_pdfs pdfs None []).1)
  ∧ (∀ tr p, _progress (Some cb) p tr = (Ok (), tr ++ [p])).
Proof.
  intros Hcalm. split; [|split].
  - intros tr. by apply same_compare_excel_files.
  - intros tr. by apply same_compare_pdfs.
  - intros tr p. by apply progress_calm.
Qed.

End Progress.

(** C4 as stated fails: the callback throws at every milestone, and the
    comparison completes, having gone through all of them. *)
Lemma failing_callback_does_not_stop_the_run :
  compare_pdfs [[py "a"]; [py "b"]] (Some always_failing) []
  = (Ok 1, [1; 20; 30; 30; 50; 95; 100]).
Proof. vm_compute. reflexivity. Qed.

Lemma callback_exceptions_are_swallowed_witness :
  calm always_failing
  ∧ (compare_pdfs [[py "a"]; [py "b"]] (Some always_failing) []).1 = Ok 1.
Proof.
  assert (Hcalm : calm always_failing) by (intros tr p; discriminate).
  split; [exact Hcalm|].
  destruct (callback_exceptions_are_swallowed (RT := cpython_fragment)
              [] default_options [[py "a"]; [py "b"]] always_failing Hcalm)
    as (_ & H & _).
  rewrite (H []). reflexivity.
Defined.

(** ** The progress of the document engine *)

Section DocumentProgress.

Lemma bind_ok {A B} (m : run A) (k : A -> run B) tr a tr' :
  m tr = (Ok a, tr') -> (m ≫= k) tr = k a tr'.
Proof. intros Hm. unfold mbind, run_bind. by rewrite Hm. Qed.

Lemma bind_progress_calm {B} cb p (k : unit -> run B) tr :
  calm cb -> (_progress (Some cb) p ≫= k) tr = k () (tr ++ [p]).
Proof. intros Hcalm. apply bind_ok. by apply progress_calm. Qed.

Lemma page_loop_trace cb n l tr :
  calm cb ->
  for_each (fun i => _progress (Some cb) (page_percent 30 i n);;
                     _progress (Some cb) (page_percent 50 i n)) l tr
  = (Ok (map (fun _ => ()) l),
     tr ++ flat_map (fun i => [page_percent 30 i n; page_percent 50 i n]) l).
Proof.
  intros Hcalm. revert tr. induction l as [|i l IH]; intros tr.
  - simpl. by rewrite app_nil_r.
  - cbn [for_each flat_map map].
    erewrite bind_ok; [|rewrite bind_progress_calm by done; by apply progress_calm].
    erewrite bind_ok; [|apply IH].
    unfold mret, run_ret. by rewrite <- !app_assoc.
Qed.

(** What the document engine reports to a callback that lets it run. *)
Lemma compare_pdfs_trace cb file1 file2 rest :
  calm cb ->
  let n := Z.min (Z.of_nat (length file1)) (Z.of_nat (length file2)) in
  compare_pdfs (file1 :: file2 :: rest) (Some cb) []
  = (Ok n, [1; 20; 30] ++ pdf_milestones n ++ [95; 100]).
Proof.
  intros Hcalm n. unfold compare_pdfs, save_side_by_side_pdf. fold n.
  rewrite !bind_progress_calm by done.
  erewrite bind_ok; [|erewrite bind_ok; [|by apply page_loop_trace]; reflexivity].
  rewrite !bind_progress_calm by done.
  unfold mret, run_ret, pdf_milestones. by rewrite <- !app_assoc.
Qed.

(** With two pages or more to compare, the percentages are not
    increasing: page 0 ends on 50 and page 1 starts at 40 or less. *)
Lemma pdf_progress_not_monotone cb file1 file2 rest :
  calm cb -> (2 ≤ length file1)%nat -> (2 ≤ length file2)%nat ->
  ¬ Sorted Z.le (compare_pdfs (file1 :: file2 :: rest) (Some cb) []).2.
Proof.
  intros Hcalm H1 H2. rewrite compare_pdfs_trace by done. simpl.
  set (n := Z.min _ _). assert (Hn : 2 ≤ n) by lia.
  unfold pdf_milestones, range.
  rewrite seqZ_cons by lia. rewrite seqZ_cons by lia. simpl.
  intros Hs. do 4 (apply Sorted_inv in Hs as [Hs _]).
  apply Sorted_inv in Hs as [_ Hhd]. apply HdRel_inv in Hhd.
  unfold page_percent in Hhd.
  assert (20 * Z.succ 0 / Z.max 1 n ≤ 20 / 2).
  { apply Z.div_le_compat_l; lia. }
  change (20 / 2) with 10 in H. rewrite Z.mul_0_r, Z.div_0_l in Hhd by lia. lia.
Qed.

End DocumentProgress.

(** C5 fails on the document engine: with two pages the reported
    percentages go 30, 50 and then back to 40. *)
Lemma pdf_progress_goes_backwards :
  compare_pdfs [two_pages; two_pages] (Some quiet) []
  = (Ok 2, [1; 20; 30; 30; 50; 40; 60; 95; 100]).
Proof. vm_compute. reflexivity. Qed.

(** ** The progress of the tabular engine never goes back *)

Section TabularProgress.
Context {RT : PyRuntime}.

Lemma upto_silent {A} a b (m : run A) :
  a ≤ b -> (∀ tr, (m tr).2 = tr) -> upto a b m.
Proof.
  intros Hab Hm. split; [done|]. intros tr. exists [].
  rewrite app_nil_r. split; [done|]. split; constructor.
Qed.

Lemma upto_ret {A} a b (x : A) : a ≤ b -> upto a b (mret x).
Proof. intros. by apply upto_silent. Qed.

Lemma upto_raise {A} a b e : a ≤ b -> upto a b (@raise A e).
Proof. intros. by apply upto_silent. Qed.

Lemma upto_lift {A} a b (r : result A) : a ≤ b -> upto a b (lift r).
Proof. intros. by apply upto_silent. Qed.

Lemma upto_progress a p cb : a ≤ p -> upto a p (_progress cb p).
Proof.
  intros Hap. destruct cb as [cb|]; [|by apply upto_silent].
  split; [done|]. intros tr. exists [p]. split.
  - unfold _progress. by destruct (cb tr p).
  - split; [repeat constructor|]. constructor; [lia|constructor].
Qed.

Lemma upto_weaken {A} a a' b (m : run A) : a' ≤ a -> upto a b m -> upto a' b m.
Proof.
  intros Ha [Hab Hm]. split; [lia|]. intros tr.
  destruct (Hm tr) as (ext & Heq & Hs & Hr). exists ext. split; [done|]. split; [done|].
  eapply Forall_impl; [exact Hr|]. simpl. lia.
Qed.

Lemma upto_bind {A B} a b c (m : run A) (k : A -> run B) :
  upto a b m -> b ≤ c -> (∀ x, upto b c (k x)) -> upto a c (m ≫= k).
Proof.
  intros [Hab Hm] Hbc Hk. split; [lia|]. intros tr.
  destruct (Hm tr) as (ext1 & Heq1 & Hs1 & Hr1).
  unfold mbind, run_bind. destruct (m tr) as [[x|e] tr1]; simpl in Heq1; subst tr1.
  - destruct (Hk x) as [_ Hkx]. destruct (Hkx (tr ++ ext1)) as (ext2 & Heq2 & Hs2 & Hr2).
    exists (ext1 ++ ext2). split; [by rewrite Heq2, app_assoc|]. split.
    + apply StronglySorted_app_2; [|done..].
      intros x1 x2 H1 H2. rewrite Forall_forall in Hr1, Hr2.
      specialize (Hr1 x1 H1). specialize (Hr2 x2 H2). lia.
    + apply Forall_app. split; (eapply Forall_impl; [eassumption|]); simpl; lia.
  - exists ext1. split; [done|]. split; [done|].
    eapply Forall_impl; [exact Hr1|]. simpl. lia.
Qed.

Lemma row_percent_mono i j total : 0 < total -> i ≤ j -> row_percent i total ≤ row_percent j total.
Proof.
  intros Ht Hij. unfold row_percent.
  assert (60 * i / total ≤ 60 * j / total) by (apply Z.div_le_mono; lia). lia.
Qed.

Lemma row_percent_le_90 i total : 0 < total -> i ≤ total -> row_percent i total ≤ 90.
Proof.
  intros Ht Hi. unfold row_percent.
  assert (60 * i / total ≤ 60 * total / total) by (apply Z.div_le_mono; lia).
  rewrite Z.div_mul in H by lia. lia.
Qed.

Lemma upto_write_row cb sheet1 sheet2 header_map total i row :
  upto (row_percent i total) (row_percent i total)
       (write_row cb sheet1 sheet2 header_map total (i, row)).
Proof.
  destruct row as [[r1 r2] label]. unfold write_row.
  apply (upto_bind _ (row_percent i total)); [|lia|intros _; by apply upto_ret].
  destruct (i mod 20 =? 0); [by apply upto_progress|by apply upto_ret].
Qed.

Lemma upto_write_rows cb sheet1 sheet2 header_map total rows s :
  0 < total -> 0 ≤ s -> s + Z.of_nat (length rows) ≤ total ->
  upto (row_percent s total) 90
       (for_each (write_row cb sheet1 sheet2 header_map total)
                 (zip (seqZ s (Z.of_nat (length rows))) rows)).
Proof.
  intros Ht. revert s. induction rows as [|row rows IH]; intros s Hs Hlen.
  - simpl. apply upto_ret. apply row_percent_le_90; simpl in Hlen; lia.
  - rewrite seqZ_cons by (simpl; lia). cbn [zip zip_with for_each].
    simpl length in Hlen.
    apply (upto_bind _ (row_percent s total));
      [apply upto_write_row|apply row_percent_le_90; lia|intros b].
    apply (upto_bind _ 90).
    + apply (upto_weaken (row_percent (Z.succ s) total));
        [apply row_percent_mono; lia|].
      replace (Z.pred (Z.of_nat (length (row :: rows)))) with (Z.of_nat (length rows))
        by (simpl length; lia).
      apply IH; lia.
    + lia.
    + intros bs. by apply upto_ret.
Qed.

Ltac upto_next b :=
  apply (upto_bind _ b);
  [ first [ apply upto_progress; lia | apply upto_lift; lia | apply upto_ret; lia ]
  | lia
  | intros ? ].

Lemma upto_compare_excel_files file_list opts :
  upto 0 100 (compare_excel_files file_list opts).
Proof.
  unfold compare_excel_files.
  destruct file_list as [|sheet1 [|sheet2 rest]]; [by apply upto_raise..|].
  upto_next 1. upto_next 1.
  match goal with x : (Z * Z)%type |- _ => destruct x as [key_row1 key_col1] end.
  upto_next 1.
  match goal with x : (Z * Z)%type |- _ => destruct x as [key_row2 key_col2] end.
  upto_next 5.
  match goal with |- context [if ?b then _ else _] => destruct b end;
    [by apply upto_raise|].
  upto_next 15. upto_next 30.
  apply (upto_bind _ 30); [|lia|intros rows_to_compare].
  { repeat case_bool_decide; (apply upto_ret || apply upto_raise); lia. }
  apply (upto_bind _ 90); [|lia|intros rows].
  { replace 30 with (row_percent 0 (Z.max 1 (Z.of_nat (length rows_to_compare))))
      by (unfold row_percent; by rewrite Z.mul_0_r).
    apply upto_write_rows; lia. }
  upto_next 95. upto_next 100. by apply upto_ret.
Qed.

(** Whatever the callback does, the percentages the tabular engine hands
    to it are increasing and lie between 0 and 100. *)
Lemma excel_progress_is_monotone file_list opts :
  let trace := (compare_excel_files file_list opts []).2 in
  StronglySorted Z.le trace ∧ Forall (fun p => 0 ≤ p ≤ 100) trace.
Proof.
  destruct (upto_compare_excel_files file_list opts) as [_ H].
  destruct (H []) as (ext & Heq & Hs & Hr). simpl in *. by rewrite Heq.
Qed.

End TabularProgress.

(** ** The end-to-end example *)

(** Rows [(1, "A"), (2, "B")] against [(1, "A"), (2, "C")], key ID, by
    key: row 1 matches everywhere, row 2 has "B" removed and "C" added in
    the Name column; the callback has seen 1, 5, 15, 30, 30, 95, 100. *)
Lemma end_to_end_example :
  match compare_excel_files (RT := cpython_fragment) [grid_a; grid_b] by_id [] with
  | (Ok (wb, _), trace) =>
      map (fun row : out_row =>
             (row.1, map (fun c : out_cell * out_cell =>
                            (out_value c.1, out_fill c.1, out_value c.2, out_fill c.2))
                         row.2)) (wb_rows wb)
      = [(py "1/1", [(VInt 1, MatchFill, VInt 1, MatchFill);
                     (VStr (py "A"), MatchFill, VStr (py "A"), MatchFill)]);
         (py "2/2", [(VInt 2, MatchFill, VInt 2, MatchFill);
                     (VStr (py "B"), DelFill, VStr (py "C"), AddFill)])]
      ∧ trace = [1; 5; 15; 30; 30; 95; 100]
  | _ => False
  end.
Proof. vm_compute. split; reflexivity. Qed.

(** The tabular engine too completes under a callback that fails at
    every milestone. *)
Lemma failing_callback_tabular_run_completes :
  match compare_excel_files (RT := cpython_fragment) [grid_a; grid_b]
          (with_callback by_id (Some always_failing)) [] with
  | (Ok _, trace) => trace = [1; 5; 15; 30; 30; 95; 100]
  | _ => False
  end.
Proof. vm_compute. reflexivity. Qed.

(** * Further properties of the code *)

(** ** White space around a text *)

Section StripFacts.
Context {RT : PyRuntime}.

Lemma sub_nonword_cons c x :
  sub_nonword (c :: x) = (if is_word c || is_space c then c else SPACE) :: sub_nonword x.
Proof. reflexivity. Qed.

Lemma sub_nonword_space c x :
  is_space c = true -> sub_nonword (c :: x) = c :: sub_nonword x.
Proof. intros Hs. by rewrite sub_nonword_cons, Hs, orb_true_r. Qed.

Lemma lstrip_collapse_flag p q y : lstrip (collapse_ws p y) = lstrip (collapse_ws q y).
Proof.
  destruct y as [|c y]; [done|]. cbn [collapse_ws].
  destruct (is_space c) eqn:Hs; [|done].
  destruct p, q; cbn [lstrip]; rewrite ?is_space_SPACE; done.
Qed.

Lemma lstrip_collapse_sub p x :
  lstrip (collapse_ws p (sub_nonword x)) = lstrip (collapse_ws p (sub_nonword (lstrip x))).
Proof.
  revert p. induction x as [|c x IH]; intros p; [done|].
  cbn [lstrip]. destruct (is_space c) eqn:Hs; [|done].
  rewrite sub_nonword_space by done. cbn [collapse_ws]. rewrite Hs.
  rewrite <- (lstrip_collapse_flag true p (sub_nonword (lstrip x))), <- IH.
  destruct p; cbn [lstrip]; rewrite ?is_space_SPACE; done.
Qed.

Lemma rstrip_app_rstrip a b : rstrip (a ++ b) = rstrip (a ++ rstrip b).
Proof.
  induction a as [|c a IH]; cbn [app]; [by rewrite rstrip_idem|].
  by rewrite !rstrip_cons, IH.
Qed.

(** A text made of white space only. *)
Lemma rstrip_nil_spaces x : rstrip x = [] ↔ Forall (fun c => is_space c = true) x.
Proof.
  induction x as [|c x IH]; [split; [constructor|done]|].
  rewrite rstrip_cons, Forall_cons, <- IH.
  destruct (rstrip x) as [|d r]; cbn [nonempty].
  - destruct (is_space c); split; try done. by intros [? _].
  - split; [done|]. by intros [_ ?].
Qed.

Lemma collapse_spaces_rstrip p x :
  Forall (fun c => is_space c = true) x -> rstrip (collapse_ws p (sub_nonword x)) = [].
Proof.
  intros Hx. revert p. induction Hx as [|c x Hc Hx IH]; intros p; [done|].
  rewrite sub_nonword_space by done. cbn [collapse_ws]. rewrite Hc.
  destruct p; [apply IH|]. rewrite rstrip_cons, (IH true). cbn [nonempty].
  by rewrite is_space_SPACE.
Qed.

(** Reading one more character puts a prefix before what the rest gives. *)
Lemma collapse_sub_cons p c :
  ∃ h q, ∀ y, collapse_ws p (sub_nonword (c :: y)) = h ++ collapse_ws q (sub_nonword y).
Proof.
  destruct (is_space (if is_word c || is_space c then c else SPACE)) eqn:Hs.
  - destruct p.
    + exists [], true. intros y. rewrite sub_nonword_cons. cbn [collapse_ws]. by rewrite Hs.
    + exists [SPACE], true. intros y. rewrite sub_nonword_cons. cbn [collapse_ws].
      by rewrite Hs.
  - exists [if is_word c || is_space c then c else SPACE], false.
    intros y. rewrite sub_nonword_cons. cbn [collapse_ws]. by rewrite Hs.
Qed.

Lemma rstrip_collapse_sub p x :
  rstrip (collapse_ws p (sub_nonword x)) = rstrip (collapse_ws p (sub_nonword (rstrip x))).
Proof.
  revert p. induction x as [|c x IH]; intros p; [done|].
  rewrite rstrip_cons. destruct (rstrip x) as [|d r] eqn:Hr; cbn [nonempty].
  - apply rstrip_nil_spaces in Hr.
    destruct (is_space c) eqn:Hs.
    + apply collapse_spaces_rstrip. by constructor.
    + destruct (collapse_sub_cons p c) as (h & q & Hh).
      rewrite !Hh, rstrip_app_rstrip, collapse_spaces_rstrip by done.
      by rewrite (rstrip_app_rstrip h (collapse_ws q (sub_nonword []))).
  - destruct (collapse_sub_cons p c) as (h & q & Hh).
    by rewrite !Hh, rstrip_app_rstrip, IH, <- rstrip_app_rstrip.
Qed.

Lemma lstrip_rstrip_comm z : rstrip (lstrip z) = lstrip (rstrip z).
Proof.
  induction z as [|c z IH]; [done|].
  cbn [lstrip]. rewrite rstrip_cons.
  destruct (is_space c) eqn:Hs.
  - rewrite IH. destruct (rstrip z); cbn [nonempty lstrip]; [done|]. by rewrite Hs.
  - rewrite rstrip_cons. destruct (nonempty (rstrip z)); cbn [lstrip]; by rewrite Hs.
Qed.

Lemma normalize_strip (s : pystr) :
  _normalize_header (Some (strip s)) = _normalize_header (Some s).
Proof.
  cbn [_normalize_header]. f_equal. unfold strip.
  rewrite (lstrip_rstrip_comm (collapse_ws false (sub_nonword (rstrip (lstrip s))))).
  rewrite <- rstrip_collapse_sub.
  rewrite <- (lstrip_rstrip_comm (collapse_ws false (sub_nonword (lstrip s)))).
  by rewrite <- lstrip_collapse_sub.
Qed.

(** X1: white space at either end of a text does not change its normal
    form: [_normalize_header(s.strip()) == _normalize_header(s)]. *)
Theorem normalize_ignores_surrounding_space (s : pystr) :
  _normalize_header (Some (strip s)) = _normalize_header (Some s).
Proof. apply normalize_strip. Qed.

End StripFacts.

(** ** Loops that keep the first occurrence *)

Section FirstWins.
Context {X V : Type} (keyof : X -> option (pystr * V)).

Lemma dict_has_get (d : list (pystr * V)) k : dict_has k d = bool_decide (is_Some (dict_get k d)).
Proof.
  unfold dict_has. destruct (dict_get k d) as [v|].
  - by rewrite bool_decide_eq_true_2.
  - rewrite bool_decide_eq_false_2; [done|]. by intros [? ?].
Qed.

Lemma first_step_get d x k :
  dict_get k (first_step keyof d x) =
  match dict_get k d with
  | Some v => Some v
  | None => first_match keyof k [x]
  end.
Proof.
  unfold first_step. cbn [first_match].
  destruct (keyof x) as [[k' v]|]; [|by destruct (dict_get k d)].
  unfold dict_has. destruct (dict_get k' d) as [v0|] eqn:Hk'.
  - destruct (dict_get k d) as [w|] eqn:Hk; [done|].
    rewrite bool_decide_eq_false_2; [done|]. intros ->. congruence.
  - destruct (decide (k' = k)) as [->|Hne].
    + by rewrite dict_get_set_eq, Hk', bool_decide_eq_true_2.
    + rewrite dict_get_set_ne by done. rewrite bool_decide_eq_false_2 by done.
      by destruct (dict_get k d).
Qed.

Lemma first_match_cons x l k :
  first_match keyof k (x :: l) =
  match first_match keyof k [x] with
  | Some v => Some v
  | None => first_match keyof k l
  end.
Proof.
  cbn [first_match]. destruct (keyof x) as [[k' v]|]; [|done].
  by destruct (bool_decide (k' = k)).
Qed.

Lemma first_fold_get l d k :
  dict_get k (fold_left (first_step keyof) l d) =
  match dict_get k d with
  | Some v => Some v
  | None => first_match keyof k l
  end.
Proof.
  revert d. induction l as [|x l IH]; intros d; cbn [fold_left].
  - by destruct (dict_get k d).
  - rewrite IH, first_step_get, (first_match_cons x l).
    destruct (dict_get k d); [done|]. by destruct (first_match keyof k [x]).
Qed.

(** [first_match] returns the value of the first element that carries
    the key. *)
Lemma first_match_Some l k v :
  first_match keyof k l = Some v ↔
  ∃ i x, l !! i = Some x ∧ keyof x = Some (k, v)
         ∧ ∀ j y w, (j < i)%nat -> l !! j = Some y -> keyof y ≠ Some (k, w).
Proof.
  induction l as [|x l IH].
  - split; [done|]. by intros (i & y & Hi & _).
  - cbn [first_match]. split.
    + destruct (keyof x) as [[k' v']|] eqn:Hx.
      * case_bool_decide as Hk.
        -- intros [= ->]. subst k'. exists 0%nat, x. split; [done|]. split; [done|]. lia.
        -- intros (i & y & Hi & Hy & Hmin)%IH. exists (S i), y.
           split; [done|]. split; [done|]. intros [|j] z w Hj Hz.
           ++ injection Hz as <-. rewrite Hx. congruence.
           ++ apply (Hmin j); [lia|done].
      * intros (i & y & Hi & Hy & Hmin)%IH. exists (S i), y.
        split; [done|]. split; [done|]. intros [|j] z w Hj Hz.
        -- injection Hz as <-. by rewrite Hx.
        -- apply (Hmin j); [lia|done].
    + intros ([|i] & y & Hi & Hy & Hmin).
      * injection Hi as ->. by rewrite Hy, bool_decide_eq_true_2.
      * assert (Hx : ∀ w, keyof x ≠ Some (k, w)).
        { intros w. apply (Hmin 0%nat); [lia|done]. }
        assert (Hrest : first_match keyof k l = Some v).
        { apply IH. exists i, y. split; [done|]. split; [done|].
          intros j z w Hj Hz. apply (Hmin (S j)); [lia|done]. }
        destruct (keyof x) as [[k' v']|]; [|done].
        rewrite bool_decide_eq_false_2; [done|]. intros ->. by apply (Hx v').
Qed.

(** As soon as some element carries the key, the loop has recorded it. *)
Lemma first_match_found l k i x v :
  l !! i = Some x -> keyof x = Some (k, v) ->
  ∃ j y w, (j ≤ i)%nat ∧ l !! j = Some y ∧ keyof y = Some (k, w)
           ∧ first_match keyof k l = Some w.
Proof.
  revert i. induction l as [|z l IH]; intros i Hi Hx; [done|].
  cbn [first_match]. destruct (keyof z) as [[k' v']|] eqn:Hz.
  - case_bool_decide as Hk.
    + subst k'. exists 0%nat, z, v'. split; [lia|]. done.
    + destruct i as [|i]; [injection Hi as ->; congruence|].
      destruct (IH i Hi Hx) as (j & y & w & Hj & Hy & Hk' & Hm).
      exists (S j), y, w. split; [lia|]. done.
  - destruct i as [|i]; [injection Hi as ->; congruence|].
    destruct (IH i Hi Hx) as (j & y & w & Hj & Hy & Hk' & Hm).
    exists (S j), y, w. split; [lia|]. done.
Qed.

End FirstWins.

(** ** Header extractor *)

Section HeaderExtractor.
Context {RT : PyRuntime}.

Lemma header_step_first sh header_row hdrs c :
  header_step sh header_row hdrs c = first_step (header_at sh header_row) hdrs c.
Proof.
  unfold header_step, first_step, header_at.
  destruct (cell sh header_row c); try done;
    match goal with
    | |- context [nonempty (strip ?t)] => destruct (nonempty (strip t)); [|done]
    end;
    match goal with
    | |- context [nonempty (_normalize_header ?t)] =>
        destruct (nonempty (_normalize_header t)); done
    end.
Qed.

Lemma headers_from_row_first sh header_row :
  headers_from_row sh header_row
  = fold_left (first_step (header_at sh header_row)) (range 1 (max_column sh + 1)) [].
Proof.
  unfold headers_from_row. generalize (@nil (pystr * header_entry)).
  induction (range 1 (max_column sh + 1)) as [|c l IH]; intros d; [done|].
  cbn [fold_left]. by rewrite header_step_first, IH.
Qed.

Lemma headers_from_row_get sh header_row k :
  dict_get k (headers_from_row sh header_row)
  = first_match (header_at sh header_row) k (range 1 (max_column sh + 1)).
Proof. by rewrite headers_from_row_first, first_fold_get. Qed.

Lemma nonempty_true {A} (l : list A) : nonempty l = true ↔ l ≠ [].
Proof. by destruct l. Qed.

Lemma value_None_or_not (v : value) : v = VNone ∨ v ≠ VNone.
Proof. destruct v; [by left|by right..]. Qed.

(** What a column contributes, spelled out. *)
Lemma header_at_Some sh header_row c k r c' d :
  header_at sh header_row c = Some (k, (r, c', d)) ↔
  r = header_row ∧ c' = c ∧ cell sh header_row c ≠ VNone
  ∧ d = strip (py_str (cell sh header_row c)) ∧ d ≠ []
  ∧ k = _normalize_header (Some d) ∧ k ≠ [].
Proof.
  unfold header_at.
  destruct (cell sh header_row c) eqn:Hv;
    [split; [done|]; by intros (_ & _ & ? & _)|..];
    (destruct (nonempty (strip _) && nonempty (_normalize_header _)) eqn:Hb;
     [apply andb_true_iff in Hb as [Hd Hn]; apply nonempty_true in Hd, Hn;
      split; [by intros [= <- <- <- <-]|by intros (-> & -> & _ & -> & _ & -> & _)]
     |apply andb_false_iff in Hb;
      split; [done|]; intros (_ & _ & _ & -> & Hd & -> & Hn);
      exfalso; destruct Hb as [Hb|Hb]; apply not_true_iff_false in Hb;
      apply Hb, nonempty_true; done]).
Qed.

(** X2: the header map of a row holds, for a normalized header, the
    left-most column of the row that carries it: the entry [(row, col,
    display)] under [norm] means that the cell at [col] is not [None],
    that [display] is its text with the surrounding white space removed
    and is not empty, that [norm] is the normal form of [display] and is
    not empty, and that no column to the left has the same normal form. *)
Theorem headers_from_row_leftmost (sh : sheet) (header_row : Z)
    (norm : pystr) (r c : Z) (display : pystr) :
  dict_get norm (headers_from_row sh header_row) = Some (r, c, display) ↔
  r = header_row ∧ 1 ≤ c ≤ max_column sh
  ∧ cell sh header_row c ≠ VNone
  ∧ display = strip (py_str (cell sh header_row c)) ∧ display ≠ []
  ∧ norm = _normalize_header (Some display) ∧ norm ≠ []
  ∧ ∀ c', 1 ≤ c' < c ->
      cell sh header_row c' = VNone
      ∨ _normalize_header (Some (strip (py_str (cell sh header_row c')))) ≠ norm.
Proof.
  rewrite headers_from_row_get, first_match_Some. unfold range. split.
  - intros (i & x & Hi & Hx & Hmin).
    apply lookup_seqZ in Hi as [-> Hi].
    apply header_at_Some in Hx as (-> & Hc & Hv & -> & Hd & -> & Hn).
    split; [done|]. split; [lia|]. subst c. repeat (split; [done|]).
    intros c' Hc'.
    destruct (value_None_or_not (cell sh header_row c')) as [|Hv']; [by left|right].
    intros Heq.
    apply (Hmin (Z.to_nat (c' - 1)) c'
                (header_row, c', strip (py_str (cell sh header_row c')))); [lia| |].
    + apply lookup_seqZ. lia.
    + apply header_at_Some. repeat (split; [done|]).
      split; [|by rewrite Heq].
      intros Hd'. rewrite Hd' in Heq. by rewrite <- Heq in Hn.
  - intros (-> & Hc & Hv & -> & Hd & -> & Hn & Hleft).
    exists (Z.to_nat (c - 1)), c. split; [apply lookup_seqZ; lia|].
    split; [by apply header_at_Some|].
    intros j y [[r' c''] d'] Hj Hy Hat.
    apply lookup_seqZ in Hy as [-> Hy].
    apply header_at_Some in Hat as (_ & _ & Hv' & -> & _ & Hk & _).
    destruct (Hleft (1 + Z.of_nat j)) as [?|Hne]; [lia|done|].
    by apply Hne.
Qed.

Lemma headers_from_row_found sh r c key s :
  1 ≤ c ≤ max_column sh -> cell sh r c = VStr s ->
  _normalize_header (Some s) = key -> key ≠ [] ->
  ∃ c0 d, dict_get key (headers_from_row sh r) = Some (r, c0, d) ∧ 1 ≤ c0 ≤ c.
Proof.
  intros Hc Hv Hs Hkey.
  assert (Hat : header_at sh r c = Some (key, (r, c, strip s))).
  { apply header_at_Some. rewrite Hv. cbn [py_str].
    rewrite normalize_strip, Hs. repeat (split; [done|]).
    split; [|done]. intros Hd. apply Hkey.
    by rewrite <- Hs, <- normalize_strip, Hd. }
  destruct (first_match_found (header_at sh r) (range 1 (max_column sh + 1)) key
              (Z.to_nat (c - 1)) c (r, c, strip s))
    as (j & y & [[r' c0] d] & Hj & Hy & Hat' & Hm); [apply lookup_seqZ; lia|done|].
  apply lookup_seqZ in Hy as [-> Hy].
  apply header_at_Some in Hat' as (-> & -> & _).
  exists (1 + Z.of_nat j), d. rewrite headers_from_row_get. split; [done|lia].
Qed.

Lemma located_key_in_headers (sh : sheet) (key : pystr) (top r c : Z) :
  key ≠ [] ->
  locate_header_row sh key top = Ok (r, c) ->
  ∃ c0 d, dict_get key (headers_from_row sh r) = Some (r, c0, d) ∧ 1 ≤ c0 ≤ c.
Proof.
  intros Hkey Hloc. pose proof (locate_header_row_spec sh key top) as Hspec.
  rewrite Hloc in Hspec. destruct Hspec as [(_ & Hc & Hcell) _].
  apply is_key_cell_inv in Hcell as (s & Hv & _ & Hs).
  by apply (headers_from_row_found sh r c key s).
Qed.

(** X3: the locator and the extractor agree: when the key header is found
    at [(r, c)] and its normal form is not empty, the header map of row
    [r] has an entry for it, at that column or at one to its left with
    the same normal form. *)
Theorem located_key_is_a_header (sh : sheet) (key : pystr) (top r c : Z) :
  key ≠ [] ->
  locate_header_row sh key top = Ok (r, c) ->
  ∃ c0 d, dict_get key (headers_from_row sh r) = Some (r, c0, d) ∧ 1 ≤ c0 ≤ c.
Proof. apply located_key_in_headers. Qed.

End HeaderExtractor.

Lemma located_key_is_a_header_witness :
  ∃ c0 d, dict_get (py "id") (headers_from_row (RT := cpython_fragment) grid_a 1)
          = Some (1, c0, d) ∧ 1 ≤ c0 ≤ 1.
Proof.
  apply (located_key_is_a_header (RT := cpython_fragment) grid_a (py "id") 20 1 1).
  - discriminate.
  - vm_compute. reflexivity.
Defined.

(** ** Sorting what is sorted already *)

Section SortFixpoint.
Context {A : Type} (lt : A -> A -> bool).

Lemma py_sorted_cons x l : py_sorted lt (x :: l) = insert_sorted lt x (py_sorted lt l).
Proof. done. Qed.

Lemma py_sorted_fixpoint l : Sorted (not_after lt) l -> py_sorted lt l = l.
Proof.
  induction 1 as [|x l Hl IH Hhd]; [done|].
  rewrite py_sorted_cons, IH.
  destruct Hhd as [|y l Hxy]; [done|]. cbn [insert_sorted].
  unfold not_after in Hxy. by rewrite Hxy.
Qed.

Lemma py_sorted_idem l :
  (∀ x y, lt x y = true -> lt y x = false) ->
  (∀ x y z, lt x y = false -> lt y z = false -> lt x z = false) ->
  py_sorted lt (py_sorted lt l) = py_sorted lt l.
Proof. intros Ha Hn. by apply py_sorted_fixpoint, py_sorted_Sorted. Qed.

End SortFixpoint.

Section SortedKeys.
Context {RT : PyRuntime}.

(** X4: sorting keys that [_sort_keys] has sorted changes nothing, when
    no key reads as NaN; and with such keys too on a runtime whose
    [sorted] never returns a key below the one before it. *)
Theorem sort_keys_idempotent (keys : list pystr) :
  no_nan_key keys
  ∨ (∀ l, Sorted (not_after (fun x y => sort_key_lt (keyfn x) (keyfn y))) (_sort_keys l)) ->
  _sort_keys (_sort_keys keys) = _sort_keys keys.
Proof.
  intros [Hn|Hs]; apply _sort_keys_run; [|by apply Hs]. unfold _sort_keys.
  rewrite list_sort_stable by by apply key_lt_consistent.
  apply py_sorted_Sorted_asym. intros x y. apply sort_key_lt_asym.
Qed.

End SortedKeys.

Lemma sort_keys_idempotent_witness :
  _sort_keys (RT := cpython_fragment)
    (_sort_keys (RT := cpython_fragment) [py "b"; py "10"; py "9"; py "a"])
  = _sort_keys (RT := cpython_fragment) [py "b"; py "10"; py "9"; py "a"]
  ∧ _sort_keys (RT := cpython_fragment) [py "b"; py "10"; py "9"; py "a"]
    = [py "9"; py "10"; py "a"; py "b"].
Proof.
  split; [|reflexivity].
  apply (sort_keys_idempotent (RT := cpython_fragment)). left.
  intros k f Hk. revert f. rewrite !elem_of_cons, elem_of_nil in Hk.
  destruct Hk as [->|[->|[->|[->|[]]]]]; intros f [= <-]; reflexivity.
Defined.

(** ** The order of the header map *)

Section HeaderOrder.
Context {RT : PyRuntime}.

Lemma header_fold_by_column sh header_row l d :
  StronglySorted Z.lt l ->
  StronglySorted by_column d ->
  (∀ x c, x ∈ d -> c ∈ l -> x.2.1.2 < c) ->
  StronglySorted by_column (fold_left (header_step sh header_row) l d).
Proof.
  revert d. induction l as [|c l IH]; intros d Hl Hd Hlt; [done|].
  cbn [fold_left]. apply StronglySorted_cons in Hl as [Hc Hl].
  rewrite Forall_forall in Hc.
  rewrite header_step_first. unfold first_step.
  destruct (header_at sh header_row c) as [[k [[r c'] disp]]|] eqn:Hat.
  - apply header_at_Some in Hat as (_ & -> & _).
    rewrite dict_has_get. case_bool_decide as Hk.
    + apply IH; [done..|]. intros x c' Hx Hc'. apply Hlt; [done|by right].
    + assert (Hfresh : k ∉ d.*1).
      { apply dict_get_None. destruct (dict_get k d) eqn:E; [|done].
        destruct Hk. by eexists. }
      rewrite dict_set_fresh by done. apply IH; [done|..].
      * apply StronglySorted_app_2; [|done|repeat constructor].
        intros x y Hx ->%list_elem_of_singleton. unfold by_column. cbn.
        apply Hlt; [done|by left].
      * intros x c' [Hx| ->%list_elem_of_singleton]%elem_of_app Hc'.
        -- apply Hlt; [done|by right].
        -- cbn. by apply Hc.
  - apply IH; [done..|]. intros x c' Hx Hc'. apply Hlt; [done|by right].
Qed.

Lemma seqZ_StronglySorted (n : nat) a : StronglySorted Z.lt (seqZ a (Z.of_nat n)).
Proof.
  revert a. induction n as [|n IH]; intros a; [constructor|].
  rewrite seqZ_cons by lia. constructor.
  - replace (Z.pred (Z.of_nat (S n))) with (Z.of_nat n) by lia. apply IH.
  - apply Forall_forall. intros c Hc%elem_of_seqZ. lia.
Qed.

Lemma range_StronglySorted a b : StronglySorted Z.lt (range a b).
Proof.
  unfold range. destruct (decide (0 ≤ b - a)) as [H|H].
  - rewrite <- (Z2Nat.id (b - a)) by done. apply seqZ_StronglySorted.
  - replace (seqZ a (b - a)) with (@nil Z); [constructor|].
    symmetry. apply length_zero_iff_nil. rewrite length_seqZ. lia.
Qed.

Lemma headers_from_row_by_column sh header_row :
  StronglySorted by_column (headers_from_row sh header_row).
Proof.
  apply header_fold_by_column; [apply range_StronglySorted|constructor|].
  intros x c Hx. by apply elem_of_nil in Hx.
Qed.

Lemma norms_of_items (hmap : list (pystr * header_entry)) :
  map fst (map (fun '(norm, t) => (norm, t.1.2)) hmap) = hmap.*1.
Proof.
  induction hmap as [|[k [[r c] d]] l IH]; [done|]. cbn [map fmap list_fmap].
  f_equal. exact IH.
Qed.

Lemma ordered_norms_perm (hmap : list (pystr * header_entry)) :
  _ordered_norms_from_map hmap ≡ₚ hmap.*1.
Proof.
  unfold _ordered_norms_from_map. rewrite py_sorted_perm. by rewrite norms_of_items.
Qed.

(** X5: a header map built by [headers_from_row] already stands in the
    order of the columns, so [_ordered_norms_from_map], which sorts its
    entries by column, returns its keys in the order it holds them. *)
Theorem header_order_is_column_order (sh : sheet) (header_row : Z) :
  _ordered_norms_from_map (headers_from_row sh header_row)
  = (headers_from_row sh header_row).*1.
Proof.
  unfold _ordered_norms_from_map. rewrite py_sorted_fixpoint.
  - apply norms_of_items.
  - apply StronglySorted_Sorted.
    pose proof (headers_from_row_by_column sh header_row) as Hs.
    induction Hs as [|[k [[r c] d]] l Hl IH Hall]; [constructor|].
    cbn [map]. constructor; [done|].
    rewrite Forall_forall. intros [k' c'] Hin.
    apply list_elem_of_fmap in Hin as ([k'' [[r'' c''] d'']] & [= -> ->] & Hin).
    rewrite Forall_forall in Hall. specialize (Hall _ Hin).
    unfold by_column in Hall. cbn in Hall. unfold not_after. cbn. lia.
Qed.

End HeaderOrder.

(** ** The unified header list *)

Section UnifiedHeaders.

Lemma unified_headers_steps key (h1 h2 : list (pystr * header_entry)) cm :
  unified_headers key h1 h2 cm
  = fold_left (file2_step key
                 (fold_left (file1_step key cm) (_ordered_norms_from_map h1)
                    (if dict_has key h1 || dict_has key h2 then [key] else [], ∅)).2)
      (_ordered_norms_from_map h2)
      (fold_left (file1_step key cm) (_ordered_norms_from_map h1)
         (if dict_has key h1 || dict_has key h2 then [key] else [], ∅)).1.
Proof.
  unfold unified_headers.
  change (fold_left _ (_ordered_norms_from_map h1) _)
    with (fold_left (file1_step key cm) (_ordered_norms_from_map h1)
            (if dict_has key h1 || dict_has key h2 then [key] else [], ∅)).
  by destruct (fold_left (file1_step key cm) _ _) as [hl used].
Qed.

Lemma file1_step_eq (key : pystr) (cm : list (pystr * pystr))
    (hl : list pystr) (used : gset pystr) (x : pystr) :
  file1_step key cm (hl, used) x =
  if bool_decide (x = key) then (hl, used)
  else (if bool_decide (x ∈ hl) then hl else hl ++ [x],
        match dict_get x cm with
        | Some (c :: partner) => {[c :: partner]} ∪ used
        | _ => used
        end).
Proof.
  unfold file1_step. case_bool_decide; [done|].
  by destruct (dict_get x cm) as [[|c partner]|].
Qed.

Lemma file1_fold (key : pystr) (cm : list (pystr * pystr)) (l hl : list pystr)
    (used : gset pystr) :
  NoDup hl ->
  let st := fold_left (file1_step key cm) l (hl, used) in
  NoDup st.1
  ∧ (∃ ext, st.1 = hl ++ ext)
  ∧ (∀ h, h ∈ st.1 ↔ h ∈ hl ∨ (h ∈ l ∧ h ≠ key))
  ∧ (∀ p, p ∈ st.2 ↔
       p ∈ used ∨ ∃ g, g ∈ l ∧ g ≠ key ∧ dict_get g cm = Some p ∧ p ≠ []).
Proof.
  revert hl used. induction l as [|x l IH]; intros hl used Hnd; cbn [fold_left].
  - split; [done|]. split; [exists []; by rewrite app_nil_r|].
    split; intros y; cbn [fst snd].
    + rewrite elem_of_nil. tauto.
    + split; [tauto|]. intros [?|(g & Hg & _)]; [done|]. by apply elem_of_nil in Hg.
  - rewrite file1_step_eq. case_bool_decide as Hx.
    + subst x. destruct (IH hl used Hnd) as (H1 & H2 & H3 & H4).
      split; [done|]. split; [done|]. split.
      * intros h. rewrite H3, elem_of_cons. tauto.
      * intros p. rewrite H4. split.
        -- intros [?|(g & Hg & Hrest)]; [by left|right]. exists g. split; [by right|done].
        -- intros [?|(g & Hg & Hne & Hrest)]; [by left|right].
           apply elem_of_cons in Hg as [->|Hg]; [done|]. by exists g.
    + set (hl' := if bool_decide (x ∈ hl) then hl else hl ++ [x]).
      set (used' := match dict_get x cm with
                    | Some (c :: partner) => {[c :: partner]} ∪ used
                    | _ => used
                    end).
      assert (Hnd' : NoDup hl').
      { subst hl'. case_bool_decide; [done|].
        apply NoDup_app. split; [done|]. split; [|apply NoDup_singleton].
        by intros y Hy ->%list_elem_of_singleton. }
      assert (Hpre : ∃ e, hl' = hl ++ e).
      { subst hl'. case_bool_decide; [exists []; by rewrite app_nil_r|by eexists]. }
      assert (Hmem : ∀ h, h ∈ hl' ↔ h ∈ hl ∨ h = x).
      { intros h. subst hl'. case_bool_decide.
        - split; [tauto|]. by intros [?| ->].
        - by rewrite elem_of_app, list_elem_of_singleton. }
      assert (Hused : ∀ p, p ∈ used' ↔ p ∈ used ∨ (dict_get x cm = Some p ∧ p ≠ [])).
      { intros p. subst used'. destruct (dict_get x cm) as [[|c partner]|].
        - split; [tauto|]. intros [?|[[= <-] ?]]; done.
        - rewrite elem_of_union, elem_of_singleton. split.
          + intros [->|?]; [by right|by left].
          + intros [?|[[= <-] ?]]; [by right|by left].
        - split; [tauto|]. by intros [?|[? ?]]. }
      destruct Hpre as [e He].
      destruct (IH hl' used' Hnd') as (H1 & (ext & H2) & H3 & H4).
      split; [done|]. split; [exists (e ++ ext); by rewrite H2, He, app_assoc|]. split.
      * intros h. rewrite H3, Hmem, elem_of_cons. split; [|tauto].
        intros [[?| ->]|?]; [tauto| |tauto]. right. by split; [left|].
      * intros p. rewrite H4, Hused. split.
        -- intros [[?|[Hget Hp]]|(g & Hg & Hrest)]; [by left|right|right].
           ++ exists x. split; [by left|done].
           ++ exists g. split; [by right|done].
        -- intros [?|(g & Hg & Hne & Hget & Hp)]; [tauto|].
           apply elem_of_cons in Hg as [->|Hg]; [tauto|].
           right. by exists g.
Qed.

Lemma file2_step_eq (key : pystr) (used : gset pystr) (hl : list pystr) (x : pystr) :
  file2_step key used hl x =
  if bool_decide (x = key) then hl
  else if bool_decide (x ∈ hl) || bool_decide (x ∈ used) then hl
  else hl ++ [x].
Proof. done. Qed.

Lemma file2_fold (key : pystr) (used : gset pystr) (l hl : list pystr) :
  NoDup hl ->
  let res := fold_left (file2_step key used) l hl in
  NoDup res
  ∧ (∃ ext, res = hl ++ ext)
  ∧ (∀ h, h ∈ res ↔ h ∈ hl ∨ (h ∈ l ∧ h ≠ key ∧ h ∉ used)).
Proof.
  revert hl. induction l as [|x l IH]; intros hl Hnd; cbn [fold_left].
  - split; [done|]. split; [exists []; by rewrite app_nil_r|].
    intros h. rewrite elem_of_nil. tauto.
  - rewrite file2_step_eq. case_bool_decide as Hx.
    { destruct (IH hl Hnd) as (H1 & H2 & H3). split; [done|]. split; [done|].
      intros h. rewrite H3, elem_of_cons. split; [tauto|].
      intros [?|([->|?] & Hne & Hu)]; tauto. }
    destruct (decide (x ∈ hl)) as [Hin|Hin].
    { rewrite (bool_decide_eq_true_2 _ Hin). cbn [orb].
      destruct (IH hl Hnd) as (H1 & H2 & H3). split; [done|]. split; [done|].
      intros h. rewrite H3, elem_of_cons. split; [tauto|].
      intros [?|([->|?] & Hne & Hu)]; tauto. }
    rewrite (bool_decide_eq_false_2 _ Hin). cbn [orb].
    case_bool_decide as Hu.
    { destruct (IH hl Hnd) as (H1 & H2 & H3). split; [done|]. split; [done|].
      intros h. rewrite H3, elem_of_cons. split; [tauto|].
      intros [?|([->|?] & Hne & Hu')]; tauto. }
    assert (Hnd' : NoDup (hl ++ [x])).
    { apply NoDup_app. split; [done|]. split; [|apply NoDup_singleton].
      by intros y Hy ->%list_elem_of_singleton. }
    destruct (IH (hl ++ [x]) Hnd') as (H1 & (ext & H2) & H3).
    split; [done|]. split; [exists ([x] ++ ext); by rewrite H2, app_assoc|].
    intros h. rewrite H3, elem_of_app, list_elem_of_singleton, elem_of_cons.
    split; [|tauto]. intros [[?| ->]|?]; tauto.
Qed.

Lemma dict_has_true {V} (d : list (pystr * V)) k : dict_has k d = true ↔ k ∈ d.*1.
Proof.
  unfold dict_has. destruct (dict_get k d) eqn:E.
  - split; [|done]. intros _. destruct (decide (k ∈ d.*1)) as [|Hn]; [done|].
    apply dict_get_None in Hn. congruence.
  - apply dict_get_None in E. split; [done|]. intros. done.
Qed.

Lemma unified_headers_facts (key_header_norm : pystr)
    (headers1_row headers2_row : list (pystr * header_entry))
    (col_match : list (pystr * pystr)) :
  let header_list := unified_headers key_header_norm headers1_row headers2_row col_match in
  NoDup header_list
  ∧ (∀ h, h ∈ header_list ↔
       h ∈ headers1_row.*1
       ∨ (h ∈ headers2_row.*1
          ∧ (h = key_header_norm
             ∨ ¬ taken_by_file1 key_header_norm headers1_row col_match h)))
  ∧ (key_header_norm ∈ header_list -> ∃ rest, header_list = key_header_norm :: rest).
Proof.
  cbn zeta. rewrite unified_headers_steps.
  set (hl0 := if dict_has _ _ || dict_has _ _ then [key_header_norm] else []).
  assert (Hnd0 : NoDup hl0).
  { subst hl0. destruct (_ || _); [apply NoDup_singleton|constructor]. }
  assert (Hmem0 : ∀ h, h ∈ hl0 ↔
            h = key_header_norm
            ∧ (key_header_norm ∈ headers1_row.*1 ∨ key_header_norm ∈ headers2_row.*1)).
  { intros h. subst hl0. rewrite <- !dict_has_true.
    destruct (dict_has key_header_norm headers1_row),
             (dict_has key_header_norm headers2_row); cbn [orb];
      rewrite ?list_elem_of_singleton, ?elem_of_nil; split; try tauto;
      intros [_ [?|?]]; done. }
  destruct (file1_fold key_header_norm col_match
              (_ordered_norms_from_map headers1_row) hl0 ∅ Hnd0)
    as (Hnd1 & (e1 & Hpre1) & Hmem1 & Hused).
  set (st := fold_left (file1_step key_header_norm col_match) _ _) in *.
  destruct (file2_fold key_header_norm st.2
              (_ordered_norms_from_map headers2_row) st.1 Hnd1)
    as (Hnd2 & (e2 & Hpre2) & Hmem2).
  set (res := fold_left (file2_step key_header_norm st.2) _ _) in *.
  assert (Hu : ∀ p, p ∈ st.2 ↔ taken_by_file1 key_header_norm headers1_row col_match p).
  { intros p. rewrite Hused. unfold taken_by_file1. split.
    - intros [H|(g & Hg & Hrest)]; [by apply elem_of_empty in H|].
      exists g. by rewrite <- ordered_norms_perm.
    - intros (g & Hg & Hrest). right. exists g. by rewrite ordered_norms_perm. }
  split; [done|]. split.
  - intros h. rewrite Hmem2, Hmem1, Hmem0, !ordered_norms_perm, Hu.
    destruct (decide (h = key_header_norm)) as [->|Hne]; [tauto|].
    split; [tauto|]. intros [?|[? [?|?]]]; tauto.
  - intros Hin. apply Hmem2 in Hin as [Hin|(_ & Hne & _)]; [|done].
    apply Hmem1 in Hin as [Hin|(_ & Hne)]; [|done].
    assert (Hhl0 : hl0 = [key_header_norm]).
    { subst hl0. destruct (_ || _); [done|by apply elem_of_nil in Hin]. }
    exists (e1 ++ e2). by rewrite Hpre2, Hpre1, Hhl0, <- app_assoc.
Qed.

(** X6: the unified header list has no repetition; it holds every header
    of file 1, and those headers of file 2 that are the key header or
    that no file-1 header other than the key was matched to, and nothing
    else; and the key header, when either file has it, comes first. *)
Theorem unified_headers_spec (key_header_norm : pystr)
    (headers1_row headers2_row : list (pystr * header_entry))
    (col_match : list (pystr * pystr)) :
  let header_list := unified_headers key_header_norm headers1_row headers2_row col_match in
  NoDup header_list
  ∧ (∀ h, h ∈ header_list ↔
       h ∈ headers1_row.*1
       ∨ (h ∈ headers2_row.*1
          ∧ (h = key_header_norm
             ∨ ¬ taken_by_file1 key_header_norm headers1_row col_match h)))
  ∧ (key_header_norm ∈ header_list -> ∃ rest, header_list = key_header_norm :: rest).
Proof. apply unified_headers_facts. Qed.

End UnifiedHeaders.

(** ** The greedy matching leaves no good pair unmatched *)

Section GreedyMaximal.
Context {RT : PyRuntime}.

Lemma column_scores_elem hs1 hs2 sheet1 sheet2 hr1 hr2 wn wd n h1 r1 c1 d1 h2 r2 c2 d2 :
  (h1, (r1, c1, d1)) ∈ hs1 -> (h2, (r2, c2, d2)) ∈ hs2 ->
  ((wn * Q2F (_name_ratio d1 d2)
    + wd * Q2F (_jaccard (samples_get h1 (sample_dict hs1 sheet1 hr1 n))
                         (samples_get h2 (sample_dict hs2 sheet2 hr2 n))))%float,
   h1, h2, _name_ratio d1 d2,
   _jaccard (samples_get h1 (sample_dict hs1 sheet1 hr1 n))
            (samples_get h2 (sample_dict hs2 sheet2 hr2 n)))
  ∈ column_scores hs1 hs2 sheet1 sheet2 hr1 hr2 wn wd n.
Proof.
  intros H1 H2. unfold column_scores. rewrite list_elem_of_In, in_flat_map.
  exists (h1, (r1, c1, d1)). split; [by apply list_elem_of_In|].
  apply in_map_iff. exists (h2, (r2, c2, d2)). split; [done|by apply list_elem_of_In].
Qed.

(** When no score is NaN the sort leaves the scores in descending order. *)
Lemma scores_sorted_descending (scores : list score_entry) :
  (∀ e, e ∈ scores -> is_nan (entry_score e) = false) ->
  StronglySorted descending
    (reverse (list_sort (fun x y => (entry_score x <? entry_score y)%float)
                        (reverse scores))).
Proof.
  intros Hn.
  assert (Hr : ∀ e, e ∈ reverse scores -> is_nan (entry_score e) = false).
  { intros e He. by apply Hn, elem_of_reverse. }
  rewrite list_sort_stable.
  2:{ split.
      - intros x y _ _. apply ltb_asym.
      - intros x y z _ Hy _. apply ltb_negtrans. by apply Hr. }
  eapply StronglySorted_weaken_on; [|apply StronglySorted_reverse].
  { intros a b _ _ H. exact H. }
  apply Sorted_StronglySorted_on;
    [|apply py_sorted_Sorted_asym; intros x y; apply ltb_asym].
  intros a b c Ha Hb Hc. unfold not_after. intros H1 H2.
  eapply ltb_negtrans; [|exact H2|exact H1].
  apply Hr. by rewrite <- (py_sorted_elem_of
    (fun x y => (entry_score x <? entry_score y)%float)).
Qed.

(** The greedy pass only adds to what is mapped, and once it is through,
    every entry not below [min_score] has one of its two headers mapped. *)
Lemma greedy_accept_maximal (min_score : float) (scores : list score_entry)
    (mapped1 mapped2 : gset pystr) (mapping : list (pystr * pystr)) :
  (∀ k, k ∈ mapping.*1 ↔ k ∈ mapped1) ->
  (∀ v, v ∈ mapping.*2 ↔ v ∈ mapped2) ->
  (∀ e, e ∈ scores -> is_nan (entry_score e) = false) ->
  StronglySorted descending scores ->
  let res := greedy_accept min_score scores mapped1 mapped2 mapping in
  (∀ k, k ∈ mapped1 -> k ∈ res.*1) ∧ (∀ v, v ∈ mapped2 -> v ∈ res.*2)
  ∧ ∀ sc h1 h2 ns ds, (sc, h1, h2, ns, ds) ∈ scores -> (sc <? min_score)%float = false ->
      h1 ∈ res.*1 ∨ h2 ∈ res.*2.
Proof.
  revert mapped1 mapped2 mapping.
  induction scores as [|[[[[score h1] h2] ns] ds] rest IH];
    intros mapped1 mapped2 mapping Hk Hv Hnan Hs; cbn [greedy_accept].
  - split; [intros k; apply Hk|]. split; [intros v; apply Hv|].
    intros sc g1 g2 ns ds Hin. by apply elem_of_nil in Hin.
  - apply StronglySorted_cons in Hs as [Hhd Hs]. rewrite Forall_forall in Hhd.
    assert (Hnan' : ∀ e, e ∈ rest -> is_nan (entry_score e) = false).
    { intros e He. apply Hnan. by right. }
    specialize (IH mapped1 mapped2 mapping Hk Hv Hnan' Hs) as IH0.
    destruct (score <? min_score)%float eqn:Hlow.
    { split; [intros k; apply Hk|]. split; [intros v; apply Hv|].
      intros sc g1 g2 ns' ds' Hin Hsc. exfalso.
      apply elem_of_cons in Hin as [[= -> _ _ _ _]|Hin]; [congruence|].
      pose proof (Hhd _ Hin) as Hd. unfold descending, entry_score in Hd. cbn in Hd.
      pose proof (Hnan' _ Hin) as Hn. unfold entry_score in Hn. cbn in Hn.
      pose proof (ltb_negtrans _ _ _ Hn Hd Hsc). congruence. }
    destruct (decide (h1 ∈ mapped1)) as [Hm1|Hm1].
    { rewrite (bool_decide_eq_true_2 _ Hm1). cbn [orb].
      destruct IH0 as (G1 & G2 & G3).
      split; [done|]. split; [done|].
      intros sc g1 g2 ns' ds' Hin Hsc.
      apply elem_of_cons in Hin as [[= -> -> -> _ _]|Hin]; [left; by apply G1|].
      by apply (G3 sc g1 g2 ns' ds'). }
    rewrite (bool_decide_eq_false_2 _ Hm1). cbn [orb].
    case_bool_decide as Hm2.
    { destruct IH0 as (G1 & G2 & G3).
      split; [done|]. split; [done|].
      intros sc g1 g2 ns' ds' Hin Hsc.
      apply elem_of_cons in Hin as [[= -> -> -> _ _]|Hin]; [right; by apply G2|].
      by apply (G3 sc g1 g2 ns' ds'). }
    assert (Hfresh : h1 ∉ mapping.*1) by (by rewrite Hk).
    rewrite dict_set_fresh by done.
    destruct (IH ({[h1]} ∪ mapped1) ({[h2]} ∪ mapped2) (mapping ++ [(h1, h2)]))
      as (G1 & G2 & G3); [| |done|done|].
    { intros k. rewrite fmap_app, elem_of_app, elem_of_union, Hk. cbn.
      rewrite list_elem_of_singleton, elem_of_singleton. tauto. }
    { intros v. rewrite fmap_app, elem_of_app, elem_of_union, Hv. cbn.
      rewrite list_elem_of_singleton, elem_of_singleton. tauto. }
    split; [intros k Hin; apply G1, elem_of_union; by right|].
    split; [intros v Hin; apply G2, elem_of_union; by right|].
    intros sc g1 g2 ns' ds' Hin Hsc.
    apply elem_of_cons in Hin as [[= -> -> -> _ _]|Hin].
    + left. apply G1, elem_of_union. left. by apply elem_of_singleton.
    + by apply (G3 sc g1 g2 ns' ds').
Qed.

(** X7: the matching is maximal. When no combined score of a header of
    file 1 and a header of file 2 is NaN, then whenever two headers have
    a combined score (as the code computes it in double precision) that
    is not below [min_score], at least one of the two has been matched
    (to the other or to a third). *)
Theorem match_columns_maximal
    (headers1_row headers2_row : list (pystr * header_entry))
    (sheet1 sheet2 : sheet) (header_row1 header_row2 : Z)
    (weight_name weight_data min_score : float) (sample_size : Z)
    (h1 h2 : pystr) (e1 e2 : header_entry) :
  NoDup headers1_row.*1 -> NoDup headers2_row.*1 ->
  (∀ g1 f1 g2 f2,
     dict_get g1 headers1_row = Some f1 -> dict_get g2 headers2_row = Some f2 ->
     is_nan (combined_score sheet1 sheet2 header_row1 header_row2
               weight_name weight_data sample_size f1 f2) = false) ->
  dict_get h1 headers1_row = Some e1 ->
  dict_get h2 headers2_row = Some e2 ->
  (combined_score sheet1 sheet2 header_row1 header_row2
     weight_name weight_data sample_size e1 e2 <? min_score)%float = false ->
  let col_match :=
    match_columns_by_data headers1_row headers2_row sheet1 sheet2
      header_row1 header_row2 weight_name weight_data min_score sample_size in
  h1 ∈ col_match.*1 ∨ h2 ∈ col_match.*2.
Proof.
  intros Hnd1 Hnd2 Hnan Hg1%dict_get_Some_elem Hg2%dict_get_Some_elem Hsc col_match.
  subst col_match. unfold match_columns_by_data.
  destruct e1 as [[r1 c1] d1], e2 as [[r2 c2] d2].
  pose proof (column_scores_elem headers1_row headers2_row sheet1 sheet2
                header_row1 header_row2 weight_name weight_data sample_size
                _ _ _ _ _ _ _ _ Hg1 Hg2) as Hin.
  rewrite (sample_dict_get _ _ _ _ _ _ _ _ Hnd1 Hg1) in Hin.
  rewrite (sample_dict_get _ _ _ _ _ _ _ _ Hnd2 Hg2) in Hin.
  set (scores := column_scores _ _ _ _ _ _ _ _ _) in *.
  assert (Hscores : ∀ e, e ∈ scores -> is_nan (entry_score e) = false).
  { intros [[[[sc g1] g2] ns] ds] He. subst scores.
    apply elem_of_column_scores in He
      as (q1 & k1 & t1 & q2 & k2 & t2 & Hh1 & Hh2 & ->).
    rewrite (sample_dict_get _ _ _ _ _ _ _ _ Hnd1 Hh1).
    rewrite (sample_dict_get _ _ _ _ _ _ _ _ Hnd2 Hh2).
    apply (Hnan g1 (q1, k1, t1) g2 (q2, k2, t2)); by apply dict_get_elem_of. }
  rewrite <- sorted_scores_perm in Hin.
  destruct (greedy_accept_maximal min_score
              (reverse (list_sort (fun x y => (entry_score x <? entry_score y)%float)
                                  (reverse scores))) ∅ ∅ []
              ltac:(intros k; cbn; rewrite elem_of_nil, elem_of_empty; tauto)
              ltac:(intros k; cbn; rewrite elem_of_nil, elem_of_empty; tauto))
    as (_ & _ & G).
  - intros e He. apply Hscores. by rewrite <- sorted_scores_perm.
  - by apply scores_sorted_descending.
  - by apply (G _ _ _ _ _ Hin).
Qed.

End GreedyMaximal.

Lemma match_columns_maximal_witness :
  let hs1 := headers_from_row (RT := cpython_fragment) grid_a 1 in
  let hs2 := headers_from_row (RT := cpython_fragment) grid_b 1 in
  let col_match :=
    match_columns_by_data (RT := cpython_fragment) hs1 hs2 grid_a grid_b 1 1
      (weight_name by_id) (weight_data by_id) (min_score by_id) 40 in
  py "name" ∈ col_match.*1 ∨ py "name" ∈ col_match.*2.
Proof.
  intros hs1 hs2 col_match.
  apply (match_columns_maximal (RT := cpython_fragment) hs1 hs2 grid_a grid_b 1 1
           (weight_name by_id) (weight_data by_id) (min_score by_id) 40
           (py "name") (py "name") (1, 2, py "Name") (1, 2, py "Name")).
  - apply (bool_decide_unpack _). vm_compute. exact I.
  - apply (bool_decide_unpack _). vm_compute. exact I.
  - intros g1 f1 g2 f2 H1%dict_get_Some_elem H2%dict_get_Some_elem.
    revert H1 H2. subst hs1 hs2.
    let v := eval vm_compute in (headers_from_row (RT := cpython_fragment) grid_a 1) in
    change (headers_from_row grid_a 1) with v.
    let v := eval vm_compute in (headers_from_row (RT := cpython_fragment) grid_b 1) in
    change (headers_from_row grid_b 1) with v.
    rewrite !elem_of_cons, !elem_of_nil.
    intros [[= -> ->]|[[= -> ->]|[]]] [[= -> ->]|[[= -> ->]|[]]];
      vm_compute; reflexivity.
  - vm_compute. reflexivity.
  - vm_compute. reflexivity.
  - vm_compute. reflexivity.
Defined.

(** ** The Jaccard score of two samples *)

Section Jaccard.

Local Open Scope Qc_scope.

Lemma ratio_mul (n m : Z) : (0 < m)%Z -> Qc_of_Z n / Qc_of_Z m * Qc_of_Z m = Qc_of_Z n.
Proof.
  intros Hm. rewrite Qcmult_comm. apply Qcmult_div_r.
  rewrite <- Z2Qc_inj_0. intros H%Z2Qc_inj. lia.
Qed.

Lemma ratio_le (n m k : Z) :
  (0 < m)%Z -> Qc_of_Z n / Qc_of_Z m ≤ Qc_of_Z k ↔ (n ≤ k * m)%Z.
Proof.
  intros Hm.
  rewrite (Qcmult_le_mono_pos_r _ _ (Qc_of_Z m)) by (by rewrite <- Z2Qc_inj_0, <- Z2Qc_inj_lt).
  by rewrite ratio_mul, <- Z2Qc_inj_mul, <- Z2Qc_inj_le.
Qed.

Lemma ratio_ge (n m k : Z) :
  (0 < m)%Z -> Qc_of_Z k ≤ Qc_of_Z n / Qc_of_Z m ↔ (k * m ≤ n)%Z.
Proof.
  intros Hm.
  rewrite (Qcmult_le_mono_pos_r _ _ (Qc_of_Z m)) by (by rewrite <- Z2Qc_inj_0, <- Z2Qc_inj_lt).
  by rewrite ratio_mul, <- Z2Qc_inj_mul, <- Z2Qc_inj_le.
Qed.

Lemma ratio_eq (n m k : Z) :
  (0 < m)%Z -> Qc_of_Z n / Qc_of_Z m = Qc_of_Z k ↔ n = (k * m)%Z.
Proof.
  intros Hm. split.
  - intros H. apply Z.le_antisymm; [by apply ratio_le; [|rewrite H]|by apply ratio_ge; [|rewrite H]].
  - intros ->. apply Qcle_antisym; [apply ratio_le|apply ratio_ge]; done.
Qed.

Lemma list_to_set_empty (a : list pystr) : list_to_set (C := gset pystr) a = ∅ ↔ a = [].
Proof.
  split; [|by intros ->]. destruct a as [|x a]; [done|].
  intros H. assert (Hx : x ∈ (∅ : gset pystr)); [|by apply elem_of_empty in Hx].
  rewrite <- H. apply elem_of_list_to_set. by left.
Qed.

(** The score of two samples of which none is empty. *)
Lemma jaccard_ratio (a b : list pystr) :
  a ≠ [] -> b ≠ [] ->
  let sa : gset pystr := list_to_set a in
  let sb : gset pystr := list_to_set b in
  _jaccard a b = Qc_of_Z (Z.of_nat (size (sa ∩ sb))) / Qc_of_Z (Z.of_nat (size (sa ∪ sb)))
  ∧ (0 < size (sa ∪ sb))%nat ∧ (size (sa ∩ sb) ≤ size (sa ∪ sb))%nat.
Proof.
  intros Ha Hb sa sb. unfold _jaccard. fold sa sb.
  assert (Hsa : sa ≠ ∅) by (by intros ?%list_to_set_empty).
  assert (Hsb : sb ≠ ∅) by (by intros ?%list_to_set_empty).
  rewrite !bool_decide_eq_false_2 by done. cbn [andb orb]. split; [done|]. split.
  - assert (size (sa ∪ sb) ≠ 0%nat); [|lia].
    apply size_non_empty_iff. intros [H _]%empty_union. apply Hsa. by apply leibniz_equiv.
  - apply subseteq_size. intros x [Hx _]%elem_of_intersection.
    apply elem_of_union. by left.
Qed.

(** X8: the Jaccard score lies between 0 and 1 and does not depend on
    the order of its two arguments. *)
Theorem jaccard_range_and_symmetry (a b : list pystr) :
  0 ≤ _jaccard a b ∧ _jaccard a b ≤ 1 ∧ _jaccard a b = _jaccard b a.
Proof.
  destruct (decide (a = [])) as [->|Ha]; [|destruct (decide (b = [])) as [->|Hb]].
  - destruct b as [|y b].
    + by vm_compute.
    + assert (H : @_jaccard [] (y :: b) = 0 ∧ _jaccard (y :: b) [] = 0).
      { unfold _jaccard. rewrite (bool_decide_eq_true_2 (list_to_set [] = ∅)) by done.
        rewrite (bool_decide_eq_false_2 (list_to_set (y :: b) = ∅))
          by (by intros ?%list_to_set_empty).
        done. }
      destruct H as [-> ->]. by vm_compute.
  - destruct a as [|x a]; [done|].
    assert (H : @_jaccard [] (x :: a) = 0 ∧ _jaccard (x :: a) [] = 0).
    { unfold _jaccard. rewrite (bool_decide_eq_true_2 (list_to_set [] = ∅)) by done.
      rewrite (bool_decide_eq_false_2 (list_to_set (x :: a) = ∅))
        by (by intros ?%list_to_set_empty).
      done. }
    destruct H as [-> ->]. by vm_compute.
  - destruct (jaccard_ratio a b Ha Hb) as (-> & Hpos & Hle).
    destruct (jaccard_ratio b a Hb Ha) as (-> & _ & _).
    split; [|split].
    + rewrite <- Z2Qc_inj_0. apply ratio_ge; lia.
    + rewrite <- Z2Qc_inj_1. apply ratio_le; lia.
    + by rewrite (comm_L (∩) (list_to_set a)), (comm_L (∪) (list_to_set a)).
Qed.

(** X9: the score is 1 exactly when the two samples hold the same values
    (two empty samples do), and 0 exactly when they have no value in
    common and are not both empty. *)
Theorem jaccard_extremes (a b : list pystr) :
  (_jaccard a b = 1 ↔ ∀ x, x ∈ a ↔ x ∈ b)
  ∧ (_jaccard a b = 0 ↔ (a ≠ [] ∨ b ≠ []) ∧ ∀ x, x ∈ a -> x ∉ b).
Proof.
  assert (H01 : (0 : Qc) ≠ 1) by (by vm_compute).
  destruct (decide (a = [])) as [->|Ha]; [|destruct (decide (b = [])) as [->|Hb]].
  - destruct b as [|y b].
    + split.
      * split; [done|]. intros _. by vm_compute.
      * split; [by vm_compute|]. by intros [[?|?] _].
    + assert (H : @_jaccard [] (y :: b) = 0).
      { unfold _jaccard. rewrite (bool_decide_eq_true_2 (list_to_set [] = ∅)) by done.
        rewrite (bool_decide_eq_false_2 (list_to_set (y :: b) = ∅))
          by (by intros ?%list_to_set_empty).
        done. }
      rewrite H. split.
      * split; [done|]. intros Hx. exfalso.
        assert (Hy : y ∈ @nil pystr) by (apply Hx; by left). by apply elem_of_nil in Hy.
      * split; [|done]. intros _. split; [by right|]. intros x Hx. by apply elem_of_nil in Hx.
  - destruct a as [|x a]; [done|].
    assert (H : _jaccard (x :: a) [] = 0).
    { unfold _jaccard. rewrite (bool_decide_eq_true_2 (list_to_set [] = ∅)) by done.
      rewrite (bool_decide_eq_false_2 (list_to_set (x :: a) = ∅))
        by (by intros ?%list_to_set_empty).
      done. }
    rewrite H. split.
    + split; [done|]. intros Hx. exfalso.
      assert (Hy : x ∈ @nil pystr) by (apply Hx; by left). by apply elem_of_nil in Hy.
    + split; [|done]. intros _. split; [by left|]. intros y _ Hy. by apply elem_of_nil in Hy.
  - destruct (jaccard_ratio a b Ha Hb) as (-> & Hpos & Hle).
    set (sa := list_to_set a : gset pystr) in *.
    set (sb := list_to_set b : gset pystr) in *.
    assert (Hin : ∀ x, (x ∈ a ↔ x ∈ sa) ∧ (x ∈ b ↔ x ∈ sb)).
    { intros x. subst sa sb. by rewrite !elem_of_list_to_set. }
    split.
    + rewrite <- Z2Qc_inj_1, ratio_eq by lia. split.
      * intros Hsz.
        assert (Heq : sa ∩ sb = sa ∪ sb).
        { apply set_subseteq_size_eq; [|lia].
          intros x [Hx _]%elem_of_intersection. apply elem_of_union. by left. }
        intros x. destruct (Hin x) as [-> ->].
        split; intros Hx.
        -- assert (Hu : x ∈ sa ∪ sb) by (apply elem_of_union; by left).
           rewrite <- Heq in Hu. by apply elem_of_intersection in Hu as [_ ?].
        -- assert (Hu : x ∈ sa ∪ sb) by (apply elem_of_union; by right).
           rewrite <- Heq in Hu. by apply elem_of_intersection in Hu as [? _].
      * intros Hx. f_equal. rewrite Z.mul_1_l. f_equal.
        assert (Heq : sa = sb).
        { apply set_eq. intros x. destruct (Hin x) as [<- <-]. apply Hx. }
        by rewrite Heq, (idemp_L (∩) sb), (idemp_L (∪) sb).
    + rewrite <- Z2Qc_inj_0, ratio_eq by lia. rewrite Z.mul_0_l. split.
      * intros Hsz. split; [by left|].
        assert (size (sa ∩ sb) = 0%nat) as Hs%size_empty_iff by lia.
        intros x Hxa Hxb. destruct (Hin x) as [Hia Hib].
        apply Hia in Hxa. apply Hib in Hxb.
        apply (not_elem_of_empty (C := gset pystr) x). rewrite <- Hs.
        by apply elem_of_intersection.
      * intros [_ Hdis].
        assert (size (sa ∩ sb) = 0%nat) as ->; [|done].
        apply size_empty_iff. intros x. split; [|by intros ?%elem_of_empty].
        intros [Hxa Hxb]%elem_of_intersection. destruct (Hin x) as [Hia Hib].
        exfalso. apply (Hdis x); [by apply Hia|by apply Hib].
Qed.

End Jaccard.

(** ** What an aligned row pairs *)

Section AlignedRows.
Context {RT : PyRuntime}.

(** X10: the rows the aligner pairs. In either mode an aligned row has a
    row of at least one of the two files, and the rows it has are data
    rows, below the header row and within the sheet. By row, the two
    rows of a pair are equally far below their header rows; by key, the
    key cells of the two rows are not empty and have the same normalized
    key (which can be the empty string, as for a cell of punctuation
    only). *)
Theorem aligned_rows_pair_like_rows
    (sheet1 sheet2 : sheet) (key_row1 key_col1 key_row2 key_col2 : Z)
    (r1 r2 : option Z) (label : pystr) :
  ((r1, r2, label) ∈ rows_by_row sheet1 sheet2 key_row1 key_col1 key_row2 key_col2 ->
     (r1 ≠ None ∨ r2 ≠ None)
     ∧ (∀ z, r1 = Some z -> key_row1 < z ≤ max_row sheet1)
     ∧ (∀ z, r2 = Some z -> key_row2 < z ≤ max_row sheet2)
     ∧ (∀ z1 z2, r1 = Some z1 -> r2 = Some z2 -> z1 - key_row1 = z2 - key_row2))
  ∧ ((r1, r2, label) ∈ rows_by_key sheet1 sheet2
                         (build_row_dict sheet1 key_row1 key_col1)
                         (build_row_dict sheet2 key_row2 key_col2) key_col1 key_col2 ->
     (r1 ≠ None ∨ r2 ≠ None)
     ∧ (∀ z, r1 = Some z -> key_row1 < z ≤ max_row sheet1)
     ∧ (∀ z, r2 = Some z -> key_row2 < z ≤ max_row sheet2)
     ∧ (∀ z1 z2, r1 = Some z1 -> r2 = Some z2 ->
          key_at sheet1 key_col1 z1 = key_at sheet2 key_col2 z2
          ∧ is_Some (key_at sheet1 key_col1 z1))).
Proof.
  split.
  - unfold rows_by_row. intros (offset & Heq & Hoff)%list_elem_of_fmap.
    apply elem_of_seqZ in Hoff. injection Heq as -> -> _.
    destruct (Z.leb_spec (key_row1 + offset) (max_row sheet1)),
             (Z.leb_spec (key_row2 + offset) (max_row sheet2)).
    + split; [by left|]. repeat split; intros; simplify_eq; lia.
    + split; [by left|]. repeat split; intros; simplify_eq; lia.
    + split; [by right|]. repeat split; intros; simplify_eq; lia.
    + lia.
  - unfold rows_by_key, rows_by_key_from.
    intros (k & Heq & Hk)%list_elem_of_fmap. injection Heq as -> -> _.
    unfold all_keys_of in Hk.
    rewrite _sort_keys_perm, set_order_perm, elem_of_elements, elem_of_union in Hk.
    rewrite !elem_of_dom in Hk. split; [|split; [|split]].
    + destruct Hk as [[z Hz]|[z Hz]]; [left|right]; by rewrite Hz.
    + intros z Hz%build_row_dict_lookup. tauto.
    + intros z Hz%build_row_dict_lookup. tauto.
    + intros z1 z2 (_ & H1 & _)%build_row_dict_lookup (_ & H2 & _)%build_row_dict_lookup.
      rewrite H1, H2. split; [done|by eexists].
Qed.

End AlignedRows.

(** ** How a tabular comparison ends *)

Section TabularOutcome.
Context {RT : PyRuntime}.

Lemma raises_only_ret {A} P (a : A) : raises_only P (mret a).
Proof. intros tr e tr' H. discriminate. Qed.

Lemma raises_only_raise {A} (P : error -> Prop) e : P e -> raises_only P (@raise A e).
Proof. intros HP tr e' tr' [= <- _]. exact HP. Qed.

Lemma raises_only_bind {A B} P (m : run A) (k : A -> run B) :
  raises_only P m ->
  (∀ a tr tr', m tr = (Ok a, tr') -> raises_only P (k a)) ->
  raises_only P (m ≫= k).
Proof.
  intros Hm Hk tr e tr'. unfold mbind, run_bind.
  destruct (m tr) as [[a|e0] tr0] eqn:E.
  - by apply (Hk a tr tr0).
  - intros [= <- <-]. by apply (Hm tr e0 tr0).
Qed.

Lemma raises_only_progress P cb p :
  (¬ calm_or_absent cb -> P CallbackAbort) -> raises_only P (_progress cb p).
Proof.
  intros HP tr e tr'. unfold _progress. destruct cb as [c|]; [|discriminate].
  destruct (c tr p) eqn:E; [discriminate..|]. intros [= <- _].
  apply HP. intros Hcalm. by apply (Hcalm tr p).
Qed.

Lemma raises_only_for_each {A B} P (body : A -> run B) l :
  (∀ x, raises_only P (body x)) -> raises_only P (for_each body l).
Proof.
  intros Hbody. induction l as [|x l IH]; cbn [for_each]; [apply raises_only_ret|].
  apply raises_only_bind; [done|]. intros b _ _ _.
  apply raises_only_bind; [done|]. intros bs _ _ _. apply raises_only_ret.
Qed.

Lemma raises_only_write_row P cb sheet1 sheet2 header_map total ir :
  (¬ calm_or_absent cb -> P CallbackAbort) ->
  raises_only P (write_row cb sheet1 sheet2 header_map total ir).
Proof.
  intros HP. destruct ir as [i [[r1 r2] label]]. unfold write_row.
  apply raises_only_bind; [|intros; apply raises_only_ret].
  destruct (i mod 20 =? 0); [by apply raises_only_progress|apply raises_only_ret].
Qed.

Lemma raises_only_locate file_list opts sh :
  sh ∈ take 2 file_list ->
  raises_only (tabular_error_cause file_list opts)
    (lift (locate_header_row sh (_normalize_header (Some (key_header opts)))
             (top_rows_prefer opts))).
Proof.
  intros Hsh tr e tr'. unfold lift. intros H.
  pose proof (locate_header_row_spec sh (_normalize_header (Some (key_header opts)))
                (top_rows_prefer opts)) as Hspec.
  destruct (locate_header_row _ _ _) as [[r c]|e0]; [discriminate|].
  assert (e0 = e) as -> by congruence. destruct Hspec as [-> Hnone].
  split; [done|]. by exists sh.
Qed.

(** With a key whose normal form is not empty, the unified header list of
    two located header rows holds the key. *)
Lemma located_key_in_unified sheet1 sheet2 key top r1 c1 r2 cm :
  key ≠ [] ->
  locate_header_row sheet1 key top = Ok (r1, c1) ->
  key ∈ unified_headers key (headers_from_row sheet1 r1) (headers_from_row sheet2 r2) cm.
Proof.
  intros Hkey Hloc.
  destruct (located_key_in_headers sheet1 key top r1 c1 Hkey Hloc) as (c0 & d & Hget & _).
  apply unified_headers_facts. left.
  apply dict_get_Some_elem in Hget. apply list_elem_of_fmap. by eexists (_, _).
Qed.

Lemma compare_excel_files_raises_only (file_list : list sheet) (opts : options) :
  raises_only (tabular_error_cause file_list opts) (compare_excel_files file_list opts).
Proof.
  assert (Hcb : ¬ calm_or_absent (progress_cb opts) ->
                tabular_error_cause file_list opts CallbackAbort) by done.
  unfold compare_excel_files.
  destruct file_list as [|sheet1 [|sheet2 rest]] eqn:Hfl;
    [apply raises_only_raise; cbn; lia..|].
  rewrite <- Hfl in *.
  assert (H1 : sheet1 ∈ take 2 file_list) by (rewrite Hfl; by left).
  assert (H2 : sheet2 ∈ take 2 file_list) by (rewrite Hfl; right; by left).
  apply raises_only_bind; [by apply raises_only_progress|]. intros _ _ _ _.
  apply raises_only_bind; [by apply raises_only_locate|].
  intros [key_row1 key_col1] tr1 tr1' Hloc1.
  assert (Hloc1' : locate_header_row sheet1 (_normalize_header (Some (key_header opts)))
                     (top_rows_prefer opts) = Ok (key_row1, key_col1))
    by (unfold lift in Hloc1; congruence).
  clear Hloc1.
  apply raises_only_bind; [by apply raises_only_locate|].
  intros [key_row2 key_col2] _ _ _.
  apply raises_only_bind; [by apply raises_only_progress|]. intros _ _ _ _.
  match goal with |- context [nonempty ?hl] => destruct (nonempty hl) eqn:Hhl end;
    cbn [negb].
  2:{ apply raises_only_raise. cbn.
      destruct (decide (_normalize_header (Some (key_header opts)) = [])) as [|Hkey];
        [done|exfalso].
      pose proof (located_key_in_unified sheet1 sheet2 _ _ _ _ key_row2
                    (match_columns_by_data (headers_from_row sheet1 key_row1)
                       (headers_from_row sheet2 key_row2) sheet1 sheet2 key_row1 key_row2
                       (weight_name opts) (weight_data opts) (min_score opts)
                       (sample_size opts)) Hkey Hloc1') as Hin.
      destruct (unified_headers _ _ _ _); [by apply elem_of_nil in Hin|done]. }
  apply raises_only_bind; [by apply raises_only_progress|]. intros _ _ _ _.
  apply raises_only_bind; [by apply raises_only_progress|]. intros _ _ _ _.
  apply raises_only_bind.
  { case_bool_decide as Hk; [apply raises_only_ret|].
    case_bool_decide as Hr; [apply raises_only_ret|].
    by apply raises_only_raise. }
  intros rows_to_compare _ _ _.
  apply raises_only_bind.
  { apply raises_only_for_each. intros ir. by apply raises_only_write_row. }
  intros rows _ _ _.
  apply raises_only_bind; [by apply raises_only_progress|]. intros _ _ _ _.
  apply raises_only_bind; [by apply raises_only_progress|]. intros _ _ _ _.
  apply raises_only_ret.
Qed.

(** X11: the ways a tabular comparison can fail. It raises for too few
    files only when given fewer than two; for a missing key header only
    when one of the first two sheets has no string cell whose normal
    form is the normalized key; for an empty header list only when the
    key normalizes to the empty string; for the alignment mode only when
    it is neither "by_key" nor "by_row"; and it lets an exception of the
    callback through only when that is not an [Exception]. (Reading the
    two workbooks and writing the result are openpyxl's work, and what
    may fail there is not part of this.) *)
Theorem compare_excel_files_failures (file_list : list sheet) (opts : options) :
  raises_only (tabular_error_cause file_list opts) (compare_excel_files file_list opts).
Proof. apply compare_excel_files_raises_only. Qed.

(** X12: a tabular comparison completes whenever it is given two sheets
    that both hold the key header, a key that does not normalize to the
    empty string, one of the two alignment modes, and no callback or one
    that raises nothing but [Exception]s (openpyxl's own failures
    apart). *)
Theorem compare_excel_files_completes
    (sheet1 sheet2 : sheet) (rest : list sheet) (opts : options) (tr : list Z) :
  calm_or_absent (progress_cb opts) ->
  _normalize_header (Some (key_header opts)) ≠ [] ->
  (∃ r c, is_candidate sheet1 (_normalize_header (Some (key_header opts))) r c) ->
  (∃ r c, is_candidate sheet2 (_normalize_header (Some (key_header opts))) r c) ->
  compare_mode opts = py "by_key" ∨ compare_mode opts = py "by_row" ->
  ∃ wb m tr', compare_excel_files (sheet1 :: sheet2 :: rest) opts tr = (Ok (wb, m), tr').
Proof.
  intros Hcalm Hkey (ra & ca & Ha) (rb & cb & Hb) Hmode.
  destruct (compare_excel_files (sheet1 :: sheet2 :: rest) opts tr)
    as [[[wb m]|e] tr'] eqn:Hrun; [by eauto|exfalso].
  apply compare_excel_files_raises_only in Hrun.
  destruct e as [|k| | |]; cbn in Hrun.
  - lia.
  - destruct Hrun as (_ & sh & Hsh & Hnone).
    apply elem_of_cons in Hsh as [->|Hsh]; [by apply (Hnone ra ca)|].
    apply list_elem_of_singleton in Hsh as ->. by apply (Hnone rb cb).
  - done.
  - destruct Hrun as [H1 H2]. by destruct Hmode.
  - done.
Qed.

Lemma progress_calm_inv cb p tr u tr' :
  calm cb -> _progress (Some cb) p tr = (Ok u, tr') -> tr' = tr ++ [p].
Proof. intros Hcalm. rewrite progress_calm by done. by intros [= _ <-]. Qed.

Lemma write_row_calm cb sheet1 sheet2 header_map total i r1 r2 label tr :
  calm cb ->
  write_row (Some cb) sheet1 sheet2 header_map total (i, (r1, r2, label)) tr
  = (Ok (label, map (diff_cells sheet1 sheet2 i r1 r2) header_map),
     tr ++ (if i mod 20 =? 0 then [row_percent i total] else [])).
Proof.
  intros Hcalm. unfold write_row. destruct (i mod 20 =? 0).
  - by rewrite bind_progress_calm.
  - erewrite bind_ok; [|reflexivity]. by rewrite app_nil_r.
Qed.

Lemma write_rows_trace cb sheet1 sheet2 header_map total l tr :
  calm cb ->
  (for_each (write_row (Some cb) sheet1 sheet2 header_map total) l tr).2
  = tr ++ map (fun i => row_percent i total)
              (List.filter (fun i => i mod 20 =? 0) (map fst l)).
Proof.
  intros Hcalm. revert tr. induction l as [|[i [[r1 r2] label]] l IH]; intros tr.
  - cbn. by rewrite app_nil_r.
  - cbn [for_each map List.filter fst].
    erewrite bind_ok; [|by apply write_row_calm].
    specialize (IH (tr ++ (if i mod 20 =? 0 then [row_percent i total] else []))).
    unfold mbind at 1, run_bind at 1.
    destruct (for_each _ l _) as [[bs|e] t]; cbn [snd] in IH |- *; rewrite IH;
      destruct (i mod 20 =? 0); cbn [map]; by rewrite <- ?app_assoc, ?app_nil_r.
Qed.

Lemma map_fst_zip_seqZ {B} (l : list B) :
  map fst (zip (seqZ 0 (Z.of_nat (length l))) l) = seqZ 0 (Z.of_nat (length l)).
Proof. apply fst_zip. rewrite length_seqZ. lia. Qed.

(** A completed comparison, taken apart. *)
Lemma compare_excel_files_inv file_list opts tr wb m tr' :
  compare_excel_files file_list opts tr = (Ok (wb, m), tr') ->
  ∃ sheet1 sheet2 (header_map : list header_cols) (rows_to_compare : list aligned_row)
    t1 t2 t3 t4 t5 t6 u1 u2 u3 u4 u5 u6,
    let cb := progress_cb opts in
    let n := Z.of_nat (length rows_to_compare) in
    header_map ≠ []
    ∧ (compare_mode opts = py "by_key" ∨ compare_mode opts = py "by_row")
    ∧ _progress cb 1 tr = (Ok u1, t1)
    ∧ _progress cb 5 t1 = (Ok u2, t2)
    ∧ _progress cb 15 t2 = (Ok u3, t3)
    ∧ _progress cb 30 t3 = (Ok u4, t4)
    ∧ for_each (write_row cb sheet1 sheet2 header_map (Z.max 1 n))
               (zip (seqZ 0 n) rows_to_compare) t4 = (Ok (wb_rows wb), t5)
    ∧ _progress cb 95 t5 = (Ok u5, t6)
    ∧ _progress cb 100 t6 = (Ok u6, tr')
    ∧ length (wb_header wb) = length header_map
    ∧ m = (if return_meta opts
           then Some {| rows_compared := n;
                        meta_key_header := key_header opts;
                        meta_compare_mode := compare_mode opts |}
           else None).
Proof.
  unfold compare_excel_files.
  destruct file_list as [|sheet1 [|sheet2 rest]]; [discriminate..|].
  intros Hrun.
  apply bind_inv_ok in Hrun as (u1 & t1 & Hp1 & Hrun).
  apply bind_inv_ok in Hrun as ([key_row1 key_col1] & t1' & Hl1 & Hrun).
  apply bind_inv_ok in Hrun as ([key_row2 key_col2] & t1'' & Hl2 & Hrun).
  unfold lift in Hl1, Hl2.
  assert (t1' = t1) as -> by congruence. assert (t1'' = t1) as -> by congruence.
  apply bind_inv_ok in Hrun as (u2 & t2 & Hp2 & Hrun).
  match type of Hrun with
  | context [nonempty ?hl] => destruct (nonempty hl) eqn:Hhl
  end; [|discriminate].
  cbn [negb] in Hrun.
  apply bind_inv_ok in Hrun as (u3 & t3 & Hp3 & Hrun).
  apply bind_inv_ok in Hrun as (u4 & t4 & Hp4 & Hrun).
  apply bind_inv_ok in Hrun as (rows_to_compare & t4' & Hmode & Hrun).
  apply bind_inv_ok in Hrun as (rows & t5 & Hrows & Hrun).
  apply bind_inv_ok in Hrun as (u5 & t6 & Hp5 & Hrun).
  apply bind_inv_ok in Hrun as (u6 & t7 & Hp6 & Hrun).
  injection Hrun as <- <- <-.
  assert (Ht4 : t4' = t4 ∧ (compare_mode opts = py "by_key" ∨ compare_mode opts = py "by_row")).
  { revert Hmode. case_bool_decide; [intros [= _ <-]; by auto|].
    case_bool_decide; [intros [= _ <-]; by auto|discriminate]. }
  destruct Ht4 as [-> Hm].
  match type of Hrows with
  | for_each (write_row _ _ _ ?hm _) _ _ = _ =>
      exists sheet1, sheet2, hm, rows_to_compare, t1, t2, t3, t4, t5, t6
  end.
  exists u1, u2, u3, u4, u5, u6. cbn zeta. cbn [wb_rows wb_header].
  split; [|split; [done|]].
  { unfold build_header_map.
    match type of Hhl with nonempty ?hl = true => destruct hl; [discriminate|done] end. }
  repeat (split; [eassumption|]). split; [by rewrite length_map|done].
Qed.

(** X13: the shape of a completed comparison: the header row is not
    empty, every comparison row holds one pair of cells for each pair of
    header cells, the alignment mode is one of the two, and the meta
    data, returned exactly when asked for, counts the comparison rows. *)
Theorem comparison_output_shape
    (file_list : list sheet) (opts : options) (tr tr' : list Z)
    (wb : workbook) (m : option meta) :
  compare_excel_files file_list opts tr = (Ok (wb, m), tr') ->
  wb_header wb ≠ []
  ∧ Forall (fun row : out_row => length row.2 = length (wb_header wb)) (wb_rows wb)
  ∧ (compare_mode opts = py "by_key" ∨ compare_mode opts = py "by_row")
  ∧ m = (if return_meta opts
         then Some {| rows_compared := Z.of_nat (length (wb_rows wb));
                      meta_key_header := key_header opts;
                      meta_compare_mode := compare_mode opts |}
         else None).
Proof.
  intros (sheet1 & sheet2 & header_map & rows_to_compare
          & t1 & t2 & t3 & t4 & t5 & t6 & u1 & u2 & u3 & u4 & u5 & u6
          & Hne & Hmode & _ & _ & _ & _ & Hrows & _ & _ & Hlen & ->)%compare_excel_files_inv.
  apply write_rows_ok in Hrows. rewrite Hrows, Hlen.
  split; [|split; [|split; [done|]]].
  - destruct (wb_header wb); [|done]. by destruct header_map.
  - apply Forall_forall. intros row (ir & -> & _)%list_elem_of_fmap.
    cbn [snd]. by rewrite length_map.
  - rewrite length_map, length_zip_with, length_seqZ.
    by replace (Z.to_nat (Z.of_nat (length rows_to_compare)) `min` length rows_to_compare)%nat
      with (length rows_to_compare) by lia.
Qed.

(** X14: what a callback that lets the run go on is told by a completed
    tabular comparison: 1, 5, 15 and 30, then one percentage for every
    twentieth comparison row, then 95 and 100, each exactly once and in
    this order. *)
Theorem tabular_progress_trace
    (file_list : list sheet) (opts : options) (cb : callback) (tr tr' : list Z)
    (wb : workbook) (m : option meta) :
  calm cb ->
  progress_cb opts = Some cb ->
  compare_excel_files file_list opts tr = (Ok (wb, m), tr') ->
  tr' = tr ++ [1; 5; 15; 30] ++ row_milestones (Z.of_nat (length (wb_rows wb))) ++ [95; 100].
Proof.
  intros Hcalm Hcb
    (sheet1 & sheet2 & header_map & rows_to_compare
     & t1 & t2 & t3 & t4 & t5 & t6 & u1 & u2 & u3 & u4 & u5 & u6
     & _ & _ & H1 & H2 & H3 & H4 & Hrows & H5 & H6 & _ & _)%compare_excel_files_inv.
  rewrite Hcb in *.
  apply progress_calm_inv in H1 as ->; [|done].
  apply progress_calm_inv in H2 as ->; [|done].
  apply progress_calm_inv in H3 as ->; [|done].
  apply progress_calm_inv in H4 as ->; [|done].
  apply progress_calm_inv in H6 as ->; [|done].
  apply progress_calm_inv in H5 as ->; [|done].
  pose proof (write_rows_trace cb sheet1 sheet2 header_map
                (Z.max 1 (Z.of_nat (length rows_to_compare)))
                (zip (seqZ 0 (Z.of_nat (length rows_to_compare))) rows_to_compare)
                ((((tr ++ [1]) ++ [5]) ++ [15]) ++ [30]) Hcalm) as Htr.
  rewrite Hrows in Htr. cbn [snd] in Htr. rewrite Htr, map_fst_zip_seqZ.
  apply write_rows_ok in Hrows.
  assert (Hlen : length (wb_rows wb) = length rows_to_compare).
  { rewrite Hrows, length_map, length_zip_with, length_seqZ. lia. }
  rewrite Hlen. unfold row_milestones. by rewrite <- !app_assoc.
Qed.

End TabularOutcome.

Lemma compare_excel_files_completes_witness :
  ∃ wb m tr', compare_excel_files (RT := cpython_fragment) [grid_a; grid_b] by_id []
              = (Ok (wb, m), tr').
Proof.
  apply (compare_excel_files_completes (RT := cpython_fragment) grid_a grid_b [] by_id []).
  - intros tr p. discriminate.
  - by vm_compute.
  - exists 1, 1. split; [by vm_compute|]. split; [by vm_compute|]. vm_compute. reflexivity.
  - exists 1, 1. split; [by vm_compute|]. split; [by vm_compute|]. vm_compute. reflexivity.
  - left. reflexivity.
Defined.

Lemma tabular_progress_trace_witness :
  calm quiet
  ∧ (compare_excel_files (RT := cpython_fragment) [grid_a; grid_b] by_id []).2
    = [1; 5; 15; 30; 30; 95; 100].
Proof.
  assert (Hcalm : calm quiet) by (intros tr p; discriminate).
  split; [exact Hcalm|].
  destruct (compare_excel_files (RT := cpython_fragment) [grid_a; grid_b] by_id [])
    as [[[wb m]|e] tr'] eqn:Hrun; [|vm_compute in Hrun; discriminate].
  rewrite (tabular_progress_trace (RT := cpython_fragment) [grid_a; grid_b] by_id quiet
             [] tr' wb m Hcalm eq_refl Hrun).
  vm_compute in Hrun. injection Hrun as <- _ _. reflexivity.
Defined.

Lemma comparison_output_shape_witness :
  ∃ wb m tr', compare_excel_files (RT := cpython_fragment) [grid_a; grid_b] by_id []
              = (Ok (wb, m), tr')
              ∧ wb_header wb ≠ [] ∧ m = None.
Proof.
  destruct (compare_excel_files (RT := cpython_fragment) [grid_a; grid_b] by_id [])
    as [[[wb m]|e] tr'] eqn:Hrun; [|vm_compute in Hrun; discriminate].
  exists wb, m, tr'. split; [reflexivity|].
  destruct (comparison_output_shape (RT := cpython_fragment) [grid_a; grid_b] by_id
              [] tr' wb m Hrun) as (H1 & _ & _ & H4).
  split; [exact H1|exact H4].
Defined.

(** The progress of the tabular engine, whatever the callback does. *)
Section TabularProgressOrder.
Context {RT : PyRuntime}.

(** X15: whatever the callback does, the percentages the tabular engine
    hands to it never go back, and lie between 0 and 100. *)
Theorem tabular_progress_never_goes_back (file_list : list sheet) (opts : options) :
  let trace := (compare_excel_files file_list opts []).2 in
  StronglySorted Z.le trace ∧ Forall (fun p => 0 ≤ p ≤ 100) trace.
Proof. apply excel_progress_is_monotone. Qed.

End TabularProgressOrder.

(** ** How a document comparison ends *)

Section DocumentOutcome.

Lemma page_loop_silent n l tr :
  for_each (fun i => _progress None (page_percent 30 i n);;
                     _progress None (page_percent 50 i n)) l tr
  = (Ok (map (fun _ => ()) l), tr).
Proof.
  revert tr. induction l as [|i l IH]; intros tr; [done|].
  cbn [for_each map]. erewrite bind_ok; [|reflexivity].
  erewrite bind_ok; [|apply IH]. done.
Qed.

Lemma pdf_milestones_bounds n : Forall (fun p => 30 ≤ p < 70) (pdf_milestones n).
Proof.
  unfold pdf_milestones. apply Forall_forall. intros p Hp.
  apply list_elem_of_In, in_flat_map in Hp as (i & Hi & Hp).
  apply list_elem_of_In, elem_of_seqZ in Hi.
  assert (0 ≤ 20 * i / Z.max 1 n < 20).
  { split; [apply Z.div_pos; lia|apply Z.div_lt_upper_bound; lia]. }
  unfold page_percent in Hp. destruct Hp as [<-|[<-|[]]]; lia.
Qed.

Lemma pdf_milestones_length n : length (pdf_milestones n) = (2 * Z.to_nat n)%nat.
Proof.
  unfold pdf_milestones, range. rewrite Z.sub_0_r.
  assert (H : ∀ l : list Z,
            length (flat_map (fun i => [page_percent 30 i n; page_percent 50 i n]) l)
            = (2 * length l)%nat).
  { induction l as [|i l IH]; [done|]. cbn [flat_map app length]. rewrite IH. lia. }
  by rewrite H, length_seqZ.
Qed.

(** X16: a document comparison of two files or more, with no callback or
    one that raises nothing but [Exception]s, goes through all its
    milestones (as long as rendering and drawing, the libraries' work,
    do not fail) and returns the smaller of the two page counts; the
    callback, if any, is told 1, 20 and 30, then two percentages for
    each compared page, all from 30 up to but not including 70, then 95
    and 100. *)
Theorem compare_pdfs_outcome
    (file1 file2 : pdf) (rest : list pdf) (cb : option callback) (tr : list Z) :
  calm_or_absent cb ->
  let n := Z.min (Z.of_nat (length file1)) (Z.of_nat (length file2)) in
  compare_pdfs (file1 :: file2 :: rest) cb tr
  = (Ok n, tr ++ match cb with
                 | Some _ => [1; 20; 30] ++ pdf_milestones n ++ [95; 100]
                 | None => []
                 end)
  ∧ Forall (fun p => 30 ≤ p < 70) (pdf_milestones n)
  ∧ length (pdf_milestones n) = (2 * Z.to_nat n)%nat.
Proof.
  intros Hcalm n. split; [|split; [apply pdf_milestones_bounds|apply pdf_milestones_length]].
  unfold compare_pdfs, save_side_by_side_pdf. fold n. destruct cb as [cb|].
  - cbn in Hcalm. rewrite !bind_progress_calm by done.
    erewrite bind_ok; [|erewrite bind_ok; [|by apply page_loop_trace]; reflexivity].
    rewrite !bind_progress_calm by done.
    unfold mret, run_ret, pdf_milestones. by rewrite <- !app_assoc.
  - do 3 (erewrite bind_ok; [|reflexivity]).
    erewrite bind_ok; [|erewrite bind_ok; [|by apply page_loop_silent]; reflexivity].
    do 2 (erewrite bind_ok; [|reflexivity]).
    unfold mret, run_ret. by rewrite app_nil_r.
Qed.

End DocumentOutcome.

Lemma compare_pdfs_outcome_witness :
  compare_pdfs [two_pages; two_pages] (Some quiet) []
  = (Ok 2, [1; 20; 30; 30; 50; 40; 60; 95; 100]).
Proof.
  assert (Hcalm : calm_or_absent (Some quiet)) by (intros tr p; discriminate).
  destruct (compare_pdfs_outcome two_pages two_pages [] (Some quiet) [] Hcalm) as [H _].
  rewrite H. reflexivity.
Defined.

(** ** Equality of cell values *)

Section SafeEq.

(** X17: [_safe_eq] is symmetric; a value equals itself unless it is
    empty; and an empty value ([None] or the empty string) equals exactly
    the values that are not empty but are all white space. *)
Theorem safe_eq_edges (a b : value) :
  _safe_eq a b = _safe_eq b a
  ∧ _safe_eq a a = negb (is_empty a)
  ∧ (is_empty a = true ->
     (_safe_eq a b = true ↔ is_empty b = false ∧ strip (py_str b) = [])).
Proof.
  split; [|split].
  - unfold _safe_eq. rewrite (andb_comm (is_empty b)).
    destruct (is_empty a && is_empty b); [done|].
    apply bool_decide_ext. split; congruence.
  - unfold _safe_eq. rewrite andb_diag. destruct (is_empty a); [done|].
    by rewrite bool_decide_eq_true_2.
  - intros Ha. unfold _safe_eq. rewrite Ha. cbn [andb].
    assert (Hka : _normalize_key a = []) by (by destruct a as [|[|c s]|z|[]|t]).
    rewrite Hka. destruct (is_empty b) eqn:Hb.
    + split; [done|]. by intros [? _].
    + rewrite bool_decide_eq_true.
      assert (Hkb : _normalize_key b = strip (py_str b)) by (by destruct b).
      rewrite Hkb. split; [by intros <-|by intros [_ ->]].
Qed.

End SafeEq.

Lemma safe_eq_edges_witness :
  _safe_eq VNone (VStr (py " ")) = true
  ↔ is_empty (VStr (py " ")) = false ∧ strip (py_str (VStr (py " "))) = [].
Proof.
  destruct (safe_eq_edges VNone (VStr (py " "))) as (_ & _ & H).
  apply H. reflexivity.
Defined.

(** ** The row index in general *)

Section RowIndex.
Context {RT : PyRuntime}.

(** X18: the row index maps a normalized key to the last data row that
    carries it: [row_dict[k] == r] exactly when [r] is a row below the
    header row whose key cell is not empty and normalizes to [k], and no
    row further down is such a row. *)
Theorem build_row_dict_last_wins (sh : sheet) (header_row key_col : Z) (k : pystr) (r : Z) :
  build_row_dict sh header_row key_col !! k = Some r ↔
  header_row < r ≤ max_row sh ∧ key_at sh key_col r = Some k
  ∧ ∀ r', r < r' ≤ max_row sh -> key_at sh key_col r' ≠ Some k.
Proof. apply build_row_dict_lookup. Qed.

End RowIndex.

(** ** Where the output columns come from *)

Section HeaderMap.

Lemma resolve_header_sources (headers1_row headers2_row : list (pystr * header_entry))
    (col_match : list (pystr * pystr)) (hnorm : pystr) (out : Z) :
  let hc := resolve_header headers1_row headers2_row col_match hnorm out in
  (hnorm ∈ headers1_row.*1 -> hc_col1 hc = (fun t : header_entry => t.1.2)
                                             <$> dict_get hnorm headers1_row
                              ∧ is_Some (hc_col1 hc))
  ∧ (hnorm ∉ headers1_row.*1 ->
       hc_col2 hc = (fun t : header_entry => t.1.2) <$> dict_get hnorm headers2_row)
  ∧ (∀ c, hc_col1 hc = Some c -> ∃ g r d, dict_get g headers1_row = Some (r, c, d))
  ∧ (∀ c, hc_col2 hc = Some c -> ∃ g r d, dict_get g headers2_row = Some (r, c, d)).
Proof.
  cbn zeta. unfold resolve_header. cbn [hc_col1 hc_col2].
  split; [|split; [|split]].
  - intros Hin. destruct (dict_get hnorm headers1_row) as [t|] eqn:E.
    + by split; [|eexists].
    + apply dict_get_None in E. done.
  - intros Hnin. apply dict_get_None in Hnin. unfold dict_has at 1. by rewrite Hnin.
  - intros c.
    destruct (dict_get hnorm headers1_row) as [[[r c'] d]|] eqn:E1.
    { intros [= <-]. by exists hnorm, r, d. }
    destruct (if dict_has hnorm headers1_row && dict_has hnorm col_match then _ else _)
      as [t2|]; [|done].
    destruct (reverse_match hnorm col_match) as [[|x rev]|]; [done| |done].
    destruct (dict_get (x :: rev) headers1_row) as [[[r c'] d]|] eqn:E; [|done].
    intros [= <-]. by exists (x :: rev), r, d.
  - intros c.
    destruct (dict_has hnorm headers1_row && dict_has hnorm col_match).
    + destruct (dict_get hnorm col_match) as [partner|]; [|done]. cbn.
      destruct (dict_get partner headers2_row) as [[[r c'] d]|] eqn:E; [|done].
      intros [= <-]. by exists partner, r, d.
    + destruct (dict_get hnorm headers2_row) as [[[r c'] d]|] eqn:E; [|done].
      intros [= <-]. by exists hnorm, r, d.
Qed.

(** X19: every pair of output columns has a source: for each header of
    the unified list, the header map names a column of file 1 or a
    column of file 2 (or both), and the columns it names are columns of
    the two header maps. *)
Theorem header_map_has_sources (key_header_norm : pystr)
    (headers1_row headers2_row : list (pystr * header_entry))
    (col_match : list (pystr * pystr)) (hc : header_cols) :
  hc ∈ build_header_map headers1_row headers2_row col_match
         (unified_headers key_header_norm headers1_row headers2_row col_match) ->
  (is_Some (hc_col1 hc) ∨ is_Some (hc_col2 hc))
  ∧ (∀ c, hc_col1 hc = Some c -> ∃ g r d, dict_get g headers1_row = Some (r, c, d))
  ∧ (∀ c, hc_col2 hc = Some c -> ∃ g r d, dict_get g headers2_row = Some (r, c, d)).
Proof.
  unfold build_header_map. intros (i & h & -> & Hh)%elem_of_lookup_imap.
  apply list_elem_of_lookup_2, unified_headers_facts in Hh.
  destruct (resolve_header_sources headers1_row headers2_row col_match h
              (2 + 2 * Z.of_nat i)) as (H1 & H2 & H3 & H4).
  split; [|by split].
  destruct (decide (h ∈ headers1_row.*1)) as [Hin|Hnin].
  - left. by apply H1.
  - right. rewrite (H2 Hnin). destruct Hh as [?|[Hin2 _]]; [done|].
    destruct (dict_get h headers2_row) eqn:E; [by eexists|].
    by apply dict_get_None in E.
Qed.

End HeaderMap.

Lemma header_map_has_sources_witness :
  let h1 := headers_from_row (RT := cpython_fragment) grid_a 1 in
  let h2 := headers_from_row (RT := cpython_fragment) grid_b 1 in
  let cm := [(py "id", py "id"); (py "name", py "name")] in
  let hc := resolve_header h1 h2 cm (py "id") 2 in
  is_Some (hc_col1 hc) ∨ is_Some (hc_col2 hc).
Proof.
  intros h1 h2 cm hc.
  destruct (header_map_has_sources (py "id") h1 h2 cm hc) as [H _]; [|exact H].
  apply elem_of_lookup_imap. exists 0%nat, (py "id"). split; [reflexivity|].
  vm_compute. reflexivity.
Defined.

Lemma aligned_rows_pair_like_rows_witness :
  key_at (RT := cpython_fragment) keys_123 1 3 = key_at (RT := cpython_fragment) keys_234 1 2.
Proof.
  destruct (aligned_rows_pair_like_rows (RT := cpython_fragment) keys_123 keys_234 1 1 1 1
              (Some 3) (Some 2) (py "2/2")) as [_ H].
  destruct H as (_ & _ & _ & H).
  - apply (bool_decide_unpack _). vm_compute. exact I.
  - exact (proj1 (H 3 2 eq_refl eq_refl)).
Defined.

(** ** The words of a page that get a rectangle *)

Section TextHighlights.

Lemma split_from_nil cur :
  split_from cur [] = if nonempty cur then [cur] else [].
Proof. done. Qed.

Lemma split_from_space cur c s :
  is_space c = true ->
  split_from cur (c :: s) = (if nonempty cur then [cur] else []) ++ split_from [] s.
Proof. intros Hc. cbn [split_from]. rewrite Hc. by destruct (nonempty cur). Qed.

Lemma split_from_char cur c s :
  is_space c = false -> split_from cur (c :: s) = split_from (cur ++ [c]) s.
Proof. intros Hc. cbn [split_from]. by rewrite Hc. Qed.

(** The words [split_from] finds: the one that [cur] begins, and those
    that begin further on, after white space. *)
Lemma elem_of_split_from t cur s :
  t ∈ split_from cur s ↔
  (t ≠ [] ∧ ∃ w post, s = w ++ post ∧ Forall (fun c => is_space c = false) w
                      ∧ ends_word post ∧ t = cur ++ w)
  ∨ (t ≠ [] ∧ Forall (fun c => is_space c = false) t
     ∧ ∃ pre post, s = pre ++ t ++ post
         ∧ (∃ p c, pre = p ++ [c] ∧ is_space c = true) ∧ ends_word post).
Proof.
  revert cur. induction s as [|c s IH]; intros cur.
  - rewrite split_from_nil. split.
    + destruct cur as [|x cur]; cbn [nonempty]; [by intros ?%elem_of_nil|].
      intros ->%list_elem_of_singleton. left. split; [done|].
      exists [], [].
      split; [done|]. split; [constructor|]. split; [by left|by rewrite app_nil_r].
    + intros [(Ht & w & post & Hs & _ & _ & ->)|(_ & _ & pre & post & Hs & (p & x & -> & _) & _)].
      * symmetry in Hs. apply app_eq_nil in Hs as [-> ->]. rewrite app_nil_r in *.
        destruct cur; [done|]. by apply list_elem_of_singleton.
      * symmetry in Hs. apply app_eq_nil in Hs as [Hs _].
        by apply app_eq_nil in Hs as [_ ?].
  - destruct (is_space c) eqn:Hc.
    + rewrite split_from_space by done. rewrite elem_of_app, (IH []). split.
      * intros [Hcur|[(Ht & w & post & -> & Hw & Hpost & ->)
                      |(Ht & Hns & pre & post & -> & (p & x & -> & Hx) & Hpost)]].
        -- left. destruct cur as [|y cur]; cbn [nonempty] in Hcur;
             [by apply elem_of_nil in Hcur|].
           apply list_elem_of_singleton in Hcur as ->. split; [done|].
           exists [], (c :: s).
           split; [done|]. split; [constructor|]. split; [|by rewrite app_nil_r].
           right. by exists c, s.
        -- right. split; [done|]. split; [done|].
           exists [c], post. split; [done|]. split; [|done]. by exists [], c.
        -- right. split; [done|]. split; [done|].
           exists (c :: p ++ [x]), post. split; [done|]. split; [|done].
           by exists (c :: p), x.
      * intros [(Ht & w & post & Hs & Hw & Hpost & ->)
                |(Ht & Hns & pre & post & Hs & (p & x & -> & Hx) & Hpost)].
        -- left. destruct w as [|y w].
           ++ rewrite app_nil_r in *. destruct cur; [done|]. by apply list_elem_of_singleton.
           ++ injection Hs as <- _. apply Forall_cons in Hw as [Hy _]. congruence.
        -- right. destruct p as [|y p].
           ++ injection Hs as _ ->. left. split; [done|].
              exists t, post. split; [done|]. split; [done|]. by split.
           ++ injection Hs as _ ->. right. split; [done|]. split; [done|].
              exists (p ++ [x]), post. split; [done|]. split; [|done]. by exists p, x.
    + rewrite split_from_char by done. rewrite (IH (cur ++ [c])). split.
      * intros [(Ht & w & post & -> & Hw & Hpost & ->)
                |(Ht & Hns & pre & post & -> & (p & x & -> & Hx) & Hpost)].
        -- left. split; [done|]. exists (c :: w), post.
           split; [done|]. split; [by constructor|]. split; [done|].
           by rewrite <- app_assoc.
        -- right. split; [done|]. split; [done|].
           exists (c :: p ++ [x]), post. split; [done|]. split; [|done].
           by exists (c :: p), x.
      * intros [(Ht & w & post & Hs & Hw & Hpost & ->)
                |(Ht & Hns & pre & post & Hs & (p & x & -> & Hx) & Hpost)].
        -- left. split; [done|]. destruct w as [|y w].
           ++ destruct Hpost as [->|(y & q & -> & Hy)]; [done|].
              injection Hs as <- _. congruence.
           ++ injection Hs as <- ->. apply Forall_cons in Hw as [_ Hw].
              exists w, post. split; [done|]. split; [done|]. split; [done|].
              by rewrite <- app_assoc.
        -- right. split; [done|]. split; [done|]. destruct p as [|y p].
           ++ injection Hs as <- _. congruence.
           ++ injection Hs as _ ->. exists (p ++ [x]), post.
              split; [done|]. split; [|done]. by exists p, x.
Qed.

Lemma elem_of_str_split t s : t ∈ str_split s ↔ is_token t s.
Proof.
  unfold str_split, is_token. rewrite elem_of_split_from. split.
  - intros [(Ht & w & post & -> & Hw & Hpost & ->)
            |(Ht & Hns & pre & post & -> & Hpre & Hpost)].
    + split; [done|]. split; [done|]. exists [], post. split; [done|]. split; [by left|done].
    + split; [done|]. split; [done|]. exists pre, post. split; [done|]. split; [by right|done].
  - intros (Ht & Hns & pre & post & -> & [->|Hpre] & Hpost).
    + left. split; [done|]. by exists t, post.
    + right. split; [done|]. split; [done|]. by exists pre, post.
Qed.

(** X20: the words of a page that get a rectangle are those whose text
    is not a word of the other page's text, each occurrence once and in
    the order PyMuPDF lists them; the words the other page has and this
    one lacks, though part of the symmetric difference, draw nothing. A
    word of a text is a longest run of characters other than white
    space. *)
Theorem highlight_marks_foreign_words (words : list page_word) (other_text : pystr) :
  highlight_text_differences words other_text
  = map word_box
        (List.filter (fun w => negb (bool_decide (w_text w ∈ str_split other_text))) words)
  ∧ ∀ w, w_text w ∈ str_split other_text ↔ is_token (w_text w) other_text.
Proof.
  split; [|intros w; apply elem_of_str_split].
  unfold highlight_text_differences.
  set (page := list_to_set (map w_text words) : gset pystr).
  set (other := list_to_set (str_split other_text) : gset pystr).
  assert (Hpage : ∀ w, w ∈ words -> w_text w ∈ page).
  { intros w Hw. subst page. apply elem_of_list_to_set, list_elem_of_In, in_map.
    by apply list_elem_of_In. }
  clearbody page.
  induction words as [|w words IH]; [done|].
  cbn [flat_map List.filter map].
  rewrite IH by (intros w' Hw'; apply Hpage; by right).
  assert (Hw : w_text w ∈ page) by (apply Hpage; by left).
  assert (Hiff : w_text w ∈ (page ∖ other) ∪ (other ∖ page)
                 ↔ w_text w ∉ str_split other_text).
  { subst other. rewrite elem_of_union, !elem_of_difference, elem_of_list_to_set. tauto. }
  destruct (decide (w_text w ∈ str_split other_text)) as [Hin|Hnin].
  - rewrite (bool_decide_eq_true_2 _ Hin). cbn [negb].
    rewrite bool_decide_eq_false_2; [done|]. rewrite Hiff. tauto.
  - rewrite (bool_decide_eq_false_2 _ Hnin). cbn [negb map].
    by rewrite bool_decide_eq_true_2 by (by rewrite Hiff).
Qed.

End TextHighlights.

(** ** The deprecated header finder *)

Section FirstWinsSplit.
Context {X V : Type} (keyof : X -> option (pystr * V)).

Lemma first_match_split l k v :
  first_match keyof k l = Some v ↔
  ∃ l1 x l2, l = l1 ++ x :: l2 ∧ keyof x = Some (k, v)
             ∧ ∀ y w, y ∈ l1 -> keyof y ≠ Some (k, w).
Proof.
  rewrite first_match_Some. split.
  - intros (i & x & Hi & Hx & Hmin).
    exists (take i l), x, (drop (S i) l).
    split; [by rewrite take_drop_middle|]. split; [done|].
    intros y w (j & Hj)%list_elem_of_lookup_1.
    apply lookup_take_Some in Hj as [Hj Hlt]. by apply (Hmin j).
  - intros (l1 & x & l2 & -> & Hx & Hmin).
    exists (length l1), x. split; [by apply list_lookup_middle|]. split; [done|].
    intros j y w Hj Hy. rewrite lookup_app_l in Hy by done.
    apply Hmin. by eapply list_elem_of_lookup_2.
Qed.

End FirstWinsSplit.

Section HeaderFinder.
Context {RT : PyRuntime}.

Lemma find_header_row_and_cols_first sh :
  find_header_row_and_cols sh
  = fold_left (first_step (fun rc : Z * Z => (fun k => (k, rc)) <$> text_key sh rc.1 rc.2))
              (grid_cells sh) [].
Proof.
  unfold find_header_row_and_cols, grid_cells.
  generalize (@nil (pystr * (Z * Z))).
  induction (range 1 (max_row sh + 1)) as [|r rows IH]; intros d; [done|].
  cbn [fold_left flat_map]. rewrite fold_left_app, <- IH. f_equal.
  generalize d. clear.
  induction (range 1 (max_column sh + 1)) as [|c cols IH]; intros d; [done|].
  cbn [fold_left map]. rewrite <- IH. f_equal.
  unfold first_step, text_key. cbn [fst snd].
  destruct (cell sh r c) as [|[|x s]|z|b|t]; try done.
  by destruct (nonempty (strip (x :: s))).
Qed.

Lemma elem_of_grid_cells sh r c :
  (r, c) ∈ grid_cells sh ↔ 1 ≤ r ≤ max_row sh ∧ 1 ≤ c ≤ max_column sh.
Proof.
  unfold grid_cells. rewrite list_elem_of_In, in_flat_map. split.
  - intros (r' & Hr & Hc). apply in_map_iff in Hc as (c' & [= -> ->] & Hc).
    apply list_elem_of_In, elem_of_seqZ in Hr. apply list_elem_of_In, elem_of_seqZ in Hc. lia.
  - intros [Hr Hc]. exists r. split.
    + apply list_elem_of_In, elem_of_seqZ. lia.
    + apply in_map, list_elem_of_In, elem_of_seqZ. lia.
Qed.

Lemma grid_cells_sorted sh : StronglySorted reading_order (grid_cells sh).
Proof.
  unfold grid_cells.
  pose proof (range_StronglySorted 1 (max_row sh + 1)) as Hrows.
  pose proof (range_StronglySorted 1 (max_column sh + 1)) as Hcols.
  induction Hrows as [|r rows Hrows IH Hr]; [constructor|].
  cbn [flat_map]. apply StronglySorted_app_2; [| |done].
  - intros [r1 c1] [r2 c2] H1 H2. left. cbn.
    apply list_elem_of_In, in_map_iff in H1 as (c' & [= -> ->] & _).
    apply list_elem_of_In, in_flat_map in H2 as (r' & Hr' & H2).
    apply in_map_iff in H2 as (c' & [= -> ->] & _).
    rewrite Forall_forall in Hr. by apply Hr, list_elem_of_In.
  - clear -Hcols. induction Hcols as [|c cols Hcols IH Hc]; [constructor|].
    cbn [map]. constructor; [done|].
    apply Forall_forall. intros [r' c'] H.
    apply list_elem_of_In, in_map_iff in H as (c'' & [= -> ->] & H).
    right. cbn. split; [done|]. rewrite Forall_forall in Hc. by apply Hc, list_elem_of_In.
Qed.

(** X21: the deprecated [find_header_row_and_cols] files every text of
    the sheet under its stripped, lower-cased form, and keeps for each
    the cell met first when the sheet is read row by row, left to
    right. *)
Theorem find_header_first_in_reading_order (sh : sheet) (k : pystr) (r c : Z) :
  dict_get k (find_header_row_and_cols sh) = Some (r, c) ↔
  1 ≤ r ≤ max_row sh ∧ 1 ≤ c ≤ max_column sh
  ∧ text_key sh r c = Some k
  ∧ ∀ r' c', 1 ≤ r' ≤ max_row sh -> 1 ≤ c' ≤ max_column sh ->
             reading_order (r', c') (r, c) -> text_key sh r' c' ≠ Some k.
Proof.
  rewrite find_header_row_and_cols_first, first_fold_get. cbn [dict_get].
  rewrite first_match_split.
  pose proof (grid_cells_sorted sh) as Hsorted. split.
  - intros (l1 & [r0 c0] & l2 & Hl & Hx & Hmin). cbn [fst snd] in Hx.
    destruct (text_key sh r0 c0) as [k0|] eqn:Hk; [|done].
    injection Hx as -> -> ->.
    assert (Hin : (r, c) ∈ grid_cells sh).
    { rewrite Hl, elem_of_app. right. by left. }
    apply elem_of_grid_cells in Hin as [Hr Hc].
    split; [done|]. split; [done|]. split; [done|].
    intros r' c' Hr' Hc' Hbefore Hk'.
    assert (Hin' : (r', c') ∈ grid_cells sh) by (by apply elem_of_grid_cells).
    rewrite Hl in Hin', Hsorted.
    apply StronglySorted_app in Hsorted as (_ & _ & Hs2).
    apply StronglySorted_cons in Hs2 as [Hafter _]. rewrite Forall_forall in Hafter.
    apply elem_of_app in Hin' as [Hin'|Hin'].
    + apply (Hmin (r', c') (r', c') Hin'). cbn [fst snd]. by rewrite Hk'.
    + apply elem_of_cons in Hin' as [[= -> ->]|Hin'].
      * unfold reading_order in Hbefore. cbn in Hbefore. lia.
      * specialize (Hafter _ Hin'). unfold reading_order in Hbefore, Hafter.
        cbn in Hbefore, Hafter. lia.
  - intros (Hr & Hc & Hk & Hmin).
    assert (Hin : (r, c) ∈ grid_cells sh) by (by apply elem_of_grid_cells).
    apply list_elem_of_split in Hin as (l1 & l2 & Hl).
    exists l1, (r, c), l2. split; [done|]. cbn [fst snd]. rewrite Hk.
    split; [done|]. intros [r' c'] w Hin'. cbn [fst snd].
    destruct (text_key sh r' c') as [k'|] eqn:Hk'; [|done].
    intros [= -> <-].
    rewrite Hl in Hsorted. apply StronglySorted_app in Hsorted as (Hbefore & _ & _).
    assert (Hg : (r', c') ∈ grid_cells sh) by (rewrite Hl, elem_of_app; by left).
    apply elem_of_grid_cells in Hg as [Hr' Hc'].
    apply (Hmin r' c' Hr' Hc'); [|done].
    apply Hbefore; [done|by left].
Qed.

End HeaderFinder.

(** ** The text a value is compared by *)

Section NormalizeKey.

Lemma strip_idem (s : pystr) : strip (strip s) = strip s.
Proof.
  unfold strip. rewrite (lstrip_rstrip_comm s), lstrip_idem.
  by rewrite (lstrip_rstrip_comm (rstrip s)), rstrip_idem.
Qed.

(** X22: [_normalize_key] is idempotent, and a value that is not empty
    is [_safe_eq] to the text [_normalize_key] gives for it, unless that
    text is empty. *)
Theorem normalize_key_idempotent (v : value) :
  _normalize_key (VStr (_normalize_key v)) = _normalize_key v
  ∧ (_normalize_key v ≠ [] -> _safe_eq v (VStr (_normalize_key v)) = true).
Proof.
  assert (Hidem : _normalize_key (VStr (_normalize_key v)) = _normalize_key v).
  { destruct v; cbn [_normalize_key py_str]; by rewrite ?strip_idem. }
  split; [done|]. intros Hne. unfold _safe_eq.
  rewrite Hidem, bool_decide_eq_true_2 by done.
  destruct (_normalize_key v) eqn:E; [done|]. cbn [is_empty].
  by rewrite andb_false_r.
Qed.

End NormalizeKey.

Lemma normalize_key_idempotent_witness :
  _safe_eq (VStr (py " a ")) (VStr (_normalize_key (VStr (py " a ")))) = true.
Proof.
  apply (normalize_key_idempotent (VStr (py " a "))). by vm_compute.
Defined.

(** ** The name score *)

Section NameRatio.
Context {RT : PyRuntime}.

(** X23: the name score of two header texts does not see the case of
    ASCII letters: replacing capitals by small letters in either text
    leaves [_name_ratio] unchanged. *)
Theorem name_ratio_ignores_ascii_case (a b : pystr) :
  _name_ratio (map ascii_fold a) b = _name_ratio a b
  ∧ _name_ratio a (map ascii_fold b) = _name_ratio a b.
Proof.
  unfold _name_ratio. rewrite !str_lower_fold.
  split; [by destruct a|by destruct b].
Qed.

End NameRatio.

(** ** The shape of a normal form *)

Section NormalFormShape.
Context {RT : PyRuntime}.

(** X24: what a normal form looks like, for a text whose word characters
    lower-case to lower-case word characters: it is made of lower-case
    word characters and of single U+0020 spaces between them, with no
    white space at either end. *)
Theorem normal_form_shape (x : pystr) :
  forallb lower_stable x = true ->
  spaced fixed_char false (_normalize_header (Some x))
  ∧ strip (_normalize_header (Some x)) = _normalize_header (Some x).
Proof.
  intros Hx. cbn [_normalize_header].
  set (y := collapse_ws false (sub_nonword x)).
  assert (Hy : spaced token_char false y) by (by apply spaced_collapse_sub).
  set (w := strip y).
  assert (Hw : spaced token_char false w).
  { apply spaced_rstrip. eapply spaced_lstrip. done. }
  assert (Hwl : lstrip w = w).
  { apply lstrip_fixpoint, rstrip_lstrip_head. }
  assert (Hwr : rstrip w = w) by apply rstrip_idem.
  split; [by apply spaced_lower|].
  unfold strip at 1.
  by rewrite (lower_lstrip false w Hw Hwl), (lower_rstrip false w Hw Hwr).
Qed.

End NormalFormShape.

Lemma normal_form_shape_witness :
  strip (_normalize_header (RT := cpython_fragment) (Some (py " S. No ")))
  = _normalize_header (RT := cpython_fragment) (Some (py " S. No ")).
Proof.
  apply (normal_form_shape (RT := cpython_fragment) (py " S. No ")).
  vm_compute. reflexivity.
Defined.
